(** * widdly: the tiddler store and its three backends

    A shallow embedding of [store/store.go] (the [Tiddler] type and its JSON
    projection), of the BoltDB backend, of the SQLite backend and of the
    flat-file backend, together with the properties of the store contract
    that hold, or fail, on that code.

    Go strings and byte slices are both sequences of bytes; they are modelled
    by [string], whose characters are the 256 values of [ascii].  Where the
    code distinguishes a nil slice from an empty one ([bolt.Bucket.Get]), the
    nil slice is [None].

    The libraries the code calls are modelled by executable functions:
    - [encoding/json]: a parser and a printer over a syntax tree ([Json]);
    - [boltdb/bolt]: a bucket is a list of entries sorted by key ([Bolt]);
    - [database/sql] over SQLite: a table is a list of rows in rowid order
      ([Sqlite]);
    - [os], [io/ioutil], [path/filepath]: a directory is a list of files
      sorted by name ([FlatFile]).
    Failures of the storage medium itself (a full disk, a key longer than the
    engine allows, a lost connection) are outside the model: every engine
    operation that the model performs succeeds.

    The handlers of package [api] that list, read, write and remove
    tiddlers over HTTP are embedded over the same stores ([Api]): a request
    is its method, its path and its body, a response its status, its
    headers and its body. *)

From Stdlib Require Import String Ascii List ZArith NArith Bool Lia.
From Stdlib Require Import DecimalFacts DecimalN.
From Stdlib Require OrderedTypeEx.
Import ListNotations.

Local Open Scope string_scope.
Local Open Scope N_scope.

(** ** Outcomes of a Go call *)

(** The error values the code can return.  [ErrNotFound] is
    [store.ErrNotFound]; [ErrNoRows] is [sql.ErrNoRows]; [SyntaxError] and
    [UnmarshalTypeError] are the two errors of [json.Unmarshal];
    [ErrNotExist p] is the [*os.PathError] for a path [p] that does not
    exist. *)
Inductive error : Type :=
| ErrNotFound
| ErrNoRows
| SyntaxError
| UnmarshalTypeError
| ErrNotExist (path : string).

(** A call returns a value ([Ok]), returns a non-nil error ([Err]), panics
    ([Panic]), or is given an input on which this development does not
    describe the library ([Unmodelled]; see [Json]). *)
Inductive outcome (A : Type) : Type :=
| Ok (a : A)
| Err (e : error)
| Panic
| Unmodelled.

Arguments Ok {A} a.
Arguments Err {A} e.
Arguments Panic {A}.
Arguments Unmodelled {A}.

Definition bind {A B : Type} (x : outcome A) (f : A -> outcome B) : outcome B :=
  match x with
  | Ok a => f a
  | Err e => Err e
  | Panic => Panic
  | Unmodelled => Unmodelled
  end.

Notation "x <- a ;; b" := (bind a (fun x => b))
  (at level 61, a at next level, right associativity).
Notation "' p <- a ;; b" := (bind a (fun p => b))
  (at level 61, p pattern, a at next level, right associativity).

(** ** Bytes *)

Definition byte (c : ascii) : N := N_of_ascii c.

Definition in_range (lo hi : N) (c : ascii) : bool :=
  (lo <=? byte c) && (byte c <=? hi).

Definition is_digit (c : ascii) : bool := in_range 48 57 c.

(** The double quote, and a string between two of them. *)
Definition dquote : ascii := ascii_of_N 34.

Definition q (s : string) : string := String dquote (s ++ String dquote "").

(** [bytes.Contains] and [strings.Contains]. *)
Fixpoint has_prefix (p s : string) : bool :=
  match p, s with
  | EmptyString, _ => true
  | String a p', String b s' => Ascii.eqb a b && has_prefix p' s'
  | String _ _, EmptyString => false
  end.

Fixpoint contains (s sub : string) : bool :=
  has_prefix sub s ||
  match s with
  | EmptyString => false
  | String _ s' => contains s' sub
  end.

(** Byte-wise order on strings, the order of [bytes.Compare]. *)
Definition str_lt (a b : string) : bool := String.ltb a b.

(** *** Sorted association lists

    Used for a Go [map[string]interface{}] (whose keys [json.Marshal] writes
    in sorted order), for a BoltDB bucket (whose cursor walks the keys in
    byte order) and for a directory (which [filepath.Walk] lists in lexical
    order). *)
Section Assoc.
Context {V : Type}.

Fixpoint assoc_get (m : list (string * V)) (k : string) : option V :=
  match m with
  | [] => None
  | (k', v) :: m' => if String.eqb k k' then Some v else assoc_get m' k
  end.

Fixpoint assoc_put (m : list (string * V)) (k : string) (v : V)
  : list (string * V) :=
  match m with
  | [] => [(k, v)]
  | (k', v') :: m' =>
      match String.compare k k' with
      | Eq => (k, v) :: m'
      | Lt => (k, v) :: (k', v') :: m'
      | Gt => (k', v') :: assoc_put m' k v
      end
  end.

Fixpoint assoc_remove (m : list (string * V)) (k : string)
  : list (string * V) :=
  match m with
  | [] => []
  | (k', v') :: m' =>
      if String.eqb k k' then assoc_remove m' k
      else (k', v') :: assoc_remove m' k
  end.

Fixpoint sorted_keys (m : list (string * V)) : bool :=
  match m with
  | [] => true
  | (k, _) :: m' =>
      match m' with
      | [] => true
      | (k', _) :: _ => str_lt k k' && sorted_keys m'
      end
  end.
End Assoc.

(** ** encoding/json *)

Module Json.

(** The syntax tree of a JSON text.  An object keeps its members in the
    order of the text, duplicates included; [norm] below turns it into the
    Go value that [json.Unmarshal] stores in an [interface{}].

    Numbers: [json.Unmarshal] stores a number in an [interface{}] as a
    [float64] and [json.Marshal] prints a [float64] in its shortest form.
    For an integer literal of magnitude at most 2^53 (other than [-0]) that
    is the integer itself, printed in decimal; [JNum] is such a number.  On
    every other number literal (a fraction, an exponent, a larger integer)
    the parser answers [Unmodelled]. *)
#[warnings="-register-all"] Inductive json : Type :=
| JNull
| JBool (b : bool)
| JNum (z : Z)
| JStr (s : string)
| JArr (l : list json)
| JObj (m : list (string * json)).

(** A Go [map[string]interface{}]: [None] is the nil map. *)
Definition gomap : Type := option (list (string * json)).

(** *** UTF-8

    [well_formed2], [well_formed3] and [well_formed4] are the tests of
    [utf8.DecodeRune] on a sequence whose first byte announces 2, 3 or 4
    bytes (RFC 3629: no overlong form, no surrogate, nothing above
    U+10FFFF). *)
Definition is_cont (c : ascii) : bool := in_range 128 191 c.

Definition well_formed2 (c1 c2 : ascii) : bool :=
  in_range 194 223 c1 && is_cont c2.

Definition second_of3 (c1 c2 : ascii) : bool :=
  if byte c1 =? 224 then in_range 160 191 c2
  else if byte c1 =? 237 then in_range 128 159 c2
  else is_cont c2.

Definition well_formed3 (c1 c2 c3 : ascii) : bool :=
  in_range 224 239 c1 && second_of3 c1 c2 && is_cont c3.

Definition second_of4 (c1 c2 : ascii) : bool :=
  if byte c1 =? 240 then in_range 144 191 c2
  else if byte c1 =? 244 then in_range 128 143 c2
  else is_cont c2.

Definition well_formed4 (c1 c2 c3 c4 : ascii) : bool :=
  in_range 240 244 c1 && second_of4 c1 c2 && is_cont c3 && is_cont c4.

(** [utf8.ValidString]. *)
Fixpoint utf8_valid (s : string) : bool :=
  match s with
  | EmptyString => true
  | String c1 s1 =>
      if byte c1 <? 128 then utf8_valid s1
      else
        match s1 with
        | EmptyString => false
        | String c2 s2 =>
            if well_formed2 c1 c2 then utf8_valid s2
            else
              match s2 with
              | EmptyString => false
              | String c3 s3 =>
                  if well_formed3 c1 c2 c3 then utf8_valid s3
                  else
                    match s3 with
                    | EmptyString => false
                    | String c4 s4 =>
                        if well_formed4 c1 c2 c3 c4 then utf8_valid s4
                        else false
                    end
              end
        end
  end.

(** The replacement character U+FFFD in UTF-8. *)
Definition replacement : string :=
  String (ascii_of_N 239) (String (ascii_of_N 191) (String (ascii_of_N 189) "")).

(** [utf8.EncodeRune]: a surrogate or a value above U+10FFFF becomes
    U+FFFD. *)
Definition encode_rune (r : N) : string :=
  if r <? 128 then String (ascii_of_N r) ""
  else if r <? 2048 then
    String (ascii_of_N (192 + r / 64)) (String (ascii_of_N (128 + r mod 64)) "")
  else if (55296 <=? r) && (r <=? 57343) then replacement
  else if r <? 65536 then
    String (ascii_of_N (224 + r / 4096))
      (String (ascii_of_N (128 + (r / 64) mod 64))
         (String (ascii_of_N (128 + r mod 64)) ""))
  else if r <? 1114112 then
    String (ascii_of_N (240 + r / 262144))
      (String (ascii_of_N (128 + (r / 4096) mod 64))
         (String (ascii_of_N (128 + (r / 64) mod 64))
            (String (ascii_of_N (128 + r mod 64)) "")))
  else replacement.

(** *** Printing ([json.Marshal]) *)

Definition hex_digit (n : N) : ascii :=
  if n <? 10 then ascii_of_N (48 + n) else ascii_of_N (87 + n).

(** The bytes below 0x80 that the encoder copies unchanged (its
    [htmlSafeSet]): all but the control characters, the quote, the backslash
    and the three characters [<], [>], [&]. *)
Definition html_safe (c : ascii) : bool :=
  (32 <=? byte c)
  && negb (Ascii.eqb c dquote)
  && negb (Ascii.eqb c "\")
  && negb (Ascii.eqb c "<")
  && negb (Ascii.eqb c ">")
  && negb (Ascii.eqb c "&").

Definition escape (c : ascii) : string :=
  if Ascii.eqb c dquote then String "\" (String dquote "")
  else if Ascii.eqb c "\" then "\\"
  else if byte c =? 10 then "\n"
  else if byte c =? 13 then "\r"
  else if byte c =? 9 then "\t"
  else "\u00" ++ String (hex_digit (byte c / 16))
                   (String (hex_digit (byte c mod 16)) "").

Definition enc_ascii (c : ascii) : string :=
  if html_safe c then String c "" else escape c.

(** U+2028 and U+2029 are the two well-formed sequences the encoder
    escapes. *)
Definition line_sep (c1 c2 c3 : ascii) : bool :=
  (byte c1 =? 226) && (byte c2 =? 128) && ((byte c3 =? 168) || (byte c3 =? 169)).

Definition enc_rune3 (c1 c2 c3 : ascii) : string :=
  if line_sep c1 c2 c3 then "\u202" ++ String (hex_digit (byte c3 mod 16)) ""
  else String c1 (String c2 (String c3 "")).

(** What the encoder writes for a byte that is not part of a well-formed
    sequence: the escape of U+FFFD. *)
Definition bad_byte : string := "\uff" ++ "fd".

(** The body of a string literal: the loop of the encoder's [string]
    method.  An ill-formed byte is written as [bad_byte] and the loop resumes at
    the next byte. *)
Fixpoint enc_str (s : string) : string :=
  match s with
  | EmptyString => ""
  | String c1 s1 =>
      if byte c1 <? 128 then enc_ascii c1 ++ enc_str s1
      else
        match s1 with
        | EmptyString => bad_byte
        | String c2 s2 =>
            if well_formed2 c1 c2 then String c1 (String c2 (enc_str s2))
            else
              match s2 with
              | EmptyString => bad_byte ++ enc_str s1
              | String c3 s3 =>
                  if well_formed3 c1 c2 c3 then enc_rune3 c1 c2 c3 ++ enc_str s3
                  else
                    match s3 with
                    | EmptyString => bad_byte ++ enc_str s1
                    | String c4 s4 =>
                        if well_formed4 c1 c2 c3 c4
                        then String c1 (String c2 (String c3 (String c4 (enc_str s4))))
                        else bad_byte ++ enc_str s1
                    end
              end
        end
  end.

Definition quote (s : string) : string :=
  String dquote (enc_str s ++ String dquote "").

Fixpoint print_uint (d : Decimal.uint) : string :=
  match d with
  | Decimal.Nil => ""
  | Decimal.D0 d => String "0" (print_uint d)
  | Decimal.D1 d => String "1" (print_uint d)
  | Decimal.D2 d => String "2" (print_uint d)
  | Decimal.D3 d => String "3" (print_uint d)
  | Decimal.D4 d => String "4" (print_uint d)
  | Decimal.D5 d => String "5" (print_uint d)
  | Decimal.D6 d => String "6" (print_uint d)
  | Decimal.D7 d => String "7" (print_uint d)
  | Decimal.D8 d => String "8" (print_uint d)
  | Decimal.D9 d => String "9" (print_uint d)
  end.

(** [strconv.Itoa], the [%d] verb of [fmt]. *)
Definition itoa (z : Z) : string :=
  match z with
  | Z0 => "0"
  | Zpos p => print_uint (Pos.to_uint p)
  | Zneg p => "-" ++ print_uint (Pos.to_uint p)
  end.

(** The elements of an array and the members of an object, between
    commas, with [pr] for the values. *)
Section Printers.
Variable pr : json -> string.

Fixpoint print_elems (l : list json) : string :=
  match l with
  | [] => ""
  | v :: l' =>
      match l' with
      | [] => pr v
      | _ :: _ => pr v ++ "," ++ print_elems l'
      end
  end.

Fixpoint print_members (m : list (string * json)) : string :=
  match m with
  | [] => ""
  | (k, v) :: m' =>
      match m' with
      | [] => quote k ++ ":" ++ pr v
      | _ :: _ => quote k ++ ":" ++ pr v ++ "," ++ print_members m'
      end
  end.

End Printers.

(** The encoder, for the values that [json.Unmarshal] stores in an
    [interface{}] and for an [int]: no white space, and the members of an
    object in the order of the list. *)
Fixpoint print (v : json) : string :=
  match v with
  | JNull => "null"
  | JBool true => "true"
  | JBool false => "false"
  | JNum z => itoa z
  | JStr s => quote s
  | JArr l => "[" ++ print_elems print l ++ "]"
  | JObj m => "{" ++ print_members print m ++ "}"
  end.

(** [json.Marshal] of a [map[string]interface{}]; the nil map is written
    [null]. *)
Definition Marshal (js : gomap) : string :=
  match js with
  | None => "null"
  | Some m => print (JObj m)
  end.

(** *** Parsing ([json.Unmarshal]) *)

Definition is_space (c : ascii) : bool :=
  (byte c =? 32) || (byte c =? 9) || (byte c =? 10) || (byte c =? 13).

Fixpoint skip_ws (s : string) : string :=
  match s with
  | EmptyString => ""
  | String c s' => if is_space c then skip_ws s' else s
  end.

Definition hex_val (c : ascii) : option N :=
  if in_range 48 57 c then Some (byte c - 48)
  else if in_range 97 102 c then Some (byte c - 87)
  else if in_range 65 70 c then Some (byte c - 55)
  else None.

Definition hex4 (h1 h2 h3 h4 : ascii) : option N :=
  match hex_val h1, hex_val h2, hex_val h3, hex_val h4 with
  | Some a, Some b, Some c, Some d => Some (((a * 16 + b) * 16 + c) * 16 + d)
  | _, _, _, _ => None
  end.

(** The one-letter escapes the scanner accepts after a backslash. *)
Definition simple_escape (e : ascii) : option ascii :=
  if Ascii.eqb e dquote then Some dquote
  else if Ascii.eqb e "\" then Some "\"%char
  else if Ascii.eqb e "/" then Some "/"%char
  else if Ascii.eqb e "b" then Some (ascii_of_N 8)
  else if Ascii.eqb e "f" then Some (ascii_of_N 12)
  else if Ascii.eqb e "n" then Some (ascii_of_N 10)
  else if Ascii.eqb e "r" then Some (ascii_of_N 13)
  else if Ascii.eqb e "t" then Some (ascii_of_N 9)
  else None.

Definition is_surrogate (r : N) : bool := (55296 <=? r) && (r <=? 57343).

(** [utf16.DecodeRune]: [None] when the two halves are not a pair. *)
Definition surrogate_pair (r1 r2 : N) : option N :=
  if (55296 <=? r1) && (r1 <? 56320) && (56320 <=? r2) && (r2 <? 57344)
  then Some ((r1 - 55296) * 1024 + (r2 - 56320) + 65536)
  else None.

Definition prepend (p : string) (r : outcome (string * string))
  : outcome (string * string) :=
  match r with
  | Ok (d, rest) => Ok (p ++ d, rest)
  | Err e => Err e
  | Panic => Panic
  | Unmodelled => Unmodelled
  end.

(** The body of a string literal, after its opening quote: the decoded
    string and the text after the closing quote.  An ill-formed byte is
    replaced by U+FFFD, as is half a surrogate pair. *)
Fixpoint unquote (s : string) : outcome (string * string) :=
  match s with
  | EmptyString => Err SyntaxError
  | String c1 s1 =>
      if Ascii.eqb c1 dquote then Ok ("", s1)
      else if Ascii.eqb c1 "\" then
        match s1 with
        | EmptyString => Err SyntaxError
        | String e s2 =>
            match simple_escape e with
            | Some c => prepend (String c "") (unquote s2)
            | None =>
                if Ascii.eqb e "u" then
                  match s2 with
                  | String h1 (String h2 (String h3 (String h4 s6))) =>
                      match hex4 h1 h2 h3 h4 with
                      | None => Err SyntaxError
                      | Some r =>
                          if is_surrogate r then
                            match s6 with
                            | String b (String u (String g1 (String g2
                                (String g3 (String g4 s12))))) =>
                                match
                                  (if Ascii.eqb b "\" && Ascii.eqb u "u"
                                   then hex4 g1 g2 g3 g4 else None)
                                with
                                | Some r2 =>
                                    match surrogate_pair r r2 with
                                    | Some p =>
                                        prepend (encode_rune p) (unquote s12)
                                    | None => prepend replacement (unquote s6)
                                    end
                                | None => prepend replacement (unquote s6)
                                end
                            | _ => prepend replacement (unquote s6)
                            end
                          else prepend (encode_rune r) (unquote s6)
                      end
                  | _ => Err SyntaxError
                  end
                else Err SyntaxError
            end
        end
      else if byte c1 <? 32 then Err SyntaxError
      else if byte c1 <? 128 then prepend (String c1 "") (unquote s1)
      else
        match s1 with
        | EmptyString => prepend replacement (unquote s1)
        | String c2 s2 =>
            if well_formed2 c1 c2
            then prepend (String c1 (String c2 "")) (unquote s2)
            else
              match s2 with
              | EmptyString => prepend replacement (unquote s1)
              | String c3 s3 =>
                  if well_formed3 c1 c2 c3
                  then prepend (String c1 (String c2 (String c3 ""))) (unquote s3)
                  else
                    match s3 with
                    | EmptyString => prepend replacement (unquote s1)
                    | String c4 s4 =>
                        if well_formed4 c1 c2 c3 c4
                        then prepend
                               (String c1 (String c2 (String c3 (String c4 ""))))
                               (unquote s4)
                        else prepend replacement (unquote s1)
                    end
              end
        end
  end.

Definition digit_of (c : ascii) : option (Decimal.uint -> Decimal.uint) :=
  if Ascii.eqb c "0" then Some Decimal.D0
  else if Ascii.eqb c "1" then Some Decimal.D1
  else if Ascii.eqb c "2" then Some Decimal.D2
  else if Ascii.eqb c "3" then Some Decimal.D3
  else if Ascii.eqb c "4" then Some Decimal.D4
  else if Ascii.eqb c "5" then Some Decimal.D5
  else if Ascii.eqb c "6" then Some Decimal.D6
  else if Ascii.eqb c "7" then Some Decimal.D7
  else if Ascii.eqb c "8" then Some Decimal.D8
  else if Ascii.eqb c "9" then Some Decimal.D9
  else None.

(** The longest run of digits at the head of [s], and what follows it. *)
Fixpoint read_digits (s : string) : Decimal.uint * string :=
  match s with
  | EmptyString => (Decimal.Nil, "")
  | String c s' =>
      match digit_of c with
      | Some d => let (ds, rest) := read_digits s' in (d ds, rest)
      | None => (Decimal.Nil, s)
      end
  end.

(** 2^53. *)
Definition max_exact : N := 9007199254740992.

Definition starts_fraction (s : string) : bool :=
  match s with
  | String c _ => Ascii.eqb c "." || Ascii.eqb c "e" || Ascii.eqb c "E"
  | EmptyString => false
  end.

(** A number literal.  The scanner rejects a missing digit and a leading
    zero; a fraction, an exponent, [-0] and an integer above 2^53 are the
    literals this development leaves [Unmodelled]. *)
Definition parse_number (s : string) : outcome (json * string) :=
  let (neg, s1) :=
    match s with
    | String c s' => if Ascii.eqb c "-" then (true, s') else (false, s)
    | EmptyString => (false, s)
    end in
  let (d, rest) := read_digits s1 in
  match d with
  | Decimal.Nil => Err SyntaxError
  | Decimal.D0 (Decimal.D0 _ | Decimal.D1 _ | Decimal.D2 _ | Decimal.D3 _
               | Decimal.D4 _ | Decimal.D5 _ | Decimal.D6 _ | Decimal.D7 _
               | Decimal.D8 _ | Decimal.D9 _) => Err SyntaxError
  | _ =>
      if starts_fraction rest then Unmodelled
      else
        let n := N.of_uint d in
        if max_exact <? n then Unmodelled
        else if neg then
          (if n =? 0 then Unmodelled else Ok (JNum (- Z.of_N n), rest))
        else Ok (JNum (Z.of_N n), rest)
  end.

Fixpoint drop (n : nat) (s : string) : string :=
  match n, s with
  | O, _ => s
  | S n', String _ s' => drop n' s'
  | S _, EmptyString => ""
  end.

(** A value at the head of [s]; [parse_elems] reads the elements of an
    array after its first bracket and [parse_members] the members of an
    object after its first brace, both up to and including the closing
    one.  [fuel] bounds the depth of the calls; when it runs out the answer
    is [Unmodelled]. *)
Fixpoint parse_value (fuel : nat) (s : string) : outcome (json * string) :=
  match fuel with
  | O => Unmodelled
  | S f =>
      match s with
      | EmptyString => Err SyntaxError
      | String c s' =>
          if Ascii.eqb c "{" then
            match skip_ws s' with
            | EmptyString => Err SyntaxError
            | String c' r =>
                if Ascii.eqb c' "}" then Ok (JObj [], r)
                else '(m, r') <- parse_members f (String c' r) ;; Ok (JObj m, r')
            end
          else if Ascii.eqb c "[" then
            match skip_ws s' with
            | EmptyString => Err SyntaxError
            | String c' r =>
                if Ascii.eqb c' "]" then Ok (JArr [], r)
                else '(l, r') <- parse_elems f (String c' r) ;; Ok (JArr l, r')
            end
          else if Ascii.eqb c dquote then
            '(str, r) <- unquote s' ;; Ok (JStr str, r)
          else if Ascii.eqb c "-" || is_digit c then parse_number s
          else if has_prefix "true" s then Ok (JBool true, drop 4 s)
          else if has_prefix "false" s then Ok (JBool false, drop 5 s)
          else if has_prefix "null" s then Ok (JNull, drop 4 s)
          else Err SyntaxError
      end
  end
with parse_elems (fuel : nat) (s : string) : outcome (list json * string) :=
  match fuel with
  | O => Unmodelled
  | S f =>
      '(v, r) <- parse_value f s ;;
      match skip_ws r with
      | EmptyString => Err SyntaxError
      | String c r' =>
          if Ascii.eqb c "," then
            '(l, r'') <- parse_elems f (skip_ws r') ;; Ok (v :: l, r'')
          else if Ascii.eqb c "]" then Ok ([v], r')
          else Err SyntaxError
      end
  end
with parse_members (fuel : nat) (s : string)
  : outcome (list (string * json) * string) :=
  match fuel with
  | O => Unmodelled
  | S f =>
      match s with
      | EmptyString => Err SyntaxError
      | String q s1 =>
          if Ascii.eqb q dquote then
            '(k, r) <- unquote s1 ;;
            match skip_ws r with
            | EmptyString => Err SyntaxError
            | String c r1 =>
                if Ascii.eqb c ":" then
                  '(v, r2) <- parse_value f (skip_ws r1) ;;
                  match skip_ws r2 with
                  | EmptyString => Err SyntaxError
                  | String c' r3 =>
                      if Ascii.eqb c' "," then
                        '(m, r4) <- parse_members f (skip_ws r3) ;;
                        Ok ((k, v) :: m, r4)
                      else if Ascii.eqb c' "}" then Ok ([(k, v)], r3)
                      else Err SyntaxError
                  end
                else Err SyntaxError
            end
          else Err SyntaxError
      end
  end.

(** A whole JSON text: one value between optional white space.  (The
    limit that recent versions of Go put on the depth of the nesting is not
    part of the model.) *)
Definition parse (data : string) : outcome json :=
  '(v, rest) <- parse_value (2 * String.length data + 2) (skip_ws data) ;;
  match skip_ws rest with
  | EmptyString => Ok v
  | String _ _ => Err SyntaxError
  end.

(** The Go value of a syntax tree: every object becomes a map, in which a
    later member replaces an earlier one of the same key. *)
Fixpoint norm (v : json) : json :=
  match v with
  | JArr l => JArr (map norm l)
  | JObj m =>
      JObj (fold_left (fun acc kv => assoc_put acc (fst kv) (norm (snd kv))) m [])
  | _ => v
  end.

Definition to_map (m : list (string * json)) : list (string * json) :=
  fold_left (fun acc kv => assoc_put acc (fst kv) (norm (snd kv))) m [].

(** [json.Unmarshal(data, &js)] for a nil [js] of type
    [map[string]interface{}].  The JSON value [null] is no error: it leaves
    the map nil. *)
Definition Unmarshal (data : string) : outcome gomap :=
  v <- parse data ;;
  match v with
  | JObj m => Ok (Some (to_map m))
  | JNull => Ok None
  | _ => Err UnmarshalTypeError
  end.

(** [js[k] = v]: a write to the nil map panics. *)
Definition map_assign (js : gomap) (k : string) (v : json) : outcome gomap :=
  match js with
  | None => Panic
  | Some m => Ok (Some (assoc_put m k v))
  end.

(** The match of an object key against a struct field name that is made of
    ASCII letters: equal up to the case of the letters, where the long s
    (U+017F) also stands for [s] and the Kelvin sign (U+212A) for [k]. *)
Definition is_letter (c : ascii) : bool :=
  in_range 65 90 c || in_range 97 122 c.

Definition upper (c : ascii) : N := N.land (byte c) 223.

Fixpoint fold_eq (name key : string) : bool :=
  match name, key with
  | EmptyString, EmptyString => true
  | String sb name', String tb key' =>
      if byte tb <? 128 then
        (Ascii.eqb sb tb || (is_letter sb && (upper sb =? upper tb)))
        && fold_eq name' key'
      else
        match key' with
        | String t2 key2 =>
            if (upper sb =? 83) && (byte tb =? 197) && (byte t2 =? 191)
            then fold_eq name' key2
            else
              match key2 with
              | String t3 key3 =>
                  (upper sb =? 75) && (byte tb =? 226) && (byte t2 =? 132)
                  && (byte t3 =? 170) && fold_eq name' key3
              | EmptyString => false
              end
        | EmptyString => false
        end
  | _, _ => false
  end.

(** The members of an object decoded, in the order of the text, into a
    struct whose only field is an [int] of the given name: the value left in
    the field and whether some member that matches the field held something
    else than a number or [null]. *)
Fixpoint decode_int_field (name : string) (m : list (string * json))
  (cur : Z) (failed : bool) : Z * bool :=
  match m with
  | [] => (cur, failed)
  | (k, v) :: m' =>
      if fold_eq name k then
        match v with
        | JNum z => decode_int_field name m' z failed
        | JNull => decode_int_field name m' cur failed
        | _ => decode_int_field name m' cur true
        end
      else decode_int_field name m' cur failed
  end.

(** [json.Unmarshal(data, &meta)] for [var meta struct{ Revision int }]:
    the value of [meta.Revision] when the error is nil. *)
Definition Unmarshal_Revision (data : string) : outcome Z :=
  v <- parse data ;;
  match v with
  | JObj m =>
      let (z, failed) := decode_int_field "Revision" m 0%Z false in
      if failed then Err UnmarshalTypeError else Ok z
  | JNull => Ok 0%Z
  | _ => Err UnmarshalTypeError
  end.

(** *** The values that a print and a parse give back

    [wf v]: every number of [v] is an integer that a [float64] holds
    exactly and every string and key of [v] is well-formed UTF-8.
    [canonical v]: moreover the keys of every object of [v] are in strictly
    increasing order, as [json.Marshal] writes the keys of a map. *)
Definition exact (z : Z) : bool := (Z.abs z <=? 9007199254740992)%Z.

Fixpoint wf (v : json) : bool :=
  match v with
  | JNum z => exact z
  | JStr s => utf8_valid s
  | JArr l => forallb wf l
  | JObj m => forallb (fun kv => utf8_valid (fst kv) && wf (snd kv)) m
  | _ => true
  end.

Fixpoint canonical (v : json) : bool :=
  match v with
  | JNum z => exact z
  | JStr s => utf8_valid s
  | JArr l => forallb canonical l
  | JObj m =>
      sorted_keys m
      && forallb (fun kv => utf8_valid (fst kv) && canonical (snd kv)) m
  | _ => true
  end.

(** The string that [unquote] decoded, if any, is well-formed UTF-8. *)
Definition decoded_valid (u : outcome (string * string)) : Prop :=
  match u with
  | Ok (d, _) => utf8_valid d = true
  | _ => True
  end.

(** What follows a value in a printed text: nothing, a comma, or the
    bracket or brace that closes the enclosing value. *)
Definition delimited (rest : string) : bool :=
  match rest with
  | EmptyString => true
  | String c _ => Ascii.eqb c "," || Ascii.eqb c "]" || Ascii.eqb c "}"
  end.

(** A bound on the depth of the calls that parse the text of [v]. *)
Fixpoint size (v : json) : nat :=
  match v with
  | JArr l => S (fold_right (fun v n => S (size v + n)) O l)
  | JObj m => S (fold_right (fun kv n => S (size (snd kv) + n)) O m)
  | _ => 1
  end.

(** A well-formed value parses back from its printed form, whatever
    delimiter follows, when the fuel covers its size. *)
Definition parses_back (v : json) : Prop :=
  wf v = true ->
  forall fuel rest, (size v <= fuel)%nat -> delimited rest = true ->
  parse_value fuel (print v ++ rest) = Ok (v, rest).

End Json.

(** ** store/store.go: package store *)

Module Store.
Import Json.

Record Tiddler : Type := {
  Key : string;       (* The title of the tiddler *)
  Meta : string;      (* Meta information (the tiddler serialized to JSON without text) *)
  Text : string;      (* The text of the tiddler *)
  WithText : bool     (* If the tiddler is non-skinny *)
}.

(** The zero value [store.Tiddler{}]. *)
Definition zero : Tiddler :=
  {| Key := ""; Meta := ""; Text := ""; WithText := false |}.

(** The literal [store.Tiddler{Key: key, Meta: meta, Text: text}]. *)
Definition new (key meta text : string) : Tiddler :=
  {| Key := key; Meta := meta; Text := text; WithText := false |}.

(** [func (t *Tiddler) MarshalJSON() ([]byte, error)]. *)
Definition MarshalJSON (t : Tiddler) : outcome string :=
  if negb (WithText t) then Ok (Meta t)
  else
    js <- Unmarshal (Meta t) ;;
    js' <- map_assign js "text" (JStr (Text t)) ;;
    Ok (Marshal js').

(** The literal of [bytes.Contains(t.Meta, []byte(`"$:/tags/Macro"`))]: the
    tag between its two quotes, 15 bytes. *)
Definition macro_tag : string := q "$:/tags/Macro".

(** Two metas for the examples: [{"author":"x"}] and
    [{"tags":["$:/tags/Macro"]}]. *)
Definition sample_meta : string := "{" ++ q "author" ++ ":" ++ q "x" ++ "}".

Definition macro_meta : string := "{" ++ q "tags" ++ ":[" ++ macro_tag ++ "]}".

(** The tiddler that the three [All] loops build from a meta and the text
    that goes with it. *)
Definition listed (meta text : string) : Tiddler :=
  if contains meta macro_tag
  then {| Key := ""; Meta := meta; Text := text; WithText := true |}
  else {| Key := ""; Meta := meta; Text := ""; WithText := false |}.

(** A write leaves a result and a state.  [commit s r] is the pair for a
    write whose effects are all or nothing: the new state when [r] is a
    success and [s] otherwise. *)
Definition commit {S A : Type} (s : S) (r : outcome (A * S)) : outcome A * S :=
  match r with
  | Ok (a, s') => (Ok a, s')
  | Err e => (Err e, s)
  | Panic => (Panic, s)
  | Unmodelled => (Unmodelled, s)
  end.

End Store.

(** ** store/store.go: package bolt *)

Module Bolt.
Import Json Store.

(** A bucket: its entries in the order of the cursor.  [Get] answers [nil]
    for a key that is absent and the stored bytes, possibly none, for a key
    that is present; [Put] of a nil value stores the empty value. *)
Definition bucket : Type := list (string * string).

Record boltStore : Type := {
  tiddler : bucket;
  tiddler_history : bucket
}.

(** [MustOpen] on a new file: the two buckets, empty. *)
Definition MustOpen : boltStore := {| tiddler := []; tiddler_history := [] |}.

Definition string_of (v : option string) : string :=
  match v with
  | Some b => b
  | None => ""
  end.

(** [func (s *boltStore) Get]. *)
Definition Get (s : boltStore) (key : string) : outcome Tiddler :=
  match assoc_get (tiddler s) (key ++ "|1") with
  | None => Err ErrNotFound
  | Some meta =>
      Ok {| Key := ""; Meta := meta;
            Text := string_of (assoc_get (tiddler s) (key ++ "|2"));
            WithText := true |}
  end.

(** The cursor loop of [All]: each turn reads one entry as the meta and
    steps the cursor once more, for the text when the meta is not empty and
    to skip it otherwise.  A step past the last entry yields nil. *)
Fixpoint all_loop (entries : bucket) : list Tiddler :=
  match entries with
  | [] => []
  | (_, meta) :: rest =>
      match rest with
      | [] =>
          if (String.length meta =? 0)%nat then [] else [listed meta ""]
      | (_, text) :: rest' =>
          if (String.length meta =? 0)%nat then all_loop rest'
          else listed meta text :: all_loop rest'
      end
  end.

(** [func (s *boltStore) All]. *)
Definition All (s : boltStore) : outcome (list Tiddler) :=
  Ok (all_loop (tiddler s)).

(** [func getLastRevision(b *bolt.Bucket, mkey []byte) int]. *)
Definition getLastRevision (b : bucket) (mkey : string) : outcome Z :=
  match assoc_get b mkey with
  | Some data =>
      match Unmarshal_Revision data with
      | Ok r => Ok (r + 1)%Z
      | Err _ => Ok 1%Z
      | Panic => Panic
      | Unmodelled => Unmodelled
      end
  | None => Ok 1%Z
  end.

(** [func (s *boltStore) Put].  The function passed to [db.Update] runs in
    one transaction: an error or a panic inside it rolls everything back. *)
Definition Put (s : boltStore) (t : Tiddler) : outcome Z * boltStore :=
  commit s (
    js <- Unmarshal (Meta t) ;;
    let mkey := Key t ++ "|1" in
    rev <- getLastRevision (tiddler s) mkey ;;
    js1 <- map_assign js "revision" (JNum rev) ;;
    let b1 := assoc_put (tiddler s) mkey (Marshal js1) in
    let b2 := assoc_put b1 (Key t ++ "|2") (Text t) in
    js2 <- map_assign js1 "text" (JStr (Text t)) ;;
    let h := assoc_put (tiddler_history s) (Key t ++ "#" ++ itoa rev) (Marshal js2) in
    Ok (rev, {| tiddler := b2; tiddler_history := h |})).

(** [func (s *boltStore) Delete]. *)
Definition Delete (s : boltStore) (key : string) : outcome unit * boltStore :=
  commit s (
    let mkey := key ++ "|1" in
    rev <- getLastRevision (tiddler s) mkey ;;
    let b1 := assoc_put (tiddler s) mkey "" in
    let b2 := assoc_put b1 (key ++ "|2") "" in
    let h := assoc_put (tiddler_history s) (key ++ "#" ++ itoa rev) "" in
    Ok (tt, {| tiddler := b2; tiddler_history := h |})).

End Bolt.

(** ** store/sqlite/sqlite.go: package sqlite *)

Module Sqlite.
Import Json Store.

(** A row of [CREATE TABLE tiddler (id integer not null primary key
    AUTOINCREMENT, meta text, content text, revision integer)]. *)
Record row : Type := {
  id : Z;
  meta : string;
  content : string;
  revision : Z
}.

(** The table, in rowid order, and the next rowid.  [Put] binds the meta
    as a blob; [LIKE] reads a blob as text and [Scan] converts it to a
    string, so the column is modelled by a [string].  A [SELECT] without
    [ORDER BY] scans the table in that order, so [LIMIT 1] keeps the matching
    row of least rowid. *)
Record sqliteStore : Type := {
  rows : list row;
  next_id : Z
}.

(** [MustOpen] on a new file. *)
Definition MustOpen : sqliteStore := {| rows := []; next_id := 1 |}.

Definition lower (c : ascii) : N :=
  if in_range 65 90 c then byte c + 32 else byte c.

(** What [_] consumes: one character, that is one byte and, when that byte
    is 0xC0 or more, the continuation bytes after it. *)
Fixpoint skip_cont (t : string) : string :=
  match t with
  | String c t' => if in_range 128 191 c then skip_cont t' else t
  | EmptyString => ""
  end.

Definition skip_char (c : ascii) (t : string) : string :=
  if 192 <=? byte c then skip_cont t else t.

(** SQLite's [LIKE] with its defaults: [%] stands for any run of
    characters, [_] for one character, an ASCII letter for itself in either
    case, and there is no escape character.  (For text that is well-formed
    UTF-8 without a zero byte.) *)
Fixpoint like (pattern text : string) : bool :=
  match pattern with
  | EmptyString =>
      match text with
      | EmptyString => true
      | String _ _ => false
      end
  | String p pattern' =>
      if Ascii.eqb p "%" then
        (fix any (t : string) : bool :=
           like pattern' t ||
           match t with
           | EmptyString => false
           | String _ t' => any t'
           end) text
      else
        match text with
        | EmptyString => false
        | String c text' =>
            if Ascii.eqb p "_" then like pattern' (skip_char c text')
            else (lower p =? lower c) && like pattern' text'
        end
  end.

(** [QueryRow(arg)] for [... WHERE meta LIKE ? LIMIT 1]. *)
Definition query_row (s : sqliteStore) (arg : string) : option row :=
  find (fun r => like arg (meta r)) (rows s).

(** [func (s *sqliteStore) Get]: the error of [Scan] is returned as it
    is. *)
Definition Get (s : sqliteStore) (key : string) : outcome Tiddler :=
  match query_row s ("%" ++ key ++ "%") with
  | None => Err ErrNoRows
  | Some r =>
      Ok {| Key := ""; Meta := meta r; Text := content r; WithText := true |}
  end.

(** [func (s *sqliteStore) All]. *)
Definition All (s : sqliteStore) : outcome (list Tiddler) :=
  Ok (map (fun r => listed (meta r) (content r)) (rows s)).

(** [func getLastRevision(db *sql.DB, mkey string) int]: 1 when [Scan]
    succeeds, and otherwise the variable [revision], which [Scan] has not
    written. *)
Definition getLastRevision (s : sqliteStore) (mkey : string) : Z :=
  match query_row s mkey with
  | Some _ => 1
  | None => 0
  end.

(** [func (s *sqliteStore) Put]. *)
Definition Put (s : sqliteStore) (t : Tiddler) : outcome Z * sqliteStore :=
  commit s (
    _ <- Unmarshal (Meta t) ;;
    let rev := getLastRevision s (Key t) in
    let r := {| id := next_id s; meta := Meta t; content := Text t;
                revision := rev |} in
    Ok (rev, {| rows := rows s ++ [r]; next_id := (next_id s + 1)%Z |})).

(** [func (s *sqliteStore) Delete]: [DELETE FROM tiddler WHERE meta LIKE ?]
    with the key as the pattern. *)
Definition Delete (s : sqliteStore) (key : string) : outcome unit * sqliteStore :=
  (Ok tt,
   {| rows := filter (fun r => negb (like key (meta r))) (rows s);
      next_id := next_id s |}).

End Sqlite.

(** ** The flat-file backend: package flatFile *)

Module FlatFile.
Import Json Store.

(** A directory that holds regular files only: name and content, in
    lexical order of the names. *)
Definition dir : Type := list (string * string).

(** The store owns two directories, [tiddlersPath] and
    [tiddlerHistoryPath]; [MustOpen] creates them and nothing ever creates
    a directory inside them.  [cwd] holds the regular files of the working
    directory of the process, which the store reads (see [All]) and never
    writes: [tiddlersPath] is [filepath.Join(".", dataSource, "tiddlers")],
    a directory below the working directory or beside it. *)
Record flatFileStore : Type := {
  tiddlers : dir;
  tiddlerHistory : dir;
  cwd : dir
}.

(** [MustOpen] where no store exists yet. *)
Definition MustOpen (files : dir) : flatFileStore :=
  {| tiddlers := []; tiddlerHistory := []; cwd := files |}.

Fixpoint no_byte (bad : ascii -> bool) (s : string) : bool :=
  match s with
  | EmptyString => true
  | String c s' => negb (bad c) && no_byte bad s'
  end.

(** The keys for which [filepath.Join(dir, key + suffix)] names a file
    directly inside [dir]: no path separator (and no zero byte).  For the
    other keys the file operations are [Unmodelled]. *)
Definition path_ok (key : string) : bool :=
  no_byte (fun c => Ascii.eqb c "/" || (byte c =? 0)) key.

Definition regexp_meta (c : ascii) : bool :=
  Ascii.eqb c "\" || Ascii.eqb c "." || Ascii.eqb c "+" || Ascii.eqb c "*"
  || Ascii.eqb c "?" || Ascii.eqb c "(" || Ascii.eqb c ")" || Ascii.eqb c "|"
  || Ascii.eqb c "[" || Ascii.eqb c "]" || Ascii.eqb c "{" || Ascii.eqb c "}"
  || Ascii.eqb c "^" || Ascii.eqb c "$".

(** The keys that, read as a regular expression, match themselves and
    nothing else: well-formed UTF-8 without a metacharacter.  For the other
    keys [getLastRevision] is [Unmodelled]. *)
Definition regexp_ok (key : string) : bool :=
  utf8_valid key && no_byte regexp_meta key.

(** [regexp.MatchString(key + "#\\d+", name)] for such a key: somewhere in
    [name] stands the key, a [#] and a digit. *)
Fixpoint match_rev (key name : string) : bool :=
  (has_prefix (key ++ "#") name
   && match Json.drop (String.length key + 1) name with
      | String d _ => is_digit d
      | EmptyString => false
      end)
  || match name with
     | EmptyString => false
     | String _ name' => match_rev key name'
     end.

(** [regexp.MatchString(".meta", name)]: somewhere in [name] stands a
    character other than a line feed, then [meta]. *)
Fixpoint match_dot_meta (name : string) : bool :=
  match name with
  | EmptyString => false
  | String c name' =>
      (negb (byte c =? 10) && has_prefix "meta" name') || match_dot_meta name'
  end.

Fixpoint until_hash (s : string) : string :=
  match s with
  | EmptyString => ""
  | String c s' => if Ascii.eqb c "#" then "" else String c (until_hash s')
  end.

(** [strings.Split(file, "#")[1]] for a name that holds a [#]. *)
Fixpoint second_part (s : string) : string :=
  match s with
  | EmptyString => ""
  | String c s' => if Ascii.eqb c "#" then until_hash s' else second_part s'
  end.

(** [rev, _ := strconv.Atoi(s)]: the number when [s] is an optional sign
    and digits, and 0 when it is not.  Numerals of 19 bytes or more, which
    may exceed an [int], are [Unmodelled]. *)
Definition atoi (s : string) : outcome Z :=
  if (19 <=? String.length s)%nat then Unmodelled
  else
    let (neg, body) :=
      match s with
      | String c s' =>
          if Ascii.eqb c "-" then (true, s')
          else if Ascii.eqb c "+" then (false, s')
          else (false, s)
      | EmptyString => (false, s)
      end in
    match read_digits body with
    | (Decimal.Nil, _) => Ok 0%Z
    | (d, EmptyString) =>
        Ok (if neg then (- Z.of_N (N.of_uint d))%Z else Z.of_N (N.of_uint d))
    | (_, String _ _) => Ok 0%Z
    end.

(** The loop of [getLastRevision] over the names that matched. *)
Fixpoint highest (files : list string) (highestRev : Z) : outcome Z :=
  match files with
  | [] => Ok highestRev
  | file :: files' =>
      rev <- atoi (second_part file) ;;
      highest files' (if (highestRev <? rev)%Z then rev else highestRev)
  end.

(** [func getLastRevision(s *flatFileStore, key string) int]. *)
Definition getLastRevision (s : flatFileStore) (key : string) : outcome Z :=
  if regexp_ok key then
    h <- highest (filter (match_rev key) (map fst (tiddlerHistory s))) 0%Z ;;
    Ok (h + 1)%Z
  else Unmodelled.

(** [func (s *flatFileStore) Get]. *)
Definition Get (s : flatFileStore) (key : string) : outcome Tiddler :=
  if path_ok key then
    match assoc_get (tiddlers s) (key ++ ".tid") with
    | None => Err ErrNotFound
    | Some text =>
        match assoc_get (tiddlers s) (key ++ ".meta") with
        | None => Err (ErrNotExist (key ++ ".meta"))
        | Some meta =>
            Ok {| Key := ""; Meta := meta; Text := text; WithText := true |}
        end
    end
  else Unmodelled.

Fixpoint has_dot (s : string) : bool :=
  match s with
  | EmptyString => false
  | String c s' => Ascii.eqb c "." || has_dot s'
  end.

(** [file[0:len(file)-len(filepath.Ext(file))]]. *)
Fixpoint strip_ext (file : string) : string :=
  match file with
  | EmptyString => ""
  | String c s' =>
      if has_dot s' then String c (strip_ext s')
      else if Ascii.eqb c "." then "" else file
  end.

(** [func (s *flatFileStore) All].  The meta is read from
    [filepath.Join(s.tiddlersPath, file)]; the text is read from
    [tiddlerPath + ".tid"], a path that is not joined to [s.tiddlersPath]
    and so names a file of the working directory.  The error of that
    [ReadFile] is dropped: a missing file gives the empty text. *)
Definition All (s : flatFileStore) : outcome (list Tiddler) :=
  Ok (map (fun f => listed (snd f)
                      (Bolt.string_of (assoc_get (cwd s) (strip_ext (fst f) ++ ".tid"))))
        (filter (fun f => match_dot_meta (fst f)) (tiddlers s))).

(** [func (s *flatFileStore) Put]: the three [WriteFile]s. *)
Definition Put (s : flatFileStore) (t : Tiddler) : outcome Z * flatFileStore :=
  commit s (
    js <- Unmarshal (Meta t) ;;
    if path_ok (Key t) then
      rev <- getLastRevision s (Key t) ;;
      let data := Marshal js in
      let d1 := assoc_put (tiddlers s) (Key t ++ ".tid") (Text t) in
      let d2 := assoc_put d1 (Key t ++ ".meta") (Meta t) in
      let h := assoc_put (tiddlerHistory s) (Key t ++ "#" ++ itoa rev) data in
      Ok (rev, {| tiddlers := d2; tiddlerHistory := h; cwd := cwd s |})
    else Unmodelled).

(** [func (s *flatFileStore) Delete]: the two [os.Remove]s; the second one
    runs only when the first one succeeded. *)
Definition Delete (s : flatFileStore) (key : string)
  : outcome unit * flatFileStore :=
  if path_ok key then
    match assoc_get (tiddlers s) (key ++ ".tid") with
    | None => (Err (ErrNotExist (key ++ ".tid")), s)
    | Some _ =>
        let d1 := assoc_remove (tiddlers s) (key ++ ".tid") in
        let s1 := {| tiddlers := d1; tiddlerHistory := tiddlerHistory s;
                     cwd := cwd s |} in
        match assoc_get d1 (key ++ ".meta") with
        | None => (Err (ErrNotExist (key ++ ".meta")), s1)
        | Some _ =>
            (Ok tt,
             {| tiddlers := assoc_remove d1 (key ++ ".meta");
                tiddlerHistory := tiddlerHistory s; cwd := cwd s |})
        end
    end
  else (Unmodelled, s).

End FlatFile.

(** ** The store contract *)

Module Contract.
Import Json Store.

(** [type TiddlerStore interface], with the state of the store made
    explicit. *)
Class TiddlerStore (S : Type) : Type := {
  Get : S -> string -> outcome Tiddler;
  All : S -> outcome (list Tiddler);
  Put : S -> Tiddler -> outcome Z * S;
  Delete : S -> string -> outcome unit * S
}.

#[global] Instance bolt_store : TiddlerStore Bolt.boltStore :=
  {| Get := Bolt.Get; All := Bolt.All; Put := Bolt.Put; Delete := Bolt.Delete |}.

#[global] Instance sqlite_store : TiddlerStore Sqlite.sqliteStore :=
  {| Get := Sqlite.Get; All := Sqlite.All; Put := Sqlite.Put;
     Delete := Sqlite.Delete |}.

#[global] Instance flat_file_store : TiddlerStore FlatFile.flatFileStore :=
  {| Get := FlatFile.Get; All := FlatFile.All; Put := FlatFile.Put;
     Delete := FlatFile.Delete |}.

(** The results of successive [Put]s. *)
Fixpoint puts {S : Type} `{TiddlerStore S} (s : S) (ts : list Tiddler)
  : list (outcome Z) :=
  match ts with
  | [] => []
  | t :: ts' => let (r, s') := Put s t in r :: puts s' ts'
  end.

(** The revisions 1, 2, ..., n as results. *)
Fixpoint revisions_from (first : Z) (n : nat) : list (outcome Z) :=
  match n with
  | O => []
  | S n' => Ok first :: revisions_from (first + 1)%Z n'
  end.

(** The member [k] of a JSON document that is an object. *)
Definition field (doc k : string) : option json :=
  match Unmarshal doc with
  | Ok (Some m) => assoc_get m k
  | _ => None
  end.

(** [data] is the text of a JSON object. *)
Definition is_object (data : string) : Prop :=
  exists m, Unmarshal data = Ok (Some m).


(** "The operation appended exactly one new history entry, under [k]":
    [k] was free, it now holds an entry, and every other key holds what it
    held. *)
Definition appends_entry (h h' : list (string * string)) (k : string) : Prop :=
  assoc_get h k = None /\ assoc_get h' k <> None /\
  forall k', k' <> k -> assoc_get h' k' = assoc_get h k'.

(** The key of the history entry of a title at a revision:
    [fmt.Sprintf("%s#%d", key, rev)]. *)
Definition history_key (key : string) (rev : Z) : string :=
  key ++ "#" ++ itoa rev.

(** A live record in the BoltDB backend: a meta entry that is not empty
    (the test of [All]). *)
Definition bolt_live (s : Bolt.boltStore) (key : string) : bool :=
  match assoc_get (Bolt.tiddler s) (key ++ "|1") with
  | Some meta => negb (String.length meta =? 0)%nat
  | None => false
  end.

(** A live record in the flat-file backend: the [.tid] file exists (the
    test of [Get]). *)
Definition flat_live (s : FlatFile.flatFileStore) (key : string) : bool :=
  match assoc_get (FlatFile.tiddlers s) (key ++ ".tid") with
  | Some _ => true
  | None => false
  end.

(** The rule of [All] for one listed tiddler: fat exactly when its meta
    holds the macro tag, and without text when skinny. *)
Definition flagged (t : Tiddler) : Prop :=
  WithText t = contains (Meta t) macro_tag /\
  (WithText t = false -> Text t = "").

(** No key of the map other than [revision] itself matches the field
    [Revision] of the struct that [getLastRevision] decodes. *)
Definition no_alias (m : list (string * json)) : bool :=
  forallb (fun kv => negb (fold_eq "Revision" (fst kv))
                     || String.eqb (fst kv) "revision") m.

(** The state of a key of the BoltDB store after its [i]-th [Put] in a
    row: nothing yet when [i] is 0, and otherwise a meta entry that is a
    canonical map without alias, with [i] as its revision. *)
Definition at_revision (s : Bolt.boltStore) (key : string) (i : Z) : Prop :=
  (i = 0%Z /\ assoc_get (Bolt.tiddler s) (key ++ "|1") = None) \/
  exists m,
    canonical (JObj m) = true /\ no_alias m = true /\
    assoc_get (Bolt.tiddler s) (key ++ "|1")
    = Some (Marshal (Some (assoc_put m "revision" (JNum i)))).

(** A tiddler of a given key whose meta is a JSON object without alias. *)
Definition plain (key : string) (t : Tiddler) : Prop :=
  Key t = key /\
  exists m, Unmarshal (Meta t) = Ok (Some m) /\ no_alias m = true.

End Contract.


(** ** The HTTP facade: package api *)

Module Api.
Import Json Store Contract.

(** What a handler reads of an [*http.Request] and what it leaves in an
    [http.ResponseWriter]. *)
Record request : Type := {
  Method : string;
  Path : string;         (* r.URL.Path *)
  Body : string
}.

Record response : Type := {
  Code : Z;
  Header : list (string * string);
  Payload : string
}.

Definition line_feed : string := String (ascii_of_N 10) "".

(** [http.Error(w, msg, code)]. *)
Definition http_Error (msg : string) (code : Z) : response :=
  {| Code := code;
     Header := [("Content-Type", "text/plain; charset=utf-8");
                ("X-Content-Type-Options", "nosniff")];
     Payload := msg ++ line_feed |}.

(** [internalError(w, err)]: the error is logged and not sent. *)
Definition internalError (e : error) : response :=
  http_Error "internal server error" 500.

(** [strings.TrimPrefix]. *)
Definition TrimPrefix (s prefix : string) : string :=
  if has_prefix prefix s then Json.drop (String.length prefix) s else s.

(** [json.NewDecoder(r.Body).Decode(&js)] for a nil [js] of type
    [map[string]interface{}]: the first JSON value of the body is decoded
    and what follows it is not read.  An error, when there is one, stands
    for any of the errors of the decoder ([io.EOF] for an empty body among
    them): the handler only tests [err != nil]. *)
Definition Decode (body : string) : outcome gomap :=
  '(v, _) <- parse_value (2 * String.length body + 2) (skip_ws body) ;;
  match v with
  | JObj m => Ok (Some (to_map m))
  | JNull => Ok None
  | _ => Err UnmarshalTypeError
  end.

(** [text, _ := js["text"].(string)]. *)
Definition text_of (m : list (string * json)) : string :=
  match assoc_get m "text" with
  | Some (JStr s) => s
  | _ => ""
  end.

Definition unreserved (c : ascii) : bool :=
  in_range 97 122 c || in_range 65 90 c || in_range 48 57 c
  || Ascii.eqb c "-" || Ascii.eqb c "_" || Ascii.eqb c "." || Ascii.eqb c "~".

Definition upper_hex (n : N) : ascii :=
  if n <? 10 then ascii_of_N (48 + n) else ascii_of_N (55 + n).

(** [url.QueryEscape]. *)
Fixpoint QueryEscape (s : string) : string :=
  match s with
  | EmptyString => ""
  | String c s' =>
      (if unreserved c then String c ""
       else if Ascii.eqb c " " then "+"
       else String "%" (String (upper_hex (byte c / 16))
                          (String (upper_hex (byte c mod 16)) "")))
      ++ QueryEscape s'
  end.

(** The body of [list]: the projections of the tiddlers between brackets
    and commas.  A tiddler with an empty meta is left out, and so is one
    whose projection returns an error. *)
Fixpoint list_items (sep : string) (tiddlers : list Tiddler) : outcome string :=
  match tiddlers with
  | [] => Ok ""
  | t :: rest =>
      if (String.length (Meta t) =? 0)%nat then list_items sep rest
      else
        match MarshalJSON t with
        | Ok json => tail <- list_items "," rest ;; Ok (sep ++ json ++ tail)
        | Err _ => list_items sep rest
        | Panic => Panic
        | Unmodelled => Unmodelled
        end
  end.

Section Handlers.
Context {S : Type} `{TiddlerStore S}.

(** The hex digits of [md5.Sum(meta)], as [%032x] writes them. *)
Variable md5_hex : string -> string.

(** [func list]. *)
Definition list (s : S) (r : request) : outcome response :=
  match All s with
  | Ok tiddlers =>
      items <- list_items "" tiddlers ;;
      Ok {| Code := 200;
            Header := [("Content-Type", "application/json")];
            Payload := "[" ++ items ++ "]" |}
  | Err e => Ok (internalError e)
  | Panic => Panic
  | Unmodelled => Unmodelled
  end.

(** [func getTiddler]. *)
Definition getTiddler (s : S) (r : request) : outcome response :=
  let key := TrimPrefix (Path r) "/recipes/all/tiddlers/" in
  match Get s key with
  | Ok t =>
      match MarshalJSON t with
      | Ok data =>
          Ok {| Code := 200;
                Header := [("Content-Type", "application/json")];
                Payload := data |}
      | Err e => Ok (internalError e)
      | Panic => Panic
      | Unmodelled => Unmodelled
      end
  | Err e => Ok (internalError e)
  | Panic => Panic
  | Unmodelled => Unmodelled
  end.

(** The tiddler that [putTiddler] hands to the store: the body with its
    [bag] set, its [text] taken out and the rest marshalled. *)
Definition tiddler_of_body (key : string) (js : gomap) : outcome Tiddler :=
  js1 <- map_assign js "bag" (JStr "bag") ;;
  match js1 with
  | Some m =>
      Ok {| Key := key;
            Meta := Marshal (Some (assoc_remove m "text"));
            Text := text_of m;
            WithText := false |}
  | None => Panic
  end.

Definition etag (key : string) (rev : Z) (meta : string) : string :=
  String dquote
    ("bag/" ++ QueryEscape key ++ "/" ++ itoa rev ++ ":" ++ md5_hex meta
     ++ String dquote "").

(** [func putTiddler]. *)
Definition putTiddler (s : S) (r : request) : outcome response * S :=
  let key := TrimPrefix (Path r) "/recipes/all/tiddlers/" in
  match Decode (Body r) with
  | Err _ => (Ok (http_Error "bad request" 400), s)
  | Panic => (Panic, s)
  | Unmodelled => (Unmodelled, s)
  | Ok js =>
      match tiddler_of_body key js with
      | Ok t =>
          match Put s t with
          | (Ok rev, s') =>
              (Ok {| Code := 204;
                     Header := [("Etag", etag key rev (Meta t))];
                     Payload := "" |}, s')
          | (Err e, s') => (Ok (internalError e), s')
          | (Panic, s') => (Panic, s')
          | (Unmodelled, s') => (Unmodelled, s')
          end
      | Err e => (Ok (internalError e), s)
      | Panic => (Panic, s)
      | Unmodelled => (Unmodelled, s)
      end
  end.

(** [func tiddler]. *)
Definition tiddler (s : S) (r : request) : outcome response * S :=
  if String.eqb (Method r) "GET" then (getTiddler s r, s)
  else if String.eqb (Method r) "PUT" then putTiddler s r
  else (Ok (http_Error "method not allowed" 405), s).

(** [func remove]. *)
Definition remove (s : S) (r : request) : outcome response * S :=
  if String.eqb (Method r) "DELETE" then
    let key := TrimPrefix (Path r) "/bags/bag/tiddlers/" in
    match Delete s key with
    | (Ok _, s') => (Ok {| Code := 204; Header := []; Payload := "" |}, s')
    | (Err e, s') => (Ok (internalError e), s')
    | (Panic, s') => (Panic, s')
    | (Unmodelled, s') => (Unmodelled, s')
    end
  else (Ok (http_Error "method not allowed" 405), s).

End Handlers.

End Api.

(** ** Shapes of keys, used to state what the backends do with them *)

Module Shapes.
Import Json Store Contract.

(** A key that, as a [LIKE] pattern, holds no wildcard. *)
Definition wildcard_free (key : string) : bool :=
  FlatFile.no_byte (fun c => Ascii.eqb c "%" || Ascii.eqb c "_") key.

(** A text in the domain of the model of [LIKE]: well-formed UTF-8 without
    a zero byte. *)
Definition sql_text (s : string) : bool :=
  utf8_valid s && FlatFile.no_byte (fun c => byte c =? 0) s.

(** A key without [#], the separator of the names of the history files. *)
Definition hash_free (key : string) : bool :=
  FlatFile.no_byte (fun c => Ascii.eqb c "#") key.

(** The history directory of the flat-file store after the [i]-th [Put]
    of a key in a row on a store without history: its files are those of
    the key at the revisions 1 to [i]. *)
Definition flat_counted (s : FlatFile.flatFileStore) (k : string) (i : Z)
  : Prop :=
  (forall name, In name (map fst (FlatFile.tiddlerHistory s)) ->
     exists j, (1 <= j <= i)%Z /\ name = k ++ "#" ++ itoa j) /\
  (i = 0%Z \/ In (k ++ "#" ++ itoa i) (map fst (FlatFile.tiddlerHistory s))).

(** A run of JSON white space. *)
Definition blank (ws : string) : bool :=
  FlatFile.no_byte (fun c => negb (is_space c)) ws.

(** A text without a double quote. *)
Definition quote_free (s : string) : bool :=
  FlatFile.no_byte (fun c => Ascii.eqb c dquote) s.

(** A key without [|], the separator of the keys of the BoltDB bucket. *)
Definition bar_free (key : string) : bool :=
  FlatFile.no_byte (fun c => Ascii.eqb c "|") key.

(** A write to a store, and the state after a sequence of writes, each
    one leaving the state that [Put] or [Delete] leaves, error or not. *)
Inductive op : Type :=
  | OpPut (t : Tiddler)
  | OpDelete (key : string).

Definition key_of (o : op) : string :=
  match o with
  | OpPut t => Key t
  | OpDelete key => key
  end.

Fixpoint run {S : Type} `{TiddlerStore S} (s : S) (ops : list op) : S :=
  match ops with
  | [] => s
  | OpPut t :: ops' => run (snd (Put s t)) ops'
  | OpDelete key :: ops' => run (snd (Delete s key)) ops'
  end.

(** The entries of a BoltDB bucket that holds, for each of the titles of
    [ps], a meta entry followed by a text entry. *)
Definition entries_of (ps : list (string * string * string)) : Bolt.bucket :=
  flat_map (fun p => [(fst (fst p) ++ "|1", snd (fst p));
                      (fst (fst p) ++ "|2", snd p)]) ps.

(** The two writes of [Put] and of [Delete], on the titles. *)
Fixpoint put_pair (ps : list (string * string * string)) (k m x : string)
  : list (string * string * string) :=
  match ps with
  | [] => [(k, m, x)]
  | (k', m', x') :: ps' =>
      match String.compare (k ++ "|1") (k' ++ "|1") with
      | Eq => (k, m, x) :: ps'
      | Lt => (k, m, x) :: (k', m', x') :: ps'
      | Gt => (k', m', x') :: put_pair ps' k m x
      end
  end.

(** The bucket is a sequence of such pairs, in the order of the cursor,
    for titles without [|]. *)
Definition paired (b : Bolt.bucket) : Prop :=
  exists ps,
    b = entries_of ps /\
    Forall (fun p => bar_free (fst (fst p)) = true) ps /\
    sorted_keys b = true.


End Shapes.
(** * Properties *)

(** ** Sorted association lists *)

Section AssocFacts.
Context {V : Type}.
Implicit Types (m : list (string * V)) (k : string) (v : V).

Lemma compare_refl k : String.compare k k = Eq.
Proof.
  pose proof (String.compare_antisym k k) as H.
  destruct (String.compare k k); simpl in H; congruence.
Qed.

Lemma compare_neq k k' : String.compare k k' <> Eq -> String.eqb k k' = false.
Proof.
  intros H. apply String.eqb_neq. intros ->. apply H, compare_refl.
Qed.

Lemma assoc_put_cons m k v k' v' :
  assoc_put ((k', v') :: m) k v
  = match String.compare k k' with
    | Eq => (k, v) :: m
    | Lt => (k, v) :: (k', v') :: m
    | Gt => (k', v') :: assoc_put m k v
    end.
Proof. reflexivity. Qed.

Lemma assoc_get_put_same m k v : assoc_get (assoc_put m k v) k = Some v.
Proof.
  induction m as [|[k' v'] m IH]; simpl.
  - now rewrite String.eqb_refl.
  - destruct (String.compare k k') eqn:E; simpl.
    + now rewrite String.eqb_refl.
    + now rewrite String.eqb_refl.
    + rewrite compare_neq by congruence. exact IH.
Qed.

Lemma assoc_get_put_other m k v k' :
  k' <> k -> assoc_get (assoc_put m k v) k' = assoc_get m k'.
Proof.
  intros Hne. apply String.eqb_neq in Hne.
  induction m as [|[k0 v0] m IH]; simpl.
  - now rewrite Hne.
  - destruct (String.compare k k0) eqn:E; simpl.
    + apply String.compare_eq_iff in E. subst k0. now rewrite Hne.
    + now rewrite Hne.
    + destruct (String.eqb k' k0); [reflexivity | exact IH].
Qed.

Lemma assoc_get_remove_same m k : assoc_get (assoc_remove m k) k = None.
Proof.
  induction m as [|[k' v'] m IH]; simpl; [reflexivity|].
  destruct (String.eqb k k') eqn:E; simpl; [exact IH|].
  now rewrite E.
Qed.

Lemma assoc_get_remove_other m k k' :
  k' <> k -> assoc_get (assoc_remove m k) k' = assoc_get m k'.
Proof.
  intros Hne.
  induction m as [|[k0 v0] m IH]; simpl; [reflexivity|].
  destruct (String.eqb k k0) eqn:E; simpl.
  - apply String.eqb_eq in E. subst k0.
    apply String.eqb_neq in Hne. now rewrite Hne.
  - destruct (String.eqb k' k0); [reflexivity | exact IH].
Qed.

Lemma str_lt_compare (a b : string) :
  str_lt a b = true <-> String.compare a b = Lt.
Proof.
  unfold str_lt, String.ltb.
  destruct (String.compare a b); split; congruence.
Qed.

Lemma str_lt_trans (a b c : string) :
  str_lt a b = true -> str_lt b c = true -> str_lt a c = true.
Proof.
  rewrite !str_lt_compare. intros Hab Hbc.
  apply OrderedTypeEx.String_as_OT.cmp_lt.
  apply OrderedTypeEx.String_as_OT.cmp_lt in Hab, Hbc.
  exact (OrderedTypeEx.String_as_OT.lt_trans _ _ _ Hab Hbc).
Qed.

Lemma compare_gt_lt (a b : string) :
  String.compare a b = Gt -> str_lt b a = true.
Proof.
  intros H. apply str_lt_compare.
  rewrite String.compare_antisym, H. reflexivity.
Qed.

Lemma str_lt_compare_gt (a b : string) :
  str_lt a b = true -> String.compare b a = Gt.
Proof.
  intros H. apply str_lt_compare in H.
  rewrite String.compare_antisym, H. reflexivity.
Qed.

(** The first key of a sorted list is below all the others. *)
Lemma sorted_keys_head m k v :
  sorted_keys ((k, v) :: m) = true ->
  Forall (fun kv => str_lt k (fst kv) = true) m.
Proof.
  revert k v. induction m as [|[k1 v1] m IH]; intros k v H; constructor.
  - simpl in H. now apply andb_prop in H as [H _].
  - simpl in H. apply andb_prop in H as [H1 H2].
    specialize (IH k1 v1 H2).
    eapply Forall_impl; [|exact IH]. simpl. intros kv Hkv.
    exact (str_lt_trans _ _ _ H1 Hkv).
Qed.

Lemma sorted_keys_tail m k v :
  sorted_keys ((k, v) :: m) = true -> sorted_keys m = true.
Proof.
  simpl. destruct m as [|[k1 v1] m]; [reflexivity|].
  intros H. now apply andb_prop in H as [_ H].
Qed.

Lemma sorted_keys_cons m k v :
  Forall (fun kv => str_lt k (fst kv) = true) m -> sorted_keys m = true ->
  sorted_keys ((k, v) :: m) = true.
Proof.
  intros Hall Hs. simpl. destruct m as [|[k1 v1] m]; [reflexivity|].
  apply Forall_inv in Hall. simpl in Hall. now rewrite Hall.
Qed.

Lemma assoc_put_Forall (P : string * V -> Prop) m k v :
  Forall P m -> P (k, v) -> Forall P (assoc_put m k v).
Proof.
  intros Hm Hkv. induction Hm as [|[k1 v1] m H1 Hm IH]; simpl.
  - auto.
  - destruct (String.compare k k1); auto.
Qed.

(** [assoc_put] keeps a sorted list sorted. *)
Lemma assoc_put_sorted m k v :
  sorted_keys m = true -> sorted_keys (assoc_put m k v) = true.
Proof.
  induction m as [|[k1 v1] m IH]; intros Hs; [reflexivity|].
  pose proof (sorted_keys_head _ _ _ Hs) as Hall.
  pose proof (sorted_keys_tail _ _ _ Hs) as Hs'.
  simpl. destruct (String.compare k k1) eqn:E.
  - apply String.compare_eq_iff in E. subst k1.
    now apply sorted_keys_cons.
  - apply str_lt_compare in E. apply sorted_keys_cons; [|exact Hs].
    constructor; [exact E|].
    eapply Forall_impl; [|exact Hall]. simpl. intros kv Hkv.
    exact (str_lt_trans _ _ _ E Hkv).
  - apply compare_gt_lt in E. apply sorted_keys_cons; [|now apply IH].
    now apply assoc_put_Forall.
Qed.

(** A key above all the keys of a sorted list is put at its end. *)
Lemma assoc_put_last m k v :
  Forall (fun kv => str_lt (fst kv) k = true) m ->
  assoc_put m k v = (m ++ [(k, v)])%list.
Proof.
  induction 1 as [|[k1 v1] m H1 Hm IH]; [reflexivity|].
  simpl in H1 |- *. now rewrite (str_lt_compare_gt _ _ H1), IH.
Qed.

End AssocFacts.

Lemma append_inj_l (k a b : string) : k ++ a = k ++ b -> a = b.
Proof.
  induction k as [|c k IH]; simpl; intros H; [exact H|].
  injection H as H. now apply IH.
Qed.

Lemma append_assoc (a b c : string) : (a ++ b) ++ c = a ++ b ++ c.
Proof.
  induction a as [|x a IH]; simpl; [reflexivity | now rewrite IH].
Qed.


(** ** encoding/json: what is printed parses back *)

Module JsonFacts.
Import Json.

(** *** Bytes *)

Lemma byte_ascii_of_N (n : N) : n < 256 -> byte (ascii_of_N n) = n.
Proof. apply N_ascii_embedding. Qed.

Lemma ascii_of_byte (c : ascii) : ascii_of_N (byte c) = c.
Proof. apply ascii_N_embedding. Qed.

Lemma byte_bounded (c : ascii) : byte c < 256.
Proof. apply N_ascii_bounded. Qed.

Lemma byte_inj (c d : ascii) : byte c = byte d -> c = d.
Proof.
  intros H. rewrite <- (ascii_of_byte c), <- (ascii_of_byte d). now rewrite H.
Qed.

(** A byte of 0x80 or more is none of the bytes the parser of a string
    literal looks for. *)
Lemma high_byte (c : ascii) :
  (byte c <? 128) = false ->
  Ascii.eqb c dquote = false /\ Ascii.eqb c "\" = false /\ (byte c <? 32) = false.
Proof.
  intros H. repeat split.
  - apply Ascii.eqb_neq. intros ->. discriminate H.
  - apply Ascii.eqb_neq. intros ->. discriminate H.
  - apply N.ltb_ge. apply N.ltb_ge in H. lia.
Qed.

(** *** String literals *)

(** What the encoder writes for a byte below 0x80 decodes to that byte. *)
Lemma unquote_enc_ascii (c : ascii) (x : string) :
  (byte c <? 128) = true ->
  unquote (enc_ascii c ++ x) = prepend (String c "") (unquote x).
Proof.
  destruct c as [b0 b1 b2 b3 b4 b5 b6 b7]. intros H.
  destruct b7; [destruct b0, b1, b2, b3, b4, b5, b6; discriminate H|].
  destruct b0, b1, b2, b3, b4, b5, b6; reflexivity.
Qed.

(** The cases of [utf8_valid]: a well-formed string is empty or starts
    with one well-formed sequence of 1, 2, 3 or 4 bytes. *)
Lemma utf8_valid_cases (P : string -> Prop) :
  P "" ->
  (forall c s, (byte c <? 128) = true -> utf8_valid s = true -> P s ->
     P (String c s)) ->
  (forall c1 c2 s, (byte c1 <? 128) = false -> well_formed2 c1 c2 = true ->
     utf8_valid s = true -> P s -> P (String c1 (String c2 s))) ->
  (forall c1 c2 c3 s, (byte c1 <? 128) = false -> well_formed2 c1 c2 = false ->
     well_formed3 c1 c2 c3 = true -> utf8_valid s = true -> P s ->
     P (String c1 (String c2 (String c3 s)))) ->
  (forall c1 c2 c3 c4 s, (byte c1 <? 128) = false ->
     well_formed2 c1 c2 = false -> well_formed3 c1 c2 c3 = false ->
     well_formed4 c1 c2 c3 c4 = true -> utf8_valid s = true -> P s ->
     P (String c1 (String c2 (String c3 (String c4 s))))) ->
  forall s, utf8_valid s = true -> P s.
Proof.
  intros H0 H1 H2 H3 H4 s.
  remember (String.length s) as n eqn:Hn. revert s Hn.
  induction n as [n IH] using lt_wf_ind. intros s -> Hv.
  destruct s as [|c1 s1]; [exact H0|]. simpl in Hv.
  destruct (byte c1 <? 128) eqn:E1.
  { apply H1; auto. apply (IH (String.length s1)); simpl; auto. }
  destruct s1 as [|c2 s2]; [discriminate|].
  destruct (well_formed2 c1 c2) eqn:E2.
  { apply H2; auto. apply (IH (String.length s2)); simpl; auto. }
  destruct s2 as [|c3 s3]; [discriminate|].
  destruct (well_formed3 c1 c2 c3) eqn:E3.
  { apply H3; auto. apply (IH (String.length s3)); simpl; auto. }
  destruct s3 as [|c4 s4]; [discriminate|].
  destruct (well_formed4 c1 c2 c3 c4) eqn:E4; [|discriminate].
  apply H4; auto. apply (IH (String.length s4)); simpl; auto.
Qed.

Lemma prepend_ok (p d rest : string) :
  prepend p (Ok (d, rest)) = Ok (p ++ d, rest).
Proof. reflexivity. Qed.

(** The escape of U+2028 and of U+2029 decodes to the three bytes. *)
Lemma unquote_enc_rune3 (c1 c2 c3 : ascii) (x : string) :
  (byte c1 <? 128) = false -> well_formed2 c1 c2 = false ->
  well_formed3 c1 c2 c3 = true ->
  unquote (enc_rune3 c1 c2 c3 ++ x)
  = prepend (String c1 (String c2 (String c3 ""))) (unquote x).
Proof.
  intros E1 E2 E3. destruct (high_byte c1 E1) as (Hq & Hb & H32).
  unfold enc_rune3. destruct (line_sep c1 c2 c3) eqn:L.
  - unfold line_sep in L.
    apply andb_prop in L as [L L3]. apply andb_prop in L as [L1 L2].
    apply N.eqb_eq in L1, L2.
    assert (c1 = ascii_of_N 226) as -> by (apply byte_inj; now rewrite L1).
    assert (c2 = ascii_of_N 128) as -> by (apply byte_inj; now rewrite L2).
    apply orb_prop in L3 as [L3|L3]; apply N.eqb_eq in L3.
    + assert (c3 = ascii_of_N 168) as -> by (apply byte_inj; now rewrite L3).
      reflexivity.
    + assert (c3 = ascii_of_N 169) as -> by (apply byte_inj; now rewrite L3).
      reflexivity.
  - simpl. rewrite Hq, Hb, H32, E1, E2, E3. reflexivity.
Qed.

(** A string literal parses back to the string it encodes, when that
    string is well-formed UTF-8. *)
Lemma unquote_enc_str (s : string) :
  utf8_valid s = true ->
  forall rest, unquote (enc_str s ++ String dquote rest) = Ok (s, rest).
Proof.
  revert s.
  apply (utf8_valid_cases
           (fun s => forall rest,
              unquote (enc_str s ++ String dquote rest) = Ok (s, rest))).
  - reflexivity.
  - intros c s E1 _ IH rest. simpl enc_str. rewrite E1.
    rewrite append_assoc, unquote_enc_ascii, IH by exact E1. reflexivity.
  - intros c1 c2 s E1 E2 _ IH rest.
    destruct (high_byte c1 E1) as (Hq & Hb & H32).
    simpl enc_str. rewrite E1, E2.
    simpl. rewrite Hq, Hb, H32, E1, E2, IH. reflexivity.
  - intros c1 c2 c3 s E1 E2 E3 _ IH rest. simpl enc_str.
    rewrite E1, E2, E3, append_assoc, unquote_enc_rune3, IH by assumption.
    reflexivity.
  - intros c1 c2 c3 c4 s E1 E2 E3 E4 _ IH rest.
    destruct (high_byte c1 E1) as (Hq & Hb & H32).
    simpl enc_str. rewrite E1, E2, E3, E4.
    simpl. rewrite Hq, Hb, H32, E1, E2, E3, E4, IH. reflexivity.
Qed.

(** *** What the parser decodes is well-formed UTF-8 *)

Lemma utf8_valid_app (p d : string) :
  utf8_valid p = true -> utf8_valid (p ++ d) = utf8_valid d.
Proof.
  revert p.
  apply (utf8_valid_cases (fun p => utf8_valid (p ++ d) = utf8_valid d)).
  - reflexivity.
  - intros c s E1 _ IH. simpl. now rewrite E1.
  - intros c1 c2 s E1 E2 _ IH. simpl. now rewrite E1, E2.
  - intros c1 c2 c3 s E1 E2 E3 _ IH. simpl. now rewrite E1, E2, E3.
  - intros c1 c2 c3 c4 s E1 E2 E3 E4 _ IH. simpl. now rewrite E1, E2, E3, E4.
Qed.

Lemma prepend_valid (p : string) (u : outcome (string * string)) :
  utf8_valid p = true -> decoded_valid u -> decoded_valid (prepend p u).
Proof.
  intros Hp. destruct u as [[d rest]| | |]; simpl; auto.
  intros Hd. now rewrite utf8_valid_app.
Qed.

Lemma simple_escape_ascii (e c : ascii) :
  simple_escape e = Some c -> utf8_valid (String c "") = true.
Proof.
  unfold simple_escape.
  repeat match goal with
         | |- context [if ?b then _ else _] => destruct b
         end; intros H; try discriminate; injection H as <-; reflexivity.
Qed.

Ltac euclid := zify; Z.to_euclidean_division_equations; lia.

Ltac range_goal :=
  unfold is_cont, in_range;
  rewrite ?byte_ascii_of_N by euclid;
  repeat (apply andb_true_intro; split);
  try (apply N.leb_le; euclid).

Lemma valid1 (c : ascii) :
  (byte c <? 128) = true -> utf8_valid (String c "") = true.
Proof. intros H. simpl. now rewrite H. Qed.

Lemma well_formed2_high (c1 c2 : ascii) :
  224 <= byte c1 -> well_formed2 c1 c2 = false.
Proof.
  intros H. unfold well_formed2, in_range.
  apply andb_false_iff. left. apply andb_false_iff. right.
  apply N.leb_gt. lia.
Qed.

Lemma well_formed3_high (c1 c2 c3 : ascii) :
  240 <= byte c1 -> well_formed3 c1 c2 c3 = false.
Proof.
  intros H. unfold well_formed3, in_range.
  apply andb_false_iff. left. apply andb_false_iff. left.
  apply andb_false_iff. right. apply N.leb_gt. lia.
Qed.

Lemma well_formed2_first (c1 c2 : ascii) :
  well_formed2 c1 c2 = true -> 194 <= byte c1.
Proof.
  unfold well_formed2, in_range. intros H.
  apply andb_prop in H as [H _]. apply andb_prop in H as [H _].
  now apply N.leb_le in H.
Qed.

Lemma well_formed3_first (c1 c2 c3 : ascii) :
  well_formed3 c1 c2 c3 = true -> 224 <= byte c1.
Proof.
  unfold well_formed3, in_range. intros H.
  apply andb_prop in H as [H _]. apply andb_prop in H as [H _].
  apply andb_prop in H as [H _]. now apply N.leb_le in H.
Qed.

Lemma well_formed4_first (c1 c2 c3 c4 : ascii) :
  well_formed4 c1 c2 c3 c4 = true -> 240 <= byte c1.
Proof.
  unfold well_formed4, in_range. intros H.
  apply andb_prop in H as [H _]. apply andb_prop in H as [H _].
  apply andb_prop in H as [H _]. apply andb_prop in H as [H _].
  now apply N.leb_le in H.
Qed.

Lemma not_ascii (c : ascii) : 128 <= byte c -> (byte c <? 128) = false.
Proof. intros H. now apply N.ltb_ge. Qed.

Lemma valid2 (c1 c2 : ascii) :
  well_formed2 c1 c2 = true -> utf8_valid (String c1 (String c2 "")) = true.
Proof.
  intros H. pose proof (well_formed2_first _ _ H) as F.
  simpl. rewrite H, not_ascii by lia. reflexivity.
Qed.

Lemma valid3 (c1 c2 c3 : ascii) :
  well_formed3 c1 c2 c3 = true ->
  utf8_valid (String c1 (String c2 (String c3 ""))) = true.
Proof.
  intros H. pose proof (well_formed3_first _ _ _ H) as F.
  simpl. rewrite H, not_ascii, well_formed2_high by lia. reflexivity.
Qed.

Lemma valid4 (c1 c2 c3 c4 : ascii) :
  well_formed4 c1 c2 c3 c4 = true ->
  utf8_valid (String c1 (String c2 (String c3 (String c4 "")))) = true.
Proof.
  intros H. pose proof (well_formed4_first _ _ _ _ H) as F.
  simpl.
  rewrite H, not_ascii, well_formed2_high, well_formed3_high by lia.
  reflexivity.
Qed.

(** [utf8.EncodeRune] writes well-formed UTF-8. *)
Lemma encode_rune_valid (r : N) : utf8_valid (encode_rune r) = true.
Proof.
  unfold encode_rune.
  destruct (r <? 128) eqn:R1.
  { apply valid1. apply N.ltb_lt in R1. rewrite byte_ascii_of_N by lia.
    now apply N.ltb_lt. }
  apply N.ltb_ge in R1.
  destruct (r <? 2048) eqn:R2.
  { apply N.ltb_lt in R2. apply valid2. unfold well_formed2. range_goal. }
  apply N.ltb_ge in R2.
  destruct ((55296 <=? r) && (r <=? 57343)) eqn:R3; [reflexivity|].
  assert (Hs : r < 55296 \/ 57343 < r).
  { apply andb_false_iff in R3 as [R3|R3]; apply N.leb_gt in R3; lia. }
  destruct (r <? 65536) eqn:R4.
  { apply N.ltb_lt in R4. apply valid3. unfold well_formed3, second_of3.
    apply andb_true_intro; split; [apply andb_true_intro; split|].
    - range_goal.
    - rewrite !byte_ascii_of_N by euclid.
      destruct (224 + r / 4096 =? 224) eqn:F1.
      { apply N.eqb_eq in F1. range_goal. }
      apply N.eqb_neq in F1.
      destruct (224 + r / 4096 =? 237) eqn:F2.
      { apply N.eqb_eq in F2. range_goal. }
      range_goal.
    - range_goal. }
  apply N.ltb_ge in R4.
  destruct (r <? 1114112) eqn:R5; [|reflexivity].
  apply N.ltb_lt in R5. apply valid4. unfold well_formed4, second_of4.
  apply andb_true_intro; split;
    [apply andb_true_intro; split; [apply andb_true_intro; split|]|].
  - range_goal.
  - rewrite !byte_ascii_of_N by euclid.
    destruct (240 + r / 262144 =? 240) eqn:F1.
    { apply N.eqb_eq in F1. range_goal. }
    apply N.eqb_neq in F1.
    destruct (240 + r / 262144 =? 244) eqn:F2.
    { apply N.eqb_eq in F2. range_goal. }
    range_goal.
  - range_goal.
  - range_goal.
Qed.

Ltac chunk :=
  first
    [ reflexivity
    | apply encode_rune_valid
    | eapply simple_escape_ascii; eassumption
    | apply valid1; assumption
    | apply valid2; assumption
    | apply valid3; assumption
    | apply valid4; assumption ].

Ltac decoded_step IH :=
  match goal with
  | |- decoded_valid (Err _) => exact I
  | |- decoded_valid (Ok (_, _)) => reflexivity
  | |- decoded_valid (prepend _ (unquote _)) =>
      apply prepend_valid; [chunk | apply IH; simpl; lia]
  | |- decoded_valid (if ?b then _ else _) => destruct b eqn:?
  | |- decoded_valid (match ?x with _ => _ end) => destruct x eqn:?
  end.

(** Whatever the text, the string that [unquote] decodes is well-formed. *)
Lemma unquote_valid (s : string) : decoded_valid (unquote s).
Proof.
  remember (String.length s) as n eqn:Hn. revert s Hn.
  induction n as [n IH] using lt_wf_ind. intros s ->.
  assert (IH' : forall s', (String.length s' < String.length s)%nat ->
                           decoded_valid (unquote s'))
    by (intros s' Hs'; now apply (IH (String.length s'))).
  clear IH.
  destruct s as [|c1 s1]; [exact I|].
  simpl unquote. repeat decoded_step IH'.
Qed.

Lemma unquote_ok_valid (s d rest : string) :
  unquote s = Ok (d, rest) -> utf8_valid d = true.
Proof.
  intros H. pose proof (unquote_valid s) as V. now rewrite H in V.
Qed.

(** *** Numbers *)

Lemma delimited_no_digit (rest : string) :
  delimited rest = true -> read_digits rest = (Decimal.Nil, rest).
Proof.
  destruct rest as [|c rest]; [reflexivity|]. simpl. intros H.
  apply orb_prop in H as [H|H]; [apply orb_prop in H as [H|H]|];
    apply Ascii.eqb_eq in H; subst c; reflexivity.
Qed.

Lemma delimited_no_fraction (rest : string) :
  delimited rest = true -> starts_fraction rest = false.
Proof.
  destruct rest as [|c rest]; [reflexivity|]. simpl. intros H.
  apply orb_prop in H as [H|H]; [apply orb_prop in H as [H|H]|];
    apply Ascii.eqb_eq in H; subst c; reflexivity.
Qed.

Lemma delimited_no_space (rest : string) :
  delimited rest = true -> skip_ws rest = rest.
Proof.
  destruct rest as [|c rest]; [reflexivity|]. simpl. intros H.
  apply orb_prop in H as [H|H]; [apply orb_prop in H as [H|H]|];
    apply Ascii.eqb_eq in H; subst c; reflexivity.
Qed.

(** The digits that were printed are the digits that are read. *)
Lemma read_print_uint (d : Decimal.uint) (rest : string) :
  delimited rest = true -> read_digits (print_uint d ++ rest) = (d, rest).
Proof.
  intros H. induction d; simpl; rewrite ?IHd; auto using delimited_no_digit.
Qed.

(** The decimal form of a positive number is not empty and does not start
    with a zero. *)
Lemma pos_uint_head (p : positive) :
  match Pos.to_uint p with
  | Decimal.Nil | Decimal.D0 _ => False
  | _ => True
  end.
Proof.
  pose proof (Unsigned.of_to (Npos p)) as Hof.
  pose proof (Unsigned.to_of (Pos.to_uint p)) as Hto.
  change (N.to_uint (N.pos p)) with (Pos.to_uint p) in Hof.
  rewrite Hof in Hto. change (N.to_uint (N.pos p)) with (Pos.to_uint p) in Hto.
  destruct (Pos.to_uint p) as [|x|x|x|x|x|x|x|x|x|x] eqn:E; auto.
  - discriminate Hto.
  - unfold Decimal.unorm in Hto. simpl Decimal.nzhead in Hto.
    destruct (Decimal.nzhead x) eqn:Z; try discriminate Hto.
    + injection Hto as ->. discriminate Hof.
    + exfalso. exact (nzhead_nonzero _ _ Z).
Qed.

Lemma of_pos_uint (p : positive) : N.of_uint (Pos.to_uint p) = Npos p.
Proof. exact (Unsigned.of_to (Npos p)). Qed.

Lemma exact_bound (z : Z) :
  exact z = true -> (max_exact <? Z.to_N (Z.abs z)) = false.
Proof.
  unfold exact, max_exact. intros H. apply Z.leb_le in H.
  apply N.ltb_ge. lia.
Qed.

(** An integer that a [float64] holds exactly parses back from its decimal
    form. *)
Lemma parse_number_itoa (z : Z) (rest : string) :
  exact z = true -> delimited rest = true ->
  parse_number (itoa z ++ rest) = Ok (JNum z, rest).
Proof.
  intros Hz Hrest. pose proof (exact_bound z Hz) as Hb.
  destruct z as [|p|p]; unfold itoa.
  - unfold parse_number. simpl.
    rewrite delimited_no_digit, delimited_no_fraction by assumption.
    reflexivity.
  - pose proof (pos_uint_head p) as Hh. pose proof (of_pos_uint p) as Hof.
    simpl in Hb.
    unfold parse_number.
    replace (match print_uint (Pos.to_uint p) ++ rest with
             | String c s' =>
                 if Ascii.eqb c "-" then (true, s')
                 else (false, print_uint (Pos.to_uint p) ++ rest)
             | EmptyString => (false, print_uint (Pos.to_uint p) ++ rest)
             end) with (false, print_uint (Pos.to_uint p) ++ rest)
      by (destruct (Pos.to_uint p); simpl; easy).
    rewrite read_print_uint, delimited_no_fraction by assumption.
    rewrite Hof, Hb.
    destruct (Pos.to_uint p); try contradiction; reflexivity.
  - pose proof (pos_uint_head p) as Hh. pose proof (of_pos_uint p) as Hof.
    simpl in Hb.
    unfold parse_number. simpl.
    rewrite read_print_uint, delimited_no_fraction by assumption.
    rewrite Hof, Hb.
    destruct (Pos.to_uint p); try contradiction; reflexivity.
Qed.

(** *** Values *)

(** Induction on a syntax tree, with the hypothesis for every element of
    an array and every member of an object. *)
Lemma json_induction (P : json -> Prop) :
  P JNull ->
  (forall b, P (JBool b)) ->
  (forall z, P (JNum z)) ->
  (forall s, P (JStr s)) ->
  (forall l, Forall P l -> P (JArr l)) ->
  (forall m, Forall (fun kv => P (snd kv)) m -> P (JObj m)) ->
  forall v, P v.
Proof.
  intros Hnull Hbool Hnum Hstr Harr Hobj.
  fix IH 1. intros [|b|z|s|l|m].
  - exact Hnull.
  - apply Hbool.
  - apply Hnum.
  - apply Hstr.
  - apply Harr. induction l as [|a l IHl]; constructor; [apply IH | exact IHl].
  - apply Hobj.
    induction m as [|[k a] m IHm]; constructor; [apply IH | exact IHm].
Qed.

Lemma quote_app (s rest : string) :
  quote s ++ rest = String dquote (enc_str s ++ String dquote rest).
Proof. unfold quote. simpl. now rewrite append_assoc. Qed.

(** A printed value starts with a byte that is not white space. *)
Lemma skip_ws_print (v : json) (x : string) :
  skip_ws (print v ++ x) = print v ++ x.
Proof.
  destruct v as [|[|]|z|s|l|m]; try reflexivity.
  destruct z as [|p|p]; try reflexivity.
  pose proof (pos_uint_head p) as Hh. simpl.
  destruct (Pos.to_uint p); try contradiction; reflexivity.
Qed.

Lemma skip_ws_elems (v : json) (l : list json) (x : string) :
  skip_ws (print_elems print (v :: l) ++ x) = print_elems print (v :: l) ++ x.
Proof.
  simpl. destruct l; [apply skip_ws_print|].
  rewrite append_assoc. apply skip_ws_print.
Qed.

(** The parser takes a printed number for a number. *)
Lemma parse_value_number (z : Z) (f : nat) (rest : string) :
  parse_value (S f) (itoa z ++ rest) = parse_number (itoa z ++ rest).
Proof.
  destruct z as [|p|p]; try reflexivity.
  pose proof (pos_uint_head p) as Hh. unfold itoa.
  destruct (Pos.to_uint p); try contradiction; reflexivity.
Qed.

Lemma parse_elems_print (l : list json) :
  Forall parses_back l -> forallb wf l = true ->
  forall v0 fuel rest,
    (fold_right (fun v n => S (size v + n)) O (v0 :: l) <= fuel)%nat ->
    parses_back v0 -> wf v0 = true ->
    delimited rest = true ->
    parse_elems fuel (print_elems print (v0 :: l) ++ String "]" rest)
    = Ok (v0 :: l, rest).
Proof.
  induction 1 as [|v1 l H1 Hl IH]; intros Hwf v0 fuel rest Hfuel H0 Hwf0 Hrest.
  - destruct fuel as [|f]; [simpl in Hfuel; lia|].
    simpl in Hfuel. simpl print_elems. simpl parse_elems.
    rewrite (H0 Hwf0) by (simpl; auto; lia). reflexivity.
  - destruct fuel as [|f]; [simpl in Hfuel; lia|].
    simpl in Hwf. apply andb_prop in Hwf as [Hwf1 Hwf].
    change (print_elems print (v0 :: v1 :: l))
      with (print v0 ++ "," ++ print_elems print (v1 :: l)).
    pose proof (skip_ws_elems v1 l (String "]" rest)) as Hws.
    remember (print_elems print (v1 :: l)) as tail eqn:Htail.
    rewrite !append_assoc. simpl parse_elems.
    rewrite (H0 Hwf0) by (simpl in Hfuel |- *; auto; lia).
    simpl. rewrite Hws. subst tail.
    rewrite IH; auto. simpl in Hfuel |- *. lia.
Qed.

Lemma skip_ws_members (k : string) (v : json) (m : list (string * json))
  (x : string) :
  skip_ws (print_members print ((k, v) :: m) ++ x)
  = print_members print ((k, v) :: m) ++ x.
Proof. simpl. destruct m; reflexivity. Qed.

Lemma members_head (k : string) (v : json) (m : list (string * json))
  (x : string) :
  exists y,
    print_members print ((k, v) :: m) ++ x
    = String dquote (enc_str k ++ String dquote (String ":" (print v ++ y)))
    /\ y = match m with
           | [] => x
           | kv :: m' => String "," (print_members print (kv :: m') ++ x)
           end.
Proof.
  destruct m as [|kv m'].
  - exists x. split; [|reflexivity].
    change (print_members print [(k, v)]) with (quote k ++ ":" ++ print v).
    rewrite !append_assoc, quote_app. reflexivity.
  - eexists. split; [|reflexivity].
    change (print_members print ((k, v) :: kv :: m'))
      with (quote k ++ ":" ++ print v ++ "," ++ print_members print (kv :: m')).
    rewrite !append_assoc, quote_app. reflexivity.
Qed.

Lemma parse_members_print (m : list (string * json)) :
  Forall (fun kv => parses_back (snd kv)) m ->
  forallb (fun kv => utf8_valid (fst kv) && wf (snd kv)) m = true ->
  forall k0 v0 fuel rest,
    (fold_right (fun kv n => S (size (snd kv) + n)) O ((k0, v0) :: m)
     <= fuel)%nat ->
    parses_back v0 -> utf8_valid k0 = true -> wf v0 = true ->
    delimited rest = true ->
    parse_members fuel (print_members print ((k0, v0) :: m) ++ String "}" rest)
    = Ok ((k0, v0) :: m, rest).
Proof.
  induction 1 as [|[k1 v1] m H1 Hm IH];
    intros Hwf k0 v0 fuel rest Hfuel H0 Hk0 Hwf0 Hrest.
  - destruct fuel as [|f]; [simpl in Hfuel; lia|].
    destruct (members_head k0 v0 [] (String "}" rest)) as (y & -> & ->).
    simpl parse_members. change (Ascii.eqb dquote dquote) with true.
    cbv beta iota. rewrite unquote_enc_str by assumption.
    simpl. rewrite skip_ws_print.
    rewrite (H0 Hwf0) by (simpl in Hfuel |- *; auto; lia). reflexivity.
  - destruct fuel as [|f]; [simpl in Hfuel; lia|].
    simpl in Hwf. apply andb_prop in Hwf as [Hwf1 Hwf].
    apply andb_prop in Hwf1 as [Hk1 Hwf1].
    pose proof (skip_ws_members k1 v1 m (String "}" rest)) as Hws.
    destruct (members_head k0 v0 ((k1, v1) :: m) (String "}" rest))
      as (y & -> & ->).
    remember (print_members print ((k1, v1) :: m)) as tail eqn:Htail.
    simpl parse_members. change (Ascii.eqb dquote dquote) with true.
    cbv beta iota. rewrite unquote_enc_str by assumption.
    simpl. rewrite skip_ws_print.
    rewrite (H0 Hwf0) by (simpl in Hfuel |- *; auto; lia).
    simpl. rewrite Hws. subst tail.
    rewrite IH; auto. simpl in Hfuel |- *. lia.
Qed.

(** A printed value starts with a byte that is neither white space nor a
    closing bracket. *)
Lemma print_head (v : json) (x : string) :
  exists c r,
    print v ++ x = String c r /\ is_space c = false /\ Ascii.eqb c "]" = false.
Proof.
  destruct v as [|[|]|[|p|p]|s|l|m]; try (do 2 eexists; repeat split; fail).
  pose proof (pos_uint_head p) as Hh. simpl.
  destruct (Pos.to_uint p); try contradiction;
    do 2 eexists; repeat split.
Qed.

Lemma elems_head (v : json) (l : list json) (x : string) :
  exists c r,
    print_elems print (v :: l) ++ x = String c r /\
    is_space c = false /\ Ascii.eqb c "]" = false.
Proof.
  destruct l as [|v' l].
  - apply print_head.
  - change (print_elems print (v :: v' :: l))
      with (print v ++ "," ++ print_elems print (v' :: l)).
    rewrite append_assoc. apply print_head.
Qed.

(** The parser hands a printed array that is not empty to [parse_elems],
    and a printed object that is not empty to [parse_members]. *)
Lemma parse_value_array (f : nat) (v : json) (l : list json) (rest : string) :
  parse_value (S f) (print (JArr (v :: l)) ++ rest)
  = ('(l', r') <- parse_elems f (print_elems print (v :: l) ++ String "]" rest) ;;
     Ok (JArr l', r')).
Proof.
  change (print (JArr (v :: l))) with ("[" ++ print_elems print (v :: l) ++ "]").
  destruct (elems_head v l (String "]" rest)) as (c & r & E & Hs & Hc).
  rewrite !append_assoc.
  change ("[" ++ ?y) with (String "[" y).
  change ("]" ++ rest) with (String "]" rest).
  rewrite E. simpl. rewrite Hs, Hc. reflexivity.
Qed.

Lemma parse_value_object (f : nat) (k : string) (v : json)
  (m : list (string * json)) (rest : string) :
  parse_value (S f) (print (JObj ((k, v) :: m)) ++ rest)
  = ('(m', r') <-
       parse_members f (print_members print ((k, v) :: m) ++ String "}" rest) ;;
     Ok (JObj m', r')).
Proof.
  change (print (JObj ((k, v) :: m)))
    with ("{" ++ print_members print ((k, v) :: m) ++ "}").
  destruct (members_head k v m (String "}" rest)) as (y & E & _).
  rewrite !append_assoc.
  change ("{" ++ ?y) with (String "{" y).
  change ("}" ++ rest) with (String "}" rest).
  rewrite E. reflexivity.
Qed.

(** Every well-formed value parses back from its printed form. *)
Lemma parse_print_value (v : json) : parses_back v.
Proof.
  induction v as [|b|z|s|l IH|m IH] using json_induction;
    intros Hwf fuel rest Hfuel Hrest;
    (destruct fuel as [|f]; [simpl in Hfuel; lia|]).
  - reflexivity.
  - destruct b; reflexivity.
  - change (print (JNum z)) with (itoa z).
    rewrite parse_value_number. now apply parse_number_itoa.
  - change (print (JStr s)) with (quote s). rewrite quote_app.
    simpl parse_value. change (Ascii.eqb dquote dquote) with true.
    cbv beta iota. simpl in Hwf. rewrite unquote_enc_str by assumption.
    reflexivity.
  - destruct l as [|v0 l]; [reflexivity|].
    simpl in Hwf. apply andb_prop in Hwf as [Hwf0 Hwf].
    rewrite parse_value_array.
    pose proof (Forall_inv IH) as IH0.
    rewrite (parse_elems_print l (Forall_inv_tail IH) Hwf v0 f rest); auto.
    simpl in Hfuel |- *. lia.
  - destruct m as [|[k0 v0] m]; [reflexivity|].
    simpl in Hwf. apply andb_prop in Hwf as [Hwf0 Hwf].
    apply andb_prop in Hwf0 as [Hk0 Hwf0].
    rewrite parse_value_object.
    pose proof (Forall_inv IH) as IH0. simpl in IH0.
    rewrite (parse_members_print m (Forall_inv_tail IH) Hwf k0 v0 f rest); auto.
    simpl in Hfuel |- *. lia.
Qed.

(** *** Whole texts *)

Lemma length_app (a b : string) :
  String.length (a ++ b) = (String.length a + String.length b)%nat.
Proof. induction a as [|c a IH]; simpl; [reflexivity | now rewrite IH]. Qed.

Lemma append_nil_r (a : string) : a ++ "" = a.
Proof. induction a as [|c a IH]; simpl; [reflexivity | now rewrite IH]. Qed.

Lemma itoa_length (z : Z) : (1 <= String.length (itoa z))%nat.
Proof.
  destruct z as [|p|p]; simpl; try lia.
  pose proof (pos_uint_head p) as Hh.
  destruct (Pos.to_uint p); try contradiction; simpl; lia.
Qed.

Lemma elems_length (l : list json) :
  Forall (fun v => (size v <= String.length (print v))%nat) l ->
  (fold_right (fun v n => S (size v + n)) O l
   <= String.length (print_elems print l) + 1)%nat.
Proof.
  induction 1 as [|v l Hv Hl IH]; [simpl; lia|].
  destruct l as [|v' l].
  - simpl. lia.
  - change (print_elems print (v :: v' :: l))
      with (print v ++ "," ++ print_elems print (v' :: l)).
    rewrite !length_app.
    change (fold_right (fun v n => S (size v + n)) O (v :: v' :: l))
      with (S (size v + fold_right (fun v n => S (size v + n)) O (v' :: l))).
    change (String.length ",") with 1%nat. lia.
Qed.

Lemma members_length (m : list (string * json)) :
  Forall (fun kv => (size (snd kv) <= String.length (print (snd kv)))%nat) m ->
  (fold_right (fun kv n => S (size (snd kv) + n)) O m
   <= String.length (print_members print m) + 1)%nat.
Proof.
  induction 1 as [|[k v] m Hv Hm IH]; [simpl; lia|].
  destruct m as [|kv' m].
  - change (print_members print [(k, v)]) with (quote k ++ ":" ++ print v).
    rewrite !length_app. simpl in Hv.
    change (String.length ":") with 1%nat.
    change (fold_right (fun kv n => S (size (snd kv) + n)) O [(k, v)])
      with (S (size v + 0)). lia.
  - change (print_members print ((k, v) :: kv' :: m))
      with (quote k ++ ":" ++ print v ++ "," ++ print_members print (kv' :: m)).
    rewrite !length_app.
    change (fold_right (fun kv n => S (size (snd kv) + n)) O ((k, v) :: kv' :: m))
      with (S (size v
               + fold_right (fun kv n => S (size (snd kv) + n)) O (kv' :: m))).
    simpl in Hv. change (String.length ",") with 1%nat.
    change (String.length ":") with 1%nat. lia.
Qed.

(** The size of a value is at most the length of its printed form. *)
Lemma size_print (v : json) : (size v <= String.length (print v))%nat.
Proof.
  induction v as [|b|z|s|l IH|m IH] using json_induction.
  - simpl. lia.
  - destruct b; simpl; lia.
  - apply itoa_length.
  - simpl. lia.
  - change (print (JArr l)) with ("[" ++ print_elems print l ++ "]").
    rewrite !length_app. pose proof (elems_length l IH). simpl. lia.
  - change (print (JObj m)) with ("{" ++ print_members print m ++ "}").
    rewrite !length_app. pose proof (members_length m IH). simpl. lia.
Qed.

(** A well-formed value is what the parser reads in its printed form. *)
Lemma parse_print (v : json) : wf v = true -> parse (print v) = Ok v.
Proof.
  intros Hwf. unfold parse.
  pose proof (skip_ws_print v "") as Hws. rewrite append_nil_r in Hws.
  rewrite Hws.
  pose proof (parse_print_value v Hwf (2 * String.length (print v) + 2)%nat "") as H.
  rewrite append_nil_r in H. rewrite H; [reflexivity | | reflexivity].
  pose proof (size_print v). lia.
Qed.

(** *** Go values *)

Lemma canonical_wf (v : json) : canonical v = true -> wf v = true.
Proof.
  induction v as [|b|z|s|l IH|m IH] using json_induction; simpl; auto.
  - induction IH as [|v l Hv Hl IHl]; simpl; [reflexivity|].
    intros H. apply andb_prop in H as [H1 H2]. now rewrite Hv, IHl.
  - intros H. apply andb_prop in H as [_ H].
    induction IH as [|[k v] m Hv Hm IHm]; simpl in *; [reflexivity|].
    apply andb_prop in H as [H1 H2]. apply andb_prop in H1 as [Hk H1].
    now rewrite Hk, Hv, IHm.
Qed.

Lemma sorted_app_below (acc m : list (string * json)) k v :
  sorted_keys (acc ++ (k, v) :: m)%list = true ->
  Forall (fun kv => str_lt (fst kv) k = true) acc.
Proof.
  induction acc as [|[k0 v0] acc IH]; intros H; constructor;
    change (sorted_keys ((k0, v0) :: (acc ++ (k, v) :: m)%list) = true) in H.
  - pose proof (sorted_keys_head _ _ _ H) as Hall.
    apply Forall_elt in Hall. exact Hall.
  - apply IH. exact (sorted_keys_tail _ _ _ H).
Qed.

Lemma fold_put_sorted (m acc : list (string * json)) :
  sorted_keys (acc ++ m)%list = true ->
  Forall (fun kv => norm (snd kv) = snd kv) m ->
  fold_left (fun acc kv => assoc_put acc (fst kv) (norm (snd kv))) m acc
  = (acc ++ m)%list.
Proof.
  revert acc. induction m as [|[k v] m IH]; intros acc Hs Hn.
  - simpl. now rewrite List.app_nil_r.
  - simpl. rewrite (Forall_inv Hn : norm v = v).
    rewrite (assoc_put_last acc k v (sorted_app_below _ _ _ _ Hs)).
    rewrite IH.
    + now rewrite <- List.app_assoc.
    + now rewrite <- List.app_assoc.
    + exact (Forall_inv_tail Hn).
Qed.

(** A canonical value is its own Go value. *)
Lemma norm_canonical (v : json) : canonical v = true -> norm v = v.
Proof.
  induction v as [|b|z|s|l IH|m IH] using json_induction; simpl; auto.
  - intros H. f_equal.
    induction IH as [|v l Hv Hl IHl]; simpl in *; [reflexivity|].
    apply andb_prop in H as [H1 H2]. now rewrite Hv, IHl.
  - intros H. apply andb_prop in H as [Hs H]. f_equal.
    apply (fold_put_sorted m []); [exact Hs|]. clear Hs.
    induction IH as [|[k v] m Hv Hm IHm]; constructor; simpl in *.
    + apply andb_prop in H as [H1 _]. apply andb_prop in H1 as [_ H1]. auto.
    + apply andb_prop in H as [_ H]. now apply IHm.
Qed.

(** [json.Unmarshal] gives back the map that [json.Marshal] wrote, when
    the map is canonical. *)
Lemma Unmarshal_Marshal (m : list (string * json)) :
  canonical (JObj m) = true -> Unmarshal (Marshal (Some m)) = Ok (Some m).
Proof.
  intros H. unfold Unmarshal, Marshal.
  rewrite parse_print by now apply canonical_wf.
  simpl. f_equal. f_equal.
  pose proof (norm_canonical (JObj m) H) as Hn. simpl in Hn.
  now injection Hn.
Qed.

(** *** What the parser returns is well-formed *)

Lemma bind_ok {A B : Type} (x : outcome A) (f : A -> outcome B) (b : B) :
  bind x f = Ok b -> exists a, x = Ok a /\ f a = Ok b.
Proof. destruct x as [a| | |]; simpl; try discriminate. eauto. Qed.

Ltac split_match H :=
  repeat
    (match type of H with
     | context [if ?b then _ else _] => destruct b eqn:?
     | context [match ?x with _ => _ end] => destruct x eqn:?
     end; try discriminate H).

Lemma parse_number_wf (s : string) (v : json) (r : string) :
  parse_number s = Ok (v, r) -> wf v = true.
Proof.
  unfold parse_number.
  destruct (match s with
            | EmptyString => (false, s)
            | String c s' => if Ascii.eqb c "-" then (true, s') else (false, s)
            end) as [neg s1].
  destruct (read_digits s1) as [d rest].
  remember (N.of_uint d) as n eqn:Hn. clear Hn.
  intros H. split_match H;
    injection H as <- <-; cbn [wf]; unfold exact, max_exact in *;
    apply Z.leb_le;
    match goal with E : (_ <? _) = false |- _ => apply N.ltb_ge in E end; lia.
Qed.

(** The values that [parse_value], [parse_elems] and [parse_members]
    return are well-formed. *)
Lemma parse_wf (fuel : nat) :
  (forall s v r, parse_value fuel s = Ok (v, r) -> wf v = true) /\
  (forall s l r, parse_elems fuel s = Ok (l, r) -> forallb wf l = true) /\
  (forall s m r, parse_members fuel s = Ok (m, r) ->
     forallb (fun kv => utf8_valid (fst kv) && wf (snd kv)) m = true).
Proof.
  induction fuel as [|f (IHv & IHe & IHm)];
    [repeat split; intros; discriminate|].
  split; [|split].
  - intros s v r H. destruct s as [|c s']; [discriminate|].
    simpl in H.
    destruct (Ascii.eqb c "{").
    { destruct (skip_ws s') as [|c' r0]; [discriminate|].
      destruct (Ascii.eqb c' "}"); [now injection H as <- <-|].
      apply bind_ok in H as ([m r'] & E & H). injection H as <- <-.
      exact (IHm _ _ _ E). }
    destruct (Ascii.eqb c "[").
    { destruct (skip_ws s') as [|c' r0]; [discriminate|].
      destruct (Ascii.eqb c' "]"); [now injection H as <- <-|].
      apply bind_ok in H as ([l r'] & E & H). injection H as <- <-.
      exact (IHe _ _ _ E). }
    destruct (Ascii.eqb c dquote).
    { apply bind_ok in H as ([str r'] & E & H). injection H as <- <-.
      exact (unquote_ok_valid _ _ _ E). }
    destruct (Ascii.eqb c "-" || is_digit c).
    { exact (parse_number_wf _ _ _ H). }
    split_match H; now injection H as <- <-.
  - intros s l r H. simpl in H.
    apply bind_ok in H as ([v r0] & E & H).
    destruct (skip_ws r0) as [|c r']; [discriminate|].
    destruct (Ascii.eqb c ",").
    { apply bind_ok in H as ([l' r2] & E' & H). injection H as <- <-.
      simpl. now rewrite (IHv _ _ _ E), (IHe _ _ _ E'). }
    destruct (Ascii.eqb c "]"); [|discriminate].
    injection H as <- <-. simpl. now rewrite (IHv _ _ _ E).
  - intros s m r H. simpl in H.
    destruct s as [|q s1]; [discriminate|].
    destruct (Ascii.eqb q dquote); [|discriminate].
    apply bind_ok in H as ([k r0] & Ek & H).
    destruct (skip_ws r0) as [|c r1]; [discriminate|].
    destruct (Ascii.eqb c ":"); [|discriminate].
    apply bind_ok in H as ([v r2] & Ev & H).
    destruct (skip_ws r2) as [|c' r3]; [discriminate|].
    destruct (Ascii.eqb c' ",").
    { apply bind_ok in H as ([m' r4] & Em & H). injection H as <- <-.
      simpl.
      now rewrite (unquote_ok_valid _ _ _ Ek), (IHv _ _ _ Ev), (IHm _ _ _ Em). }
    destruct (Ascii.eqb c' "}"); [|discriminate].
    injection H as <- <-. simpl.
    now rewrite (unquote_ok_valid _ _ _ Ek), (IHv _ _ _ Ev).
Qed.

Lemma parse_ok_wf (data : string) (v : json) :
  parse data = Ok v -> wf v = true.
Proof.
  unfold parse. intros H. apply bind_ok in H as ([v' rest] & E & H).
  destruct (skip_ws rest); [|discriminate]. injection H as <-.
  exact (proj1 (parse_wf _) _ _ _ E).
Qed.

(** *** The maps that [json.Unmarshal] builds are canonical *)

Lemma assoc_put_forallb (f : string * json -> bool) m k v :
  forallb f m = true -> f (k, v) = true -> forallb f (assoc_put m k v) = true.
Proof.
  intros Hm Hkv. induction m as [|[k1 v1] m IH]; simpl in *.
  - now rewrite Hkv.
  - apply andb_prop in Hm as [H1 Hm].
    destruct (String.compare k k1); simpl; rewrite ?Hkv, ?H1, ?Hm, ?IH; auto.
Qed.

(** [js[k] = v] keeps a canonical map canonical. *)
Lemma put_canonical (m : list (string * json)) (k : string) (v : json) :
  canonical (JObj m) = true -> utf8_valid k = true -> canonical v = true ->
  canonical (JObj (assoc_put m k v)) = true.
Proof.
  simpl. intros H Hk Hv. apply andb_prop in H as [Hs Hf].
  rewrite assoc_put_sorted by assumption.
  rewrite assoc_put_forallb; auto. simpl. now rewrite Hk, Hv.
Qed.

Lemma fold_put_canonical (m acc : list (string * json)) :
  canonical (JObj acc) = true ->
  Forall (fun kv => utf8_valid (fst kv) = true
                    /\ canonical (norm (snd kv)) = true) m ->
  canonical
    (JObj (fold_left (fun acc kv => assoc_put acc (fst kv) (norm (snd kv))) m acc))
  = true.
Proof.
  revert acc. induction m as [|[k v] m IH]; intros acc Hacc Hm; [exact Hacc|].
  simpl fold_left. apply IH; [|exact (Forall_inv_tail Hm)].
  destruct (Forall_inv Hm) as [Hk Hv]. now apply put_canonical.
Qed.

(** The Go value of a well-formed syntax tree is canonical. *)
Lemma canonical_norm (v : json) : wf v = true -> canonical (norm v) = true.
Proof.
  induction v as [|b|z|s|l IH|m IH] using json_induction; simpl; auto.
  - intros H. induction IH as [|v l Hv Hl IHl]; simpl in *; [reflexivity|].
    apply andb_prop in H as [H1 H2]. now rewrite Hv, IHl.
  - intros H. apply (fold_put_canonical m []); [reflexivity|].
    induction IH as [|[k v] m Hv Hm IHm]; constructor; simpl in *;
      apply andb_prop in H as [H1 H2].
    + apply andb_prop in H1 as [Hk H1]. auto.
    + now apply IHm.
Qed.

(** The map that [json.Unmarshal] returns is canonical. *)
Lemma Unmarshal_canonical (data : string) (m : list (string * json)) :
  Unmarshal data = Ok (Some m) -> canonical (JObj m) = true.
Proof.
  unfold Unmarshal. intros H. apply bind_ok in H as (v & E & H).
  destruct v as [|b|z|s|l|raw]; try discriminate.
  injection H as <-.
  exact (canonical_norm (JObj raw) (parse_ok_wf _ _ E)).
Qed.

(** *** Decoding the revision *)

Import Contract.

Lemma decode_no_match (name : string) (l : list (string * json))
  (cur : Z) (failed : bool) :
  Forall (fun kv => fold_eq name (fst kv) = false) l ->
  decode_int_field name l cur failed = (cur, failed).
Proof.
  induction 1 as [|[k v] l Hk Hl IH]; [reflexivity|].
  simpl in Hk |- *. now rewrite Hk.
Qed.

Lemma str_lt_irrefl (k : string) : str_lt k k = false.
Proof. unfold str_lt, String.ltb. now rewrite compare_refl. Qed.

Lemma no_alias_cons (k : string) (v : json) (l : list (string * json)) :
  no_alias ((k, v) :: l) = true ->
  (fold_eq "Revision" k = false \/ k = "revision") /\ no_alias l = true.
Proof.
  change (no_alias ((k, v) :: l))
    with ((negb (fold_eq "Revision" k) || String.eqb k "revision")
          && no_alias l).
  intros H. apply andb_prop in H as [H1 H2]. split; [|exact H2].
  apply orb_prop in H1 as [H1|H1].
  - left. now apply negb_true_iff.
  - right. now apply String.eqb_eq.
Qed.

(** Above [revision], a map without alias has no key that matches. *)
Lemma above_no_match (l : list (string * json)) :
  no_alias l = true ->
  Forall (fun kv => str_lt "revision" (fst kv) = true) l ->
  Forall (fun kv => fold_eq "Revision" (fst kv) = false) l.
Proof.
  intros Ha Hl. induction Hl as [|[k v] l Hk Hl IH]; constructor;
    apply no_alias_cons in Ha as [Ha1 Ha2]; [|now apply IH].
  cbn [fst] in *. destruct Ha1 as [Ha1| ->]; [exact Ha1|].
  now rewrite str_lt_irrefl in Hk.
Qed.

Lemma decode_skip (k : string) (v : json) (l : list (string * json))
  (cur : Z) (failed : bool) :
  fold_eq "Revision" k = false ->
  decode_int_field "Revision" ((k, v) :: l) cur failed
  = decode_int_field "Revision" l cur failed.
Proof.
  intros H.
  change (decode_int_field "Revision" ((k, v) :: l) cur failed)
    with (if fold_eq "Revision" k
          then match v with
               | JNum z => decode_int_field "Revision" l z failed
               | JNull => decode_int_field "Revision" l cur failed
               | _ => decode_int_field "Revision" l cur true
               end
          else decode_int_field "Revision" l cur failed).
  now rewrite H.
Qed.

(** After [js["revision"] = i] on a map without alias, the struct decoder
    finds [i]. *)
Lemma decode_put_revision (m : list (string * json)) (i cur : Z) :
  sorted_keys m = true -> no_alias m = true ->
  decode_int_field "Revision" (assoc_put m "revision" (JNum i)) cur false
  = (i, false).
Proof.
  induction m as [|[k1 v1] m IH]; intros Hs Ha; [reflexivity|].
  pose proof (sorted_keys_head _ _ _ Hs) as Hall.
  pose proof (sorted_keys_tail _ _ _ Hs) as Hs'.
  destruct (no_alias_cons _ _ _ Ha) as [Ha1 Ha2].
  rewrite assoc_put_cons. destruct (String.compare "revision" k1) eqn:E.
  - apply String.compare_eq_iff in E. subst k1.
    change (decode_int_field "Revision" (("revision", JNum i) :: m) cur false)
      with (decode_int_field "Revision" m i false).
    apply decode_no_match, above_no_match; assumption.
  - apply str_lt_compare in E.
    change (decode_int_field "Revision"
              (("revision", JNum i) :: (k1, v1) :: m) cur false)
      with (decode_int_field "Revision" ((k1, v1) :: m) i false).
    apply decode_no_match, above_no_match; [exact Ha|].
    constructor; [exact E|].
    eapply Forall_impl; [|exact Hall]. simpl. intros kv Hkv.
    exact (str_lt_trans _ _ _ E Hkv).
  - destruct Ha1 as [Hne| ->]; [|rewrite compare_refl in E; discriminate].
    rewrite decode_skip by exact Hne. now apply IH.
Qed.

(** [getLastRevision] reads back the revision that [Put] wrote. *)
Lemma Unmarshal_Revision_Marshal (m : list (string * json)) (i : Z) :
  canonical (JObj m) = true -> no_alias m = true -> exact i = true ->
  Unmarshal_Revision (Marshal (Some (assoc_put m "revision" (JNum i)))) = Ok i.
Proof.
  intros Hc Ha Hi. unfold Unmarshal_Revision, Marshal.
  assert (C : canonical (JObj (assoc_put m "revision" (JNum i))) = true)
    by (apply put_canonical; auto).
  rewrite parse_print by now apply canonical_wf.
  simpl bind. simpl in Hc. apply andb_prop in Hc as [Hs _].
  now rewrite decode_put_revision.
Qed.

End JsonFacts.
(** ** The BoltDB backend *)

Module BoltFacts.
Import Json Store Contract Bolt.

Lemma meta_key_neq_text_key (k : string) : k ++ "|2" <> k ++ "|1".
Proof. intros H. apply append_inj_l in H. discriminate. Qed.

(** A key whose meta entry is absent or empty gets revision 1. *)
Lemma bolt_getLastRevision_no_live (s : boltStore) (k : string) :
  bolt_live s k = false -> getLastRevision (tiddler s) (k ++ "|1") = Ok 1%Z.
Proof.
  unfold bolt_live, getLastRevision.
  destruct (assoc_get (tiddler s) (k ++ "|1")) as [meta|]; [|reflexivity].
  destruct meta as [|c meta]; [reflexivity | discriminate].
Qed.

(** [Get] of a key whose meta entry is absent. *)
Lemma bolt_Get_absent (s : boltStore) (k : string) :
  assoc_get (tiddler s) (k ++ "|1") = None -> Get s k = Err ErrNotFound.
Proof. unfold Get. now intros ->. Qed.

(** What a successful [Delete] leaves in the two buckets. *)
Lemma bolt_Delete_ok (s s' : boltStore) (k : string) :
  Delete s k = (Ok tt, s') ->
  exists rev,
    getLastRevision (tiddler s) (k ++ "|1") = Ok rev /\
    tiddler s' = assoc_put (assoc_put (tiddler s) (k ++ "|1") "") (k ++ "|2") "" /\
    tiddler_history s' = assoc_put (tiddler_history s) (history_key k rev) "".
Proof.
  unfold Delete, commit.
  destruct (getLastRevision (tiddler s) (k ++ "|1")) as [rev| | |] eqn:E;
    simpl; try discriminate.
  intros H. injection H as <-. exists rev. auto.
Qed.

(** What a successful [Put] leaves in the two buckets. *)
Lemma bolt_Put_ok (s s' : boltStore) (t : Tiddler) (rev : Z) :
  Put s t = (Ok rev, s') ->
  exists m,
    Unmarshal (Meta t) = Ok (Some m) /\
    getLastRevision (tiddler s) (Key t ++ "|1") = Ok rev /\
    tiddler s' =
      assoc_put
        (assoc_put (tiddler s) (Key t ++ "|1")
           (Marshal (Some (assoc_put m "revision" (JNum rev)))))
        (Key t ++ "|2") (Text t) /\
    tiddler_history s' =
      assoc_put (tiddler_history s) (history_key (Key t) rev)
        (Marshal (Some (assoc_put (assoc_put m "revision" (JNum rev))
                          "text" (JStr (Text t))))).
Proof.
  unfold Put, commit.
  destruct (Unmarshal (Meta t)) as [js| | |]; simpl; try discriminate.
  destruct (getLastRevision _ _) as [r| | |]; simpl; try discriminate.
  destruct js as [m|]; simpl; try discriminate.
  intros H. injection H as <- <-. exists m. auto.
Qed.

(** What [Get] answers after a successful [Put]: the meta with the
    revision in it, and the text. *)
Lemma bolt_Get_after_Put (s s' : boltStore) (t : Tiddler) (rev : Z) :
  Put s t = (Ok rev, s') ->
  exists m,
    Unmarshal (Meta t) = Ok (Some m) /\
    Get s' (Key t) =
      Ok {| Key := "";
            Meta := Marshal (Some (assoc_put m "revision" (JNum rev)));
            Text := Text t; WithText := true |}.
Proof.
  intros H. destruct (bolt_Put_ok _ _ _ _ H) as (m & Hm & _ & Hb & _).
  exists m. split; [exact Hm|]. unfold Get. rewrite Hb.
  rewrite assoc_get_put_other
    by (intros E; symmetry in E; revert E; apply meta_key_neq_text_key).
  rewrite assoc_get_put_same, assoc_get_put_same. reflexivity.
Qed.

(** A [Put] in a row: from revision [i] the store assigns [i + 1]. *)
Lemma bolt_Put_at_revision (s : boltStore) (t : Tiddler) (k : string) (i : Z) :
  at_revision s k i -> plain k t -> exact i = true ->
  exists s', Put s t = (Ok (i + 1)%Z, s') /\ at_revision s' k (i + 1)%Z.
Proof.
  intros Hs [Hk (m & Hm & Ha)] Hi. subst k.
  assert (Hrev : getLastRevision (tiddler s) (Key t ++ "|1") = Ok (i + 1)%Z).
  { unfold getLastRevision. destruct Hs as [[-> ->]|(m0 & Hc0 & Ha0 & ->)].
    - reflexivity.
    - now rewrite JsonFacts.Unmarshal_Revision_Marshal. }
  eexists. split.
  - unfold Put, commit. rewrite Hm. simpl. rewrite Hrev. simpl. reflexivity.
  - right. exists m. split; [exact (JsonFacts.Unmarshal_canonical _ _ Hm)|].
    split; [exact Ha|]. simpl.
    rewrite assoc_get_put_other
      by (intros E; symmetry in E; revert E; apply meta_key_neq_text_key).
    apply assoc_get_put_same.
Qed.

Lemma exact_range (i : Z) :
  (0 <= i <= 9007199254740992)%Z -> exact i = true.
Proof. unfold exact. intros H. apply Z.leb_le. lia. Qed.

(** Successive [Put]s of one key return successive revisions. *)
Lemma bolt_puts_in_a_row (k : string) (ts : list Tiddler) :
  Forall (plain k) ts ->
  forall s i, at_revision s k i -> (0 <= i)%Z ->
    (i + Z.of_nat (List.length ts) <= 9007199254740992)%Z ->
    puts s ts = revisions_from (i + 1) (List.length ts).
Proof.
  induction 1 as [|t ts Ht Hts IH]; intros s i Hs Hi Hbound; [reflexivity|].
  simpl List.length in Hbound.
  destruct (bolt_Put_at_revision s t k i Hs Ht) as (s' & Hput & Hs').
  { apply exact_range. lia. }
  simpl. rewrite Hput. f_equal. apply IH; auto; lia.
Qed.

(** On a new store, [n] successive [Put]s of one key return the
    revisions 1, 2, ..., [n]. *)
Lemma bolt_revisions_count_from_one (k : string) (ts : list Tiddler) :
  Forall (plain k) ts ->
  (Z.of_nat (List.length ts) <= 9007199254740992)%Z ->
  puts MustOpen ts = revisions_from 1 (List.length ts).
Proof.
  intros Hts Hn. apply (bolt_puts_in_a_row k ts Hts MustOpen 0%Z); try lia.
  left. split; reflexivity.
Qed.

(** After a successful [Delete], [Get] answers a tiddler, not an error. *)
Lemma bolt_Get_after_Delete (s s' : boltStore) (k : string) :
  Delete s k = (Ok tt, s') ->
  Get s' k = Ok {| Key := ""; Meta := ""; Text := ""; WithText := true |}.
Proof.
  intros H. destruct (bolt_Delete_ok _ _ _ H) as (rev & _ & Hb & _).
  unfold Get. rewrite Hb.
  rewrite assoc_get_put_other by (intros E; symmetry in E; revert E; apply meta_key_neq_text_key).
  rewrite assoc_get_put_same, assoc_get_put_same. reflexivity.
Qed.

(** C10.  In the BoltDB backend, [Delete] of a key that was never written
    (its meta entry is absent) returns nil; it writes an empty meta entry
    and an empty text entry for the key and an empty history entry under
    the key at revision 1, so the store is no longer what it was. *)
Theorem C10_bolt_delete_of_unwritten_key (s : boltStore) (k : string) :
  assoc_get (tiddler s) (k ++ "|1") = None ->
  exists s',
    Delete s k = (Ok tt, s') /\
    assoc_get (tiddler s') (k ++ "|1") = Some "" /\
    assoc_get (tiddler s') (k ++ "|2") = Some "" /\
    assoc_get (tiddler_history s') (k ++ "#1") = Some "" /\
    s' <> s.
Proof.
  intros Habs.
  assert (Hrev : getLastRevision (tiddler s) (k ++ "|1") = Ok 1%Z)
    by (unfold getLastRevision; now rewrite Habs).
  eexists. split.
  - unfold Delete, commit. rewrite Hrev. simpl. reflexivity.
  - simpl. repeat split.
    + rewrite assoc_get_put_other
        by (intros E; symmetry in E; revert E; apply meta_key_neq_text_key).
      apply assoc_get_put_same.
    + apply assoc_get_put_same.
    + apply assoc_get_put_same.
    + intros E. rewrite <- E in Habs. simpl in Habs.
      rewrite assoc_get_put_other in Habs
        by (intros E'; symmetry in E'; revert E'; apply meta_key_neq_text_key).
      rewrite assoc_get_put_same in Habs. discriminate.
Qed.

Lemma C10_witness :
  exists s',
    Delete MustOpen "k" = (Ok tt, s') /\
    assoc_get (tiddler s') "k|1" = Some "" /\
    assoc_get (tiddler s') "k|2" = Some "" /\
    assoc_get (tiddler_history s') "k#1" = Some "" /\
    s' <> MustOpen.
Proof. exact (C10_bolt_delete_of_unwritten_key MustOpen "k" eq_refl). Defined.

End BoltFacts.

(** ** The SQLite backend *)

Module SqliteFacts.
Import Json Store Contract Sqlite.

(** [Get] when no row matches: the error is [sql.ErrNoRows]. *)
Lemma sqlite_Get_no_match (s : sqliteStore) (k : string) :
  query_row s ("%" ++ k ++ "%") = None -> Get s k = Err ErrNoRows.
Proof. unfold Get. now intros ->. Qed.

(** [getLastRevision] only ever answers 0 or 1. *)
Lemma sqlite_getLastRevision_range (s : sqliteStore) (k : string) :
  getLastRevision s k = 0%Z \/ getLastRevision s k = 1%Z.
Proof. unfold getLastRevision. destruct (query_row s k); auto. Qed.

(** So does [Put]. *)
Lemma sqlite_Put_revision_range (s s' : sqliteStore) (t : Tiddler) (rev : Z) :
  Put s t = (Ok rev, s') -> rev = 0%Z \/ rev = 1%Z.
Proof.
  unfold Put, commit. destruct (Unmarshal (Meta t)); simpl; try discriminate.
  intros H. injection H as <- _. apply sqlite_getLastRevision_range.
Qed.

(** [Put] appends one row and touches no other. *)
Lemma sqlite_Put_ok (s s' : sqliteStore) (t : Tiddler) (rev : Z) :
  Put s t = (Ok rev, s') ->
  rows s' = (rows s ++ [{| id := next_id s; meta := Meta t; content := Text t;
                           revision := rev |}])%list.
Proof.
  unfold Put, commit. destruct (Unmarshal (Meta t)); simpl; try discriminate.
  intros H. injection H as <- <-. reflexivity.
Qed.

(** [Delete] returns nil whatever the key. *)
Lemma sqlite_Delete_ok (s : sqliteStore) (k : string) : fst (Delete s k) = Ok tt.
Proof. reflexivity. Qed.

(** C1.  On a new SQLite store the first [Put] of a key returns revision
    0, and so do the second and the third: the revisions are not 1, 2, 3. *)
Theorem C1_sqlite_revisions_do_not_count :
  let t := new "A" sample_meta "hello" in
  puts Sqlite.MustOpen [t; t; t] = [Ok 0%Z; Ok 0%Z; Ok 0%Z] /\
  puts Sqlite.MustOpen [t; t; t] <> revisions_from 1 3.
Proof. vm_compute. split; [reflexivity | discriminate]. Qed.

(** C2.  On a new SQLite store [Get] of any key returns [sql.ErrNoRows],
    which is not [store.ErrNotFound]. *)
Theorem C2_sqlite_get_of_unwritten_key :
  forall k, Get MustOpen k = Err ErrNoRows /\ Get MustOpen k <> Err ErrNotFound.
Proof. intros k. split; [reflexivity | discriminate]. Qed.

(** C9.  In any state of the SQLite store, [Put] of a tiddler whose meta
    is the JSON text [null], which is not an object, returns no error and
    inserts a row. *)
Theorem C9_sqlite_put_of_null_meta :
  ~ is_object "null" /\
  forall s key text,
    Put s (new key "null" text) =
      (Ok (getLastRevision s key),
       {| rows := rows s ++ [{| id := next_id s; meta := "null";
                                content := text;
                                revision := getLastRevision s key |}];
          next_id := (next_id s + 1)%Z |}).
Proof.
  split; [|reflexivity].
  intros [m H]. vm_compute in H. discriminate.
Qed.

End SqliteFacts.

(** ** The flat-file backend *)

Module FlatFileFacts.
Import Json Store Contract FlatFile.

(** [Get] of a key whose [.tid] file is absent. *)
Lemma flat_Get_absent (s : flatFileStore) (k : string) :
  path_ok k = true -> flat_live s k = false -> Get s k = Err ErrNotFound.
Proof.
  unfold Get, flat_live. intros ->.
  destruct (assoc_get (tiddlers s) (k ++ ".tid")); [discriminate | reflexivity].
Qed.

(** [Delete] never touches the history directory. *)
Lemma flat_Delete_history (s : flatFileStore) (k : string) :
  tiddlerHistory (snd (Delete s k)) = tiddlerHistory s.
Proof.
  unfold Delete. destruct (path_ok k); [|reflexivity].
  destruct (assoc_get (tiddlers s) (k ++ ".tid")); [|reflexivity].
  destruct (assoc_get _ (k ++ ".meta")); reflexivity.
Qed.

(** [Delete] of a key whose [.tid] file is absent fails with the error of
    [os.Remove] and changes nothing. *)
Lemma flat_Delete_absent (s : flatFileStore) (k : string) :
  path_ok k = true -> flat_live s k = false ->
  Delete s k = (Err (ErrNotExist (k ++ ".tid")), s).
Proof.
  unfold Delete, flat_live. intros ->.
  destruct (assoc_get (tiddlers s) (k ++ ".tid")); [discriminate | reflexivity].
Qed.

(** After a successful [Delete], [Get] answers [ErrNotFound]. *)
Lemma flat_Get_after_Delete (s s' : flatFileStore) (k : string) :
  Delete s k = (Ok tt, s') -> Get s' k = Err ErrNotFound.
Proof.
  unfold Delete, Get. destruct (path_ok k); [|discriminate].
  destruct (assoc_get (tiddlers s) (k ++ ".tid")); [|discriminate].
  destruct (assoc_get _ (k ++ ".meta")) eqn:E; [|discriminate].
  intros H. injection H as <-. simpl.
  rewrite assoc_get_remove_other, assoc_get_remove_same; [reflexivity|].
  intros H. apply append_inj_l in H. discriminate.
Qed.

(** After a successful [Put], [Get] answers the meta and the text as they
    were given: the meta carries no revision of the store. *)
Lemma flat_Get_after_Put (s s' : flatFileStore) (t : Tiddler) (rev : Z) :
  Put s t = (Ok rev, s') ->
  Get s' (Key t) =
    Ok {| Key := ""; Meta := Meta t; Text := Text t; WithText := true |}.
Proof.
  unfold Put, commit.
  destruct (Unmarshal (Meta t)) as [js| | |]; simpl; try discriminate.
  destruct (path_ok (Key t)) eqn:Hp; simpl; try discriminate.
  destruct (getLastRevision _ _) as [r| | |]; simpl; try discriminate.
  intros H. injection H as <- <-. unfold Get. rewrite Hp. simpl.
  assert (Hne : Key t ++ ".tid" <> Key t ++ ".meta")
    by (intros E; apply append_inj_l in E; discriminate).
  rewrite (assoc_get_put_other _ _ _ _ Hne), !assoc_get_put_same.
  reflexivity.
Qed.

(** C5.  In the flat-file backend a tiddler that carries the macro tag is
    listed by [All] with [WithText = true] and an empty text, although [Get]
    returns its text: [All] reads the text from the working directory
    instead of the [tiddlers] directory. *)
Theorem C5_flat_file_all_loses_the_text :
  let t := new "M" macro_meta "the text" in
  let s := snd (Put (MustOpen []) t) in
  fst (Put (MustOpen []) t) = Ok 1%Z /\
  Get s "M" =
    Ok {| Key := ""; Meta := macro_meta;
          Text := "the text"; WithText := true |} /\
  All s =
    Ok [{| Key := ""; Meta := macro_meta;
           Text := ""; WithText := true |}].
Proof. vm_compute. repeat split. Qed.

End FlatFileFacts.

(** ** The JSON projection *)

Module ProjectionFacts.
Import Json Store Contract.

(** A skinny tiddler projects to its meta, byte for byte. *)
Lemma MarshalJSON_skinny (t : Tiddler) :
  WithText t = false -> MarshalJSON t = Ok (Meta t).
Proof. unfold MarshalJSON. now intros ->. Qed.

(** A fat tiddler whose meta is a JSON object projects to that object with
    its [text] member set to the text. *)
Lemma MarshalJSON_fat (t : Tiddler) (m : list (string * json)) :
  WithText t = true -> Unmarshal (Meta t) = Ok (Some m) ->
  MarshalJSON t = Ok (Marshal (Some (assoc_put m "text" (JStr (Text t))))).
Proof. unfold MarshalJSON. now intros -> ->. Qed.

(** [MarshalJSON] returns an error exactly when the tiddler is fat and
    [json.Unmarshal] returns one. *)
Lemma MarshalJSON_error (t : Tiddler) (e : error) :
  MarshalJSON t = Err e <-> WithText t = true /\ Unmarshal (Meta t) = Err e.
Proof.
  unfold MarshalJSON. destruct (WithText t); simpl.
  - destruct (Unmarshal (Meta t)) as [[m|]|e0| |]; simpl; split;
      try discriminate; try tauto; try (intros [_ H]; discriminate).
    + intros H. injection H as ->. auto.
    + intros [_ H]. injection H as ->. reflexivity.
  - split; [discriminate | intros [H _]; discriminate].
Qed.

(** C8.  The projection of a fat tiddler whose meta is the JSON text
    [null] returns neither bytes nor an error: [json.Unmarshal] accepts
    [null] and leaves the map nil, and the write of [text] to it panics. *)
Theorem C8_projection_of_null_meta_panics :
  ~ is_object "null" /\
  Unmarshal "null" = Ok None /\
  forall key text,
    MarshalJSON {| Key := key; Meta := "null"; Text := text; WithText := true |}
    = Panic.
Proof.
  split; [|split; reflexivity].
  intros [m H]. vm_compute in H. discriminate.
Qed.

End ProjectionFacts.

(** ** The contract, backend by backend *)

Module ContractFacts.
Import Json Store Contract.

(** C3.  In the BoltDB backend, after a [Put] and a successful [Delete] of
    the same key, [Get] returns a tiddler with an empty meta and a nil
    error, not [ErrNotFound]; [All] leaves the key out. *)
Theorem C3_bolt_get_after_delete_is_not_an_error :
  let t := new "A" sample_meta "hello" in
  let s1 := snd (Bolt.Put Bolt.MustOpen t) in
  let s2 := snd (Bolt.Delete s1 "A") in
  fst (Bolt.Put Bolt.MustOpen t) = Ok 1%Z /\
  fst (Bolt.Delete s1 "A") = Ok tt /\
  Bolt.Get s2 "A" = Ok {| Key := ""; Meta := ""; Text := ""; WithText := true |} /\
  Bolt.All s2 = Ok [].
Proof. vm_compute. repeat split. Qed.

(** Every tiddler that [All] lists, in the three backends, is fat exactly
    when its meta holds the macro tag, and has no text when it is skinny. *)
Lemma listed_flagged (meta text : string) : flagged (listed meta text).
Proof.
  unfold flagged, listed.
  destruct (contains meta macro_tag) eqn:E; simpl; rewrite E; split; auto.
  discriminate.
Qed.

Lemma all_loop_flagged (entries : Bolt.bucket) :
  Forall flagged (Bolt.all_loop entries)
  /\ forall e, Forall flagged (Bolt.all_loop (e :: entries)).
Proof.
  induction entries as [|e' entries [IH1 IH2]].
  - split; [constructor|]. intros [k meta]. simpl.
    destruct (String.length meta =? 0)%nat; [constructor|].
    constructor; [apply listed_flagged | constructor].
  - split; [apply IH2|]. intros [k meta]. destruct e' as [k' text].
    simpl Bolt.all_loop.
    destruct (String.length meta =? 0)%nat; [exact IH1|].
    constructor; [apply listed_flagged | exact IH1].
Qed.

Lemma All_flagged :
  (forall s l, Bolt.All s = Ok l -> Forall flagged l) /\
  (forall s l, Sqlite.All s = Ok l -> Forall flagged l) /\
  (forall s l, FlatFile.All s = Ok l -> Forall flagged l).
Proof.
  split; [|split]; intros s l H; injection H as <-.
  - apply all_loop_flagged.
  - apply Forall_map, Forall_forall. intros r _. apply listed_flagged.
  - apply Forall_map, Forall_forall. intros f _. apply listed_flagged.
Qed.


(** The hypothesis on the text is needed: a byte that is no UTF-8 is
    written as U+FFFD, so the projection holds another text. *)
Lemma bolt_projection_of_ill_formed_text :
  let t := new "A" sample_meta (String (ascii_of_N 255) "") in
  let s := snd (Bolt.Put Bolt.MustOpen t) in
  fst (Bolt.Put Bolt.MustOpen t) = Ok 1%Z /\
  (t' <- Bolt.Get s "A" ;; doc <- MarshalJSON t' ;; Ok (field doc "text"))
  = Ok (Some (JStr replacement)) /\
  replacement <> Text t.
Proof. vm_compute. repeat split. discriminate. Qed.


(** C7, as stated, fails in the BoltDB backend: [Delete] of a key of a new
    store returns nil. *)
Lemma C7_bolt_delete_of_missing_key_succeeds :
  bolt_live Bolt.MustOpen "k" = false /\
  fst (Bolt.Delete Bolt.MustOpen "k") = Ok tt /\
  fst (Bolt.Delete Bolt.MustOpen "k") <> Err ErrNotFound.
Proof. vm_compute. repeat split. discriminate. Qed.

(** What [json.Unmarshal] rejects, [Put] rejects, in the three backends,
    and the store stays as it was. *)
Lemma Put_rejects_malformed_meta (t : Tiddler) (e : error) :
  Unmarshal (Meta t) = Err e ->
  (forall s, Bolt.Put s t = (Err e, s)) /\
  (forall s, Sqlite.Put s t = (Err e, s)) /\
  (forall s, FlatFile.Put s t = (Err e, s)).
Proof.
  intros H. unfold Bolt.Put, Sqlite.Put, FlatFile.Put.
  rewrite H. simpl. auto.
Qed.

End ContractFacts.

(** ** Keys and their suffixes *)

Lemma append_inj_r (a b k : string) : a ++ k = b ++ k -> a = b.
Proof.
  revert b. induction a as [|c a IH]; intros [|d b] H; simpl in H.
  - reflexivity.
  - apply (f_equal String.length) in H. simpl in H.
    rewrite JsonFacts.length_app in H. lia.
  - apply (f_equal String.length) in H. simpl in H.
    rewrite JsonFacts.length_app in H. lia.
  - injection H as -> H. f_equal. now apply IH.
Qed.

Lemma append_last_neq (a b : string) (c d : ascii) :
  c <> d -> a ++ String c "" <> b ++ String d "".
Proof.
  intros Hcd. revert b. induction a as [|x a IH]; intros [|y b] H; simpl in H.
  - injection H as H. contradiction.
  - injection H as _ H. destruct b; discriminate.
  - injection H as _ H. destruct a; discriminate.
  - injection H as _ H. now apply IH in H.
Qed.

(** The meta entry and the text entry of two keys of the BoltDB store. *)
Lemma bolt_entries_apart (k k' : string) :
  k' <> k ->
  k' ++ "|1" <> k ++ "|1" /\ k' ++ "|1" <> k ++ "|2" /\
  k' ++ "|2" <> k ++ "|1" /\ k' ++ "|2" <> k ++ "|2".
Proof.
  intros H. repeat split; intros E.
  - apply append_inj_r in E. contradiction.
  - change (k' ++ "|" ++ "1" = k ++ "|" ++ "2") in E.
    rewrite <- !append_assoc in E. revert E. now apply append_last_neq.
  - change (k' ++ "|" ++ "2" = k ++ "|" ++ "1") in E.
    rewrite <- !append_assoc in E. revert E. now apply append_last_neq.
  - apply append_inj_r in E. contradiction.
Qed.

(** ** More of the BoltDB backend *)

Module BoltCoverage.
Import Json Store Contract Bolt.

Lemma bolt_Get_two_puts (b : bucket) (k k' v1 v2 : string) :
  k' <> k ->
  Get {| tiddler := assoc_put (assoc_put b (k ++ "|1") v1) (k ++ "|2") v2;
         tiddler_history := [] |} k'
  = Get {| tiddler := b; tiddler_history := [] |} k'.
Proof.
  intros H. destruct (bolt_entries_apart k k' H) as (H1 & H2 & H3 & H4).
  unfold Get. simpl.
  now rewrite !assoc_get_put_other by assumption.
Qed.

Lemma bolt_Get_history (b h h' : bucket) (k : string) :
  Get {| tiddler := b; tiddler_history := h |} k
  = Get {| tiddler := b; tiddler_history := h' |} k.
Proof. reflexivity. Qed.

(** X1.  In the BoltDB backend a [Put] or a [Delete] of one key, whether it
    succeeds or not, leaves what [Get] answers for every other key as it
    was. *)
Theorem bolt_writes_leave_other_keys
  (s : boltStore) (t : Tiddler) (k k' : string) :
  Key t = k -> k' <> k ->
  Get (snd (Put s t)) k' = Get s k' /\ Get (snd (Delete s k)) k' = Get s k'.
Proof.
  intros <- Hk. split.
  - unfold Put, commit.
    destruct (Unmarshal (Meta t)) as [js| | |]; simpl; try reflexivity.
    destruct (getLastRevision _ _) as [r| | |]; simpl; try reflexivity.
    destruct js as [m|]; simpl; try reflexivity.
    destruct s as [b h]. simpl.
    rewrite (bolt_Get_history _ _ [] k'), (bolt_Get_history b h [] k').
    now apply bolt_Get_two_puts.
  - unfold Delete, commit.
    destruct (getLastRevision _ _) as [r| | |]; simpl; try reflexivity.
    destruct s as [b h]. simpl.
    rewrite (bolt_Get_history _ _ [] k'), (bolt_Get_history b h [] k').
    now apply bolt_Get_two_puts.
Qed.

Lemma bolt_writes_leave_other_keys_witness :
  let s := snd (Put MustOpen (new "B" sample_meta "kept")) in
  let t := new "A" sample_meta "hello" in
  Get (snd (Put s t)) "B" = Get s "B" /\ Get (snd (Delete s "A")) "B" = Get s "B".
Proof.
  intros s t. apply (bolt_writes_leave_other_keys s t "A" "B").
  - reflexivity.
  - discriminate.
Defined.

(** X2.  In the BoltDB backend, for a key that has no meta entry yet, [n]
    successive [Put]s of tiddlers whose metas are JSON objects (with no
    member that the field [Revision] would alias) return the revisions 1,
    2, ..., [n], in any state of the rest of the store. *)
Theorem bolt_successive_puts_count_up
  (s : boltStore) (k : string) (ts : list Tiddler) :
  assoc_get (tiddler s) (k ++ "|1") = None ->
  Forall (plain k) ts ->
  (Z.of_nat (List.length ts) <= 9007199254740992)%Z ->
  puts s ts = revisions_from 1 (List.length ts).
Proof.
  intros Habs Hts Hn.
  apply (BoltFacts.bolt_puts_in_a_row k ts Hts s 0%Z); try lia.
  left. split; [reflexivity | exact Habs].
Qed.

Lemma bolt_successive_puts_count_up_witness :
  let s := snd (Put MustOpen (new "B" sample_meta "other")) in
  puts s [new "A" sample_meta "one"; new "A" macro_meta "two";
          new "A" sample_meta "three"]
  = [Ok 1%Z; Ok 2%Z; Ok 3%Z].
Proof.
  intros s.
  apply (bolt_successive_puts_count_up s "A"
           [new "A" sample_meta "one"; new "A" macro_meta "two";
            new "A" sample_meta "three"]).
  - reflexivity.
  - repeat constructor; eexists; (split; [vm_compute; reflexivity | reflexivity]).
  - simpl. lia.
Defined.

Lemma Unmarshal_Revision_empty : exists e, Unmarshal_Revision "" = Err e.
Proof. eexists. vm_compute. reflexivity. Qed.

Lemma bolt_getLastRevision_after_Delete (s s' : boltStore) (k : string) :
  Delete s k = (Ok tt, s') -> getLastRevision (tiddler s') (k ++ "|1") = Ok 1%Z.
Proof.
  intros H. destruct (BoltFacts.bolt_Delete_ok _ _ _ H) as (rev & _ & Hb & _).
  unfold getLastRevision. rewrite Hb.
  rewrite assoc_get_put_other
    by (intros E; symmetry in E; revert E; apply BoltFacts.meta_key_neq_text_key).
  rewrite assoc_get_put_same.
  destruct Unmarshal_Revision_empty as [e ->]. reflexivity.
Qed.

(** X3.  In the BoltDB backend the revisions of a key start again after a
    [Delete]: the next [Put] of the key returns revision 1, whatever the
    revision of the deleted tiddler was, and replaces the history entry of
    the first revision by its own snapshot; a second [Delete] replaces that
    entry by an empty one. *)
Theorem bolt_revisions_restart_after_delete
  (s s1 : boltStore) (t : Tiddler) (m : list (string * json)) :
  Delete s (Key t) = (Ok tt, s1) ->
  Unmarshal (Meta t) = Ok (Some m) ->
  (exists s2,
     Put s1 t = (Ok 1%Z, s2) /\
     assoc_get (tiddler_history s2) (Key t ++ "#1")
     = Some (Marshal (Some (assoc_put (assoc_put m "revision" (JNum 1))
                              "text" (JStr (Text t)))))) /\
  (exists s2,
     Delete s1 (Key t) = (Ok tt, s2) /\
     assoc_get (tiddler_history s2) (Key t ++ "#1") = Some "").
Proof.
  intros Hdel Hm.
  pose proof (bolt_getLastRevision_after_Delete _ _ _ Hdel) as Hrev.
  split; eexists; split.
  - unfold Put, commit. rewrite Hm. simpl. rewrite Hrev. simpl. reflexivity.
  - simpl. apply assoc_get_put_same.
  - unfold Delete, commit. rewrite Hrev. simpl. reflexivity.
  - simpl. apply assoc_get_put_same.
Qed.

Lemma bolt_revisions_restart_after_delete_witness :
  let t := new "A" sample_meta "hello" in
  let s := snd (Put (snd (Put MustOpen t)) t) in
  let s1 := snd (Delete s "A") in
  fst (Put (snd (Put MustOpen t)) t) = Ok 2%Z /\
  (exists s2,
     Put s1 t = (Ok 1%Z, s2) /\
     assoc_get (tiddler_history s2) "A#1"
     = Some (Marshal (Some (assoc_put
                              (assoc_put [("author", JStr "x")] "revision" (JNum 1))
                              "text" (JStr "hello"))))) /\
  (exists s2,
     Delete s1 "A" = (Ok tt, s2) /\
     assoc_get (tiddler_history s2) "A#1" = Some "").
Proof.
  intros t s s1. split; [reflexivity|].
  apply (bolt_revisions_restart_after_delete s s1 t [("author", JStr "x")]).
  - vm_compute. reflexivity.
  - vm_compute. reflexivity.
Defined.

End BoltCoverage.

(** ** More of the SQLite backend *)

Module SqliteCoverage.
Import Json Store Contract Shapes Sqlite.

Lemma find_app_found {A : Type} (f : A -> bool) (l l' : list A) (x : A) :
  find f l = Some x -> find f (l ++ l')%list = Some x.
Proof.
  induction l as [|a l IH]; simpl; [discriminate|].
  destruct (f a); auto.
Qed.

Lemma find_exists {A : Type} (f : A -> bool) (l : list A) (x : A) :
  In x l -> f x = true -> exists y, find f l = Some y.
Proof.
  induction l as [|a l IH]; simpl; [contradiction|].
  intros [->|Hin] Hx.
  - rewrite Hx. eauto.
  - destruct (f a); eauto.
Qed.

(** X4.  In the SQLite backend a [Put] never changes what [Get] answers
    for a key that a row already matches: the new row comes after the old
    ones and [Get] keeps the first match, so the tiddler that [Get] returns
    for a key is the oldest version, not the one just written. *)
Theorem sqlite_get_ignores_later_puts
  (s : sqliteStore) (t x : Tiddler) (k : string) :
  Get s k = Ok x -> Get (snd (Put s t)) k = Ok x.
Proof.
  unfold Put, commit.
  destruct (Unmarshal (Meta t)) as [js| | |]; simpl; auto.
  unfold Get, query_row. simpl.
  destruct (find _ (rows s)) as [r|] eqn:E; [|discriminate].
  intros H. now rewrite (find_app_found _ _ _ _ E).
Qed.

Lemma sqlite_get_ignores_later_puts_witness :
  let title := "{" ++ q "title" ++ ":" ++ q "A" ++ "}" in
  let s := snd (Put MustOpen (new "A" title "first")) in
  Get (snd (Put s (new "A" title "second"))) "A"
  = Ok {| Key := ""; Meta := title; Text := "first"; WithText := true |}.
Proof.
  intros title s.
  apply (sqlite_get_ignores_later_puts s (new "A" title "second")).
  reflexivity.
Defined.

Lemma like_percent_cons (p t : string) :
  like (String "%" p) t
  = like p t || match t with
                | EmptyString => false
                | String _ t' => like (String "%" p) t'
                end.
Proof. destruct t; reflexivity. Qed.

Lemma like_percent (t : string) : like "%" t = true.
Proof.
  induction t as [|c t IH]; [reflexivity|].
  rewrite like_percent_cons, IH. apply orb_true_r.
Qed.

Lemma like_prefix (k t : string) :
  has_prefix k t = true -> like (k ++ "%") t = true.
Proof.
  revert t. induction k as [|p k IH]; intros t H.
  - apply like_percent.
  - destruct t as [|c t]; [discriminate|]. simpl in H.
    apply andb_prop in H. destruct H as [Hpc H].
    apply Ascii.eqb_eq in Hpc. subst c.
    change (String p k ++ "%") with (String p (k ++ "%")).
    destruct (Ascii.eqb p "%") eqn:Hp.
    + apply Ascii.eqb_eq in Hp. subst p.
      rewrite like_percent_cons.
      replace (like (String "%" (k ++ "%")) t) with true;
        [apply orb_true_r|].
      symmetry. rewrite like_percent_cons, (IH _ H). reflexivity.
    + simpl. rewrite Hp.
      destruct (Ascii.eqb p "_") eqn:Hu.
      * apply Ascii.eqb_eq in Hu. subst p. apply (IH _ H).
      * rewrite N.eqb_refl. apply (IH _ H).
Qed.

Lemma like_contains (k t : string) :
  contains t k = true -> like ("%" ++ k ++ "%") t = true.
Proof.
  change ("%" ++ k ++ "%") with (String "%" (k ++ "%")).
  induction t as [|c t IH]; intros H; rewrite like_percent_cons.
  - simpl in H. rewrite orb_false_r in H. now rewrite (like_prefix _ _ H).
  - simpl in H. apply orb_prop in H. destruct H as [H|H].
    + change (has_prefix k (String c t) = true) in H.
      now rewrite (like_prefix _ _ H).
    + rewrite (IH H). apply orb_true_r.
Qed.

(** X5.  In the SQLite backend [Get] looks the key up as a substring of
    the meta column: as soon as the meta of some row holds the bytes of the
    key anywhere, as a title or inside any other member, [Get] answers a
    tiddler and no error.  (For a key and a meta that are well-formed UTF-8
    without a zero byte.) *)
Theorem sqlite_get_matches_any_substring
  (s : sqliteStore) (k : string) (r : row) :
  sql_text k = true -> sql_text (meta r) = true ->
  In r (rows s) -> contains (meta r) k = true ->
  exists t, Get s k = Ok t.
Proof.
  intros _ _ Hin Hk. unfold Get, query_row.
  destruct (find_exists (fun r => like ("%" ++ k ++ "%") (meta r)) _ r Hin
              (like_contains _ _ Hk)) as [y ->].
  eauto.
Qed.

Lemma sqlite_get_matches_any_substring_witness :
  exists t, Get (snd (Put MustOpen (new "A" sample_meta "hello"))) "utho" = Ok t.
Proof.
  apply (sqlite_get_matches_any_substring
           (snd (Put MustOpen (new "A" sample_meta "hello"))) "utho"
           {| id := 1; meta := sample_meta; content := "hello"; revision := 0 |}).
  - reflexivity.
  - reflexivity.
  - left. reflexivity.
  - reflexivity.
Defined.

(** X6.  In the SQLite backend every successful [Put] makes the list of
    [All] one tiddler longer: the tiddler just written comes last and
    every tiddler listed before, earlier versions of the same key included,
    stays listed. *)
Theorem sqlite_all_keeps_every_version
  (s s' : sqliteStore) (t : Tiddler) (rev : Z) :
  Put s t = (Ok rev, s') ->
  All s' = (l <- All s ;; Ok (l ++ [listed (Meta t) (Text t)])%list).
Proof.
  intros H. unfold All. rewrite (SqliteFacts.sqlite_Put_ok _ _ _ _ H).
  simpl. now rewrite map_app.
Qed.

Lemma sqlite_all_keeps_every_version_witness :
  let s := snd (Put MustOpen (new "A" sample_meta "one")) in
  All (snd (Put s (new "A" sample_meta "two")))
  = (l <- All s ;; Ok (l ++ [listed sample_meta "two"])%list).
Proof.
  intros s.
  apply (sqlite_all_keeps_every_version s _ (new "A" sample_meta "two") 0%Z).
  reflexivity.
Defined.

Lemma like_wildcard_free_length (p t : string) :
  wildcard_free p = true -> like p t = true ->
  String.length p = String.length t.
Proof.
  revert t. induction p as [|c p IH]; intros t Hp H.
  - destruct t; [reflexivity | discriminate].
  - unfold wildcard_free in Hp. simpl in Hp.
    apply andb_prop in Hp. destruct Hp as [Hc Hp].
    apply negb_true_iff, orb_false_elim in Hc. destruct Hc as [Hc1 Hc2].
    simpl in H. rewrite Hc1 in H.
    destruct t as [|d t]; [discriminate|]. rewrite Hc2 in H.
    apply andb_prop in H. destruct H as [_ H].
    simpl. f_equal. now apply IH.
Qed.

(** X7.  In the SQLite backend [Delete] compares the key with the whole
    meta column: after a successful [Put] of a tiddler whose key holds no
    wildcard and is not as long as its meta, [Delete] of that key returns
    nil and leaves the row in the table, and [All] goes on listing the
    tiddler.  (For a key and a meta that are well-formed UTF-8 without a
    zero byte.) *)
Theorem sqlite_delete_leaves_the_tiddler
  (s s' : sqliteStore) (t : Tiddler) (rev : Z) :
  Put s t = (Ok rev, s') ->
  sql_text (Key t) = true -> sql_text (Meta t) = true ->
  wildcard_free (Key t) = true ->
  String.length (Key t) <> String.length (Meta t) ->
  fst (Delete s' (Key t)) = Ok tt /\
  In {| id := next_id s; meta := Meta t; content := Text t; revision := rev |}
    (rows (snd (Delete s' (Key t)))) /\
  exists l,
    All (snd (Delete s' (Key t))) = Ok l /\ In (listed (Meta t) (Text t)) l.
Proof.
  intros Hput _ _ Hw Hlen.
  pose proof (SqliteFacts.sqlite_Put_ok _ _ _ _ Hput) as Hrows.
  assert (Hno : like (Key t) (Meta t) = false).
  { destruct (like (Key t) (Meta t)) eqn:E; [|reflexivity].
    apply (like_wildcard_free_length _ _ Hw) in E. contradiction. }
  assert (Hin : In {| id := next_id s; meta := Meta t; content := Text t;
                      revision := rev |}
                  (rows (snd (Delete s' (Key t))))).
  { simpl. rewrite Hrows, filter_app. apply in_or_app. right.
    simpl. rewrite Hno. now left. }
  split; [reflexivity|]. split; [exact Hin|].
  eexists. split; [reflexivity|].
  apply (in_map (fun r => listed (meta r) (content r))) in Hin. exact Hin.
Qed.

Lemma sqlite_delete_leaves_the_tiddler_witness :
  let t := new "A" sample_meta "hello" in
  let s' := snd (Put MustOpen t) in
  fst (Delete s' "A") = Ok tt /\
  In {| id := 1; meta := sample_meta; content := "hello"; revision := 0 |}
    (rows (snd (Delete s' "A"))) /\
  exists l, All (snd (Delete s' "A")) = Ok l /\ In (listed sample_meta "hello") l.
Proof.
  intros t s'.
  apply (sqlite_delete_leaves_the_tiddler MustOpen s' t 0%Z).
  - reflexivity.
  - reflexivity.
  - reflexivity.
  - reflexivity.
  - vm_compute. discriminate.
Defined.

End SqliteCoverage.

(** ** More of the flat-file backend *)

Module FlatFileCoverage.
Import Json Store Contract Shapes FlatFile.

(** Decimal numerals. *)

Lemma print_uint_length (d : Decimal.uint) :
  String.length (print_uint d) = Decimal.nb_digits d.
Proof. induction d; simpl; congruence. Qed.

Lemma of_uint_acc_lower (d : Decimal.uint) (acc : positive) :
  (Zpos acc * 10 ^ Z.of_nat (Decimal.nb_digits d)
   <= Zpos (Pos.of_uint_acc d acc))%Z.
Proof.
  revert acc.
  induction d as [|d IH|d IH|d IH|d IH|d IH|d IH|d IH|d IH|d IH|d IH];
    intros acc; cbn [Decimal.nb_digits Pos.of_uint_acc];
    [simpl; lia| ..];
    (rewrite Nat2Z.inj_succ, Z.pow_succ_r by lia;
     eapply Z.le_trans; [|apply IH];
     assert (0 < 10 ^ Z.of_nat (Decimal.nb_digits d))%Z
       by (apply Z.pow_pos_nonneg; lia);
     nia).
Qed.

Lemma to_uint_lower (p : positive) :
  (10 ^ Z.of_nat (Decimal.nb_digits (Pos.to_uint p) - 1) <= Zpos p)%Z.
Proof.
  pose proof (JsonFacts.of_pos_uint p) as H.
  pose proof (JsonFacts.pos_uint_head p) as Hh.
  destruct (Pos.to_uint p) as [|d|d|d|d|d|d|d|d|d|d]; try contradiction;
    cbn [Decimal.nb_digits]; rewrite Nat.sub_succ, Nat.sub_0_r;
    cbn [N.of_uint Pos.of_uint] in H; injection H as <-;
    (eapply Z.le_trans; [|apply of_uint_acc_lower]);
    assert (0 < 10 ^ Z.of_nat (Decimal.nb_digits d))%Z
      by (apply Z.pow_pos_nonneg; lia);
    nia.
Qed.

Lemma itoa_short (j : Z) :
  (0 <= j < 10 ^ 18)%Z -> (String.length (itoa j) < 19)%nat.
Proof.
  intros Hj. destruct j as [|p|p]; [simpl; lia | | lia].
  simpl. rewrite print_uint_length.
  destruct (Nat.lt_ge_cases (Decimal.nb_digits (Pos.to_uint p)) 19) as [H|H];
    [exact H|].
  pose proof (to_uint_lower p) as Hp.
  assert (10 ^ 18 <= 10 ^ Z.of_nat (Decimal.nb_digits (Pos.to_uint p) - 1))%Z
    by (apply Z.pow_le_mono_r; lia).
  lia.
Qed.


Lemma atoi_unsigned (s : string) :
  (String.length s < 19)%nat ->
  match s with
  | String c _ => Ascii.eqb c "-" = false /\ Ascii.eqb c "+" = false
  | EmptyString => True
  end ->
  atoi s = match read_digits s with
           | (Decimal.Nil, _) => Ok 0%Z
           | (d, EmptyString) => Ok (Z.of_N (N.of_uint d))
           | (_, String _ _) => Ok 0%Z
           end.
Proof.
  intros Hlen Hc. unfold atoi.
  destruct (19 <=? String.length s)%nat eqn:E;
    [apply Nat.leb_le in E; lia|].
  destruct s as [|c s]; [reflexivity|].
  destruct Hc as [-> ->]. reflexivity.
Qed.

Lemma print_uint_head (d : Decimal.uint) :
  match print_uint d with
  | String c _ =>
      Ascii.eqb c "-" = false /\ Ascii.eqb c "+" = false /\ is_digit c = true
  | EmptyString => d = Decimal.Nil
  end.
Proof. destruct d; simpl; auto. Qed.

Lemma atoi_print_uint (d : Decimal.uint) :
  d <> Decimal.Nil -> (String.length (print_uint d) < 19)%nat ->
  atoi (print_uint d) = Ok (Z.of_N (N.of_uint d)).
Proof.
  intros Hd Hlen. rewrite atoi_unsigned; [|exact Hlen|].
  - rewrite <- (JsonFacts.append_nil_r (print_uint d)).
    rewrite JsonFacts.read_print_uint by reflexivity.
    destruct d; [contradiction| ..]; reflexivity.
  - pose proof (print_uint_head d) as H.
    destruct (print_uint d); [exact I | tauto].
Qed.

(** [Atoi] reads back what [Itoa] wrote. *)
Lemma atoi_itoa (j : Z) :
  (0 <= j)%Z -> (String.length (itoa j) < 19)%nat -> atoi (itoa j) = Ok j.
Proof.
  intros Hj Hlen. destruct j as [|p|p]; [reflexivity | | lia].
  simpl in *. rewrite atoi_print_uint; auto.
  - now rewrite JsonFacts.of_pos_uint.
  - pose proof (JsonFacts.pos_uint_head p) as H.
    destruct (Pos.to_uint p); [contradiction | ..]; discriminate.
Qed.

Lemma atoi_itoa_cases (j j' : Z) :
  (0 <= j)%Z -> atoi (itoa j) = Ok j' -> j' = j.
Proof.
  intros Hj H.
  destruct (Nat.lt_ge_cases (String.length (itoa j)) 19) as [Hl|Hl].
  - rewrite (atoi_itoa _ Hj Hl) in H. now injection H.
  - unfold atoi in H. apply Nat.leb_le in Hl. rewrite Hl in H. discriminate.
Qed.

Lemma itoa_head (j : Z) :
  (0 <= j)%Z ->
  exists c r, itoa j = String c r /\ is_digit c = true.
Proof.
  intros Hj. destruct j as [|p|p]; [do 2 eexists; split; reflexivity | | lia].
  simpl. pose proof (print_uint_head (Pos.to_uint p)) as H.
  pose proof (JsonFacts.pos_uint_head p) as Hh.
  destruct (print_uint (Pos.to_uint p)) as [|c r].
  - rewrite H in Hh. contradiction.
  - exists c, r. tauto.
Qed.

Lemma print_uint_hash_free (d : Decimal.uint) : hash_free (print_uint d) = true.
Proof. induction d; simpl; auto. Qed.

Lemma itoa_hash_free (j : Z) : hash_free (itoa j) = true.
Proof.
  destruct j as [|p|p];
    [reflexivity | apply print_uint_hash_free
    | exact (print_uint_hash_free (Pos.to_uint p))].
Qed.

Lemma hash_free_app (a b : string) :
  hash_free a = true -> hash_free b = true -> hash_free (a ++ b) = true.
Proof.
  intros Ha Hb. induction a as [|c a IH]; [exact Hb|].
  unfold hash_free in *. simpl in *.
  apply andb_prop in Ha. destruct Ha as [-> Ha]. now apply IH.
Qed.

Lemma until_hash_free (r : string) : hash_free r = true -> until_hash r = r.
Proof.
  induction r as [|c r IH]; [reflexivity|].
  unfold hash_free. simpl. intros H. apply andb_prop in H.
  destruct H as [Hc H]. apply negb_true_iff in Hc. rewrite Hc.
  f_equal. now apply IH.
Qed.

Lemma second_part_app (p r : string) :
  hash_free p = true -> second_part (p ++ "#" ++ r) = until_hash r.
Proof.
  induction p as [|c p IH]; [reflexivity|].
  unfold hash_free. simpl. intros H. apply andb_prop in H.
  destruct H as [Hc H]. apply negb_true_iff in Hc. rewrite Hc.
  now apply IH.
Qed.

(** The revision that [getLastRevision] reads in the name of the history
    file of a key at a revision. *)
Lemma second_part_history (k : string) (j : Z) :
  hash_free k = true -> second_part (k ++ "#" ++ itoa j) = itoa j.
Proof.
  intros Hk. rewrite second_part_app by exact Hk.
  apply until_hash_free, itoa_hash_free.
Qed.

Lemma match_rev_unfold (key name : string) :
  match_rev key name
  = (has_prefix (key ++ "#") name
     && match Json.drop (String.length key + 1) name with
        | String d _ => is_digit d
        | EmptyString => false
        end)
    || match name with
       | EmptyString => false
       | String _ name' => match_rev key name'
       end.
Proof. destruct name; reflexivity. Qed.

Lemma has_prefix_app (a b : string) : has_prefix a (a ++ b) = true.
Proof.
  induction a as [|c a IH]; [reflexivity|].
  simpl. now rewrite Ascii.eqb_refl.
Qed.

Lemma drop_app (a b : string) : Json.drop (String.length a) (a ++ b) = b.
Proof. induction a as [|c a IH]; [reflexivity | exact IH]. Qed.

Lemma match_rev_here (k r : string) (c : ascii) :
  is_digit c = true -> match_rev k (k ++ "#" ++ String c r) = true.
Proof.
  intros Hc. rewrite match_rev_unfold.
  rewrite <- append_assoc, has_prefix_app.
  replace (String.length k + 1)%nat with (String.length (k ++ "#"))
    by (rewrite JsonFacts.length_app; reflexivity).
  rewrite drop_app, Hc. reflexivity.
Qed.

Lemma match_rev_skip (k p name : string) :
  match_rev k name = true -> match_rev k (p ++ name) = true.
Proof.
  intros H. induction p as [|c p IH]; [exact H|].
  change (String c p ++ name) with (String c (p ++ name)).
  rewrite match_rev_unfold, IH. apply orb_true_r.
Qed.

Lemma match_rev_history (k p : string) (j : Z) :
  (0 <= j)%Z -> match_rev k (p ++ k ++ "#" ++ itoa j) = true.
Proof.
  intros Hj. destruct (itoa_head j Hj) as (c & r & -> & Hc).
  apply match_rev_skip, match_rev_here, Hc.
Qed.

Lemma highest_ge (l : list string) (h0 h : Z) :
  highest l h0 = Ok h ->
  (h0 <= h)%Z /\
  forall f, In f l ->
    exists j, atoi (second_part f) = Ok j /\ (j <= h)%Z.
Proof.
  revert h0. induction l as [|f l IH]; intros h0 H; simpl in H.
  - injection H as <-. split; [lia | contradiction].
  - destruct (atoi (second_part f)) as [rev| | |] eqn:E; simpl in H;
      try discriminate.
    apply IH in H. destruct H as [Hle Hall].
    destruct (h0 <? rev)%Z eqn:Hlt;
      [apply Z.ltb_lt in Hlt | apply Z.ltb_ge in Hlt];
      (split; [lia|]; intros f' [<-|Hin];
       [exists rev; split; [exact E | lia] | now apply Hall]).
Qed.

Lemma highest_exact (l : list string) (h0 i : Z) :
  Forall (fun f => exists j, atoi (second_part f) = Ok j /\ (j <= i)%Z) l ->
  (h0 <= i)%Z ->
  h0 = i \/ (exists f, In f l /\ atoi (second_part f) = Ok i) ->
  highest l h0 = Ok i.
Proof.
  intros Hall. revert h0. induction Hall as [|f l (j & Hj & Hji) Hall IH];
    intros h0 Hle Hmax; simpl.
  - destruct Hmax as [->|(f & [] & _)]. reflexivity.
  - rewrite Hj. simpl. apply IH.
    + destruct (h0 <? j)%Z; lia.
    + destruct Hmax as [->|(f' & [<-|Hin] & Hf')].
      * left. destruct (i <? j)%Z eqn:E; [apply Z.ltb_lt in E; lia | reflexivity].
      * left. rewrite Hj in Hf'. injection Hf' as ->.
        destruct (h0 <? i)%Z eqn:E; [reflexivity | apply Z.ltb_ge in E; lia].
      * right. exists f'. auto.
Qed.

Section Lookup.
Context {V : Type}.

Lemma assoc_get_In (m : list (string * V)) (k : string) (v : V) :
  assoc_get m k = Some v -> In (k, v) m.
Proof.
  induction m as [|[k' v'] m IH]; simpl; [discriminate|].
  destruct (String.eqb k k') eqn:E.
  - apply String.eqb_eq in E. subst k'. intros H. injection H as ->. now left.
  - intros H. right. now apply IH.
Qed.

Lemma assoc_get_name (m : list (string * V)) (k : string) :
  assoc_get m k <> None -> In k (map fst m).
Proof.
  destruct (assoc_get m k) as [v|] eqn:E; [|contradiction].
  intros _. apply assoc_get_In in E.
  now apply (in_map fst) in E.
Qed.

Lemma In_assoc_get (m : list (string * V)) (k : string) :
  In k (map fst m) -> assoc_get m k <> None.
Proof.
  induction m as [|[k' v'] m IH]; simpl; [contradiction|].
  destruct (String.eqb k k') eqn:E; [discriminate|].
  intros [->|H]; [|now apply IH].
  now rewrite String.eqb_refl in E.
Qed.

End Lookup.

(** What [getLastRevision] answers is above the number in the name of
    every history file that the pattern of the key selects. *)
Lemma flat_revision_above (s : flatFileStore) (k p : string) (rev j : Z) :
  getLastRevision s k = Ok rev ->
  hash_free p = true -> hash_free k = true -> (0 <= j)%Z ->
  assoc_get (tiddlerHistory s) (p ++ k ++ "#" ++ itoa j) <> None ->
  (0 < rev /\ j < rev)%Z.
Proof.
  unfold getLastRevision. intros H Hp Hk Hj Hfile.
  destruct (regexp_ok k); [|discriminate].
  destruct (highest _ 0%Z) as [h| | |] eqn:E; simpl in H; try discriminate.
  injection H as <-. apply highest_ge in E. destruct E as [Hh Hall].
  destruct (Hall (p ++ k ++ "#" ++ itoa j)) as (j' & Hj' & Hle).
  { apply filter_In. split.
    - now apply assoc_get_name.
    - now apply match_rev_history. }
  rewrite <- append_assoc, second_part_history in Hj'
    by now apply hash_free_app.
  apply atoi_itoa_cases in Hj'; [|exact Hj]. lia.
Qed.

Lemma flat_Put_ok (s s' : flatFileStore) (t : Tiddler) (rev : Z) :
  Put s t = (Ok rev, s') ->
  exists js,
    Unmarshal (Meta t) = Ok js /\ path_ok (Key t) = true /\
    getLastRevision s (Key t) = Ok rev /\
    s' = {| tiddlers := assoc_put (assoc_put (tiddlers s) (Key t ++ ".tid") (Text t))
                          (Key t ++ ".meta") (Meta t);
            tiddlerHistory := assoc_put (tiddlerHistory s)
                                (Key t ++ "#" ++ itoa rev) (Marshal js);
            cwd := cwd s |}.
Proof.
  unfold Put, commit.
  destruct (Unmarshal (Meta t)) as [js| | |]; simpl; try discriminate.
  destruct (path_ok (Key t)) eqn:Hp; simpl; try discriminate.
  destruct (getLastRevision _ _) as [r| | |]; simpl; try discriminate.
  intros H. injection H as <- <-. exists js. auto.
Qed.

Lemma flat_files_apart (k k' : string) :
  k' <> k ->
  k' ++ ".tid" <> k ++ ".tid" /\ k' ++ ".tid" <> k ++ ".meta" /\
  k' ++ ".meta" <> k ++ ".tid" /\ k' ++ ".meta" <> k ++ ".meta".
Proof.
  intros H. repeat split; intros E.
  - apply append_inj_r in E. contradiction.
  - change (k' ++ ".ti" ++ "d" = k ++ ".met" ++ "a") in E.
    rewrite <- !append_assoc in E. revert E. now apply append_last_neq.
  - change (k' ++ ".met" ++ "a" = k ++ ".ti" ++ "d") in E.
    rewrite <- !append_assoc in E. revert E. now apply append_last_neq.
  - apply append_inj_r in E. contradiction.
Qed.

(** X8.  In the flat-file backend, for keys without a path separator
    (or zero byte), a [Put] or a [Delete] of one key, whether it succeeds
    or fails with an error, leaves what [Get] answers for every other key as
    it was.  (For [Put], a key without regular-expression metacharacter, a
    meta whose numbers are integers of magnitude at most 2^53 and history
    files whose numbers have less than 19 digits.) *)
Theorem flat_writes_leave_other_keys
  (s : flatFileStore) (t : Tiddler) (k k' : string) :
  path_ok k = true -> path_ok k' = true -> k' <> k ->
  (Key t = k -> regexp_ok k = true -> fst (Put s t) <> Unmodelled ->
   Get (snd (Put s t)) k' = Get s k') /\
  Get (snd (Delete s k)) k' = Get s k'.
Proof.
  intros _ _ Hk. destruct (flat_files_apart _ _ Hk) as (H1 & H2 & H3 & H4).
  split.
  - intros <- _ _. unfold Put, commit.
    destruct (Unmarshal (Meta t)) as [js| | |]; simpl; try reflexivity.
    destruct (path_ok (Key t)); simpl; try reflexivity.
    destruct (getLastRevision _ _) as [r| | |]; simpl; try reflexivity.
    unfold Get. simpl. now rewrite !assoc_get_put_other by assumption.
  - unfold Delete.
    destruct (path_ok k); [|reflexivity].
    destruct (assoc_get (tiddlers s) (k ++ ".tid")); [|reflexivity].
    destruct (assoc_get _ (k ++ ".meta")); simpl; unfold Get; simpl;
      now rewrite !assoc_get_remove_other by assumption.
Qed.

Lemma flat_writes_leave_other_keys_witness :
  let s := snd (Put (MustOpen []) (new "B" sample_meta "kept")) in
  let t := new "A" sample_meta "hello" in
  Get (snd (Put s t)) "B" = Get s "B" /\ Get (snd (Delete s "A")) "B" = Get s "B".
Proof.
  intros s t.
  destruct (flat_writes_leave_other_keys s t "A" "B") as [Hput Hdel].
  - reflexivity.
  - reflexivity.
  - discriminate.
  - split; [|exact Hdel]. apply Hput.
    + reflexivity.
    + reflexivity.
    + vm_compute. discriminate.
Defined.

(** X9.  In the flat-file backend, for a key without path separator,
    regular-expression metacharacter or [#], the revision that a successful
    [Put] returns is at least 1 and above the number of every history file
    whose name ends with the key, a [#] and that number: the files of the
    key itself and also those of any other title that ends with the key.
    (For a meta whose numbers are integers of magnitude at most
    2^53 and history files whose numbers have less than 19 digits.) *)
Theorem flat_revision_exceeds_every_suffix_match
  (s s' : flatFileStore) (t : Tiddler) (rev : Z) (p : string) (j : Z) :
  path_ok (Key t) = true -> regexp_ok (Key t) = true ->
  hash_free (Key t) = true -> hash_free p = true ->
  Put s t = (Ok rev, s') -> (0 <= j)%Z ->
  assoc_get (tiddlerHistory s) (p ++ Key t ++ "#" ++ itoa j) <> None ->
  (1 <= rev /\ j < rev)%Z.
Proof.
  intros _ _ Hk Hp Hput Hj Hfile.
  destruct (flat_Put_ok _ _ _ _ Hput) as (js & _ & _ & Hrev & _).
  pose proof (flat_revision_above s (Key t) p rev j Hrev Hp Hk Hj Hfile).
  lia.
Qed.

Lemma flat_revision_exceeds_every_suffix_match_witness :
  let other := new "ba" sample_meta "x" in
  let s := snd (Put (snd (Put (MustOpen []) other)) other) in
  fst (Put s (new "a" sample_meta "y")) = Ok 3%Z /\
  assoc_get (tiddlerHistory s) "ba#2" <> None /\
  (1 <= 3 /\ 2 < 3)%Z.
Proof.
  intros other s.
  split; [reflexivity|]. split; [vm_compute; discriminate|].
  apply (flat_revision_exceeds_every_suffix_match s
           (snd (Put s (new "a" sample_meta "y")))
           (new "a" sample_meta "y") 3%Z "b" 2%Z).
  - reflexivity.
  - reflexivity.
  - reflexivity.
  - reflexivity.
  - vm_compute. reflexivity.
  - lia.
  - vm_compute. discriminate.
Defined.

(** The history file that a successful [Put] of a key without [#] writes
    is a new one. *)
Lemma flat_Put_appends (s s' : flatFileStore) (t : Tiddler) (rev : Z) :
  Put s t = (Ok rev, s') -> hash_free (Key t) = true ->
  appends_entry (tiddlerHistory s) (tiddlerHistory s') (history_key (Key t) rev).
Proof.
  intros Hput Hk.
  destruct (flat_Put_ok _ _ _ _ Hput) as (js & _ & _ & Hrev & ->).
  unfold appends_entry, history_key. cbn [tiddlerHistory]. split; [|split].
  - destruct (assoc_get (tiddlerHistory s) (Key t ++ "#" ++ itoa rev)) eqn:E;
      [|reflexivity].
    assert (Hpos : (0 < rev)%Z).
    { unfold getLastRevision in Hrev. destruct (regexp_ok (Key t)); [|discriminate].
      destruct (highest _ 0%Z) as [h| | |] eqn:Eh; simpl in Hrev; try discriminate.
      injection Hrev as <-. apply highest_ge in Eh. lia. }
    assert (rev < rev)%Z; [|lia].
    apply (flat_revision_above s (Key t) "" rev rev Hrev); auto; try lia.
    change (assoc_get (tiddlerHistory s) (Key t ++ "#" ++ itoa rev) <> None).
    rewrite E. discriminate.
  - rewrite assoc_get_put_same. discriminate.
  - intros k' Hk'. now apply assoc_get_put_other.
Qed.

(** X10.  In the flat-file backend a successful [Put] of a key without
    path separator, regular-expression metacharacter or [#] never
    overwrites a history file: the file of the key at the revision it
    returns did not exist, it exists afterwards, and every other history
    file is as it was.  (For a meta whose numbers are integers of magnitude at most
    2^53 and history files whose numbers have less than 19 digits.) *)
Theorem flat_put_appends_a_history_file
  (s s' : flatFileStore) (t : Tiddler) (rev : Z) :
  path_ok (Key t) = true -> regexp_ok (Key t) = true ->
  hash_free (Key t) = true ->
  Put s t = (Ok rev, s') ->
  appends_entry (tiddlerHistory s) (tiddlerHistory s') (history_key (Key t) rev).
Proof.
  intros _ _ Hk Hput. now apply flat_Put_appends.
Qed.

Lemma flat_put_appends_a_history_file_witness :
  let t := new "A" sample_meta "hello" in
  let s := snd (Put (MustOpen []) t) in
  appends_entry (tiddlerHistory s) (tiddlerHistory (snd (Put s t))) "A#2".
Proof.
  intros t s.
  apply (flat_put_appends_a_history_file s (snd (Put s t)) t 2%Z).
  - reflexivity.
  - reflexivity.
  - reflexivity.
  - vm_compute. reflexivity.
Defined.

Lemma flat_Put_counted (s : flatFileStore) (t : Tiddler) (k : string) (i : Z)
  (js : gomap) :
  path_ok k = true -> regexp_ok k = true -> hash_free k = true ->
  flat_counted s k i -> (0 <= i < 10 ^ 18 - 1)%Z ->
  Key t = k -> Unmarshal (Meta t) = Ok js ->
  exists s', Put s t = (Ok (i + 1)%Z, s') /\ flat_counted s' k (i + 1)%Z.
Proof.
  intros Hp Hr Hk [Hall Hlast] Hi <- Hjs.
  assert (Hread : forall j, (1 <= j <= i)%Z ->
            atoi (second_part (Key t ++ "#" ++ itoa j)) = Ok j).
  { intros j Hj. rewrite second_part_history by exact Hk.
    apply atoi_itoa; [lia | apply itoa_short; lia]. }
  assert (Hrev : getLastRevision s (Key t) = Ok (i + 1)%Z).
  { unfold getLastRevision. rewrite Hr.
    rewrite (highest_exact _ 0%Z i); [reflexivity | | lia |].
    - apply Forall_forall. intros f Hf. apply filter_In in Hf.
      destruct Hf as [Hf _]. destruct (Hall f Hf) as (j & Hj & ->).
      exists j. split; [now apply Hread | lia].
    - destruct Hlast as [->|Hin]; [now left|].
      destruct (Hall _ Hin) as (j & Hj & _).
      right. exists (Key t ++ "#" ++ itoa i). split.
      + apply filter_In. split; [exact Hin|].
        apply (match_rev_history (Key t) ""). lia.
      + apply Hread. lia. }
  eexists. split.
  - unfold Put, commit. rewrite Hjs. simpl. rewrite Hp, Hrev. simpl. reflexivity.
  - split; cbn [tiddlerHistory].
    + intros name Hin. apply In_assoc_get in Hin.
      destruct (String.eqb name (Key t ++ "#" ++ itoa (i + 1))) eqn:E.
      * apply String.eqb_eq in E. exists (i + 1)%Z. split; [lia | exact E].
      * apply String.eqb_neq in E. rewrite assoc_get_put_other in Hin by exact E.
        apply assoc_get_name in Hin. destruct (Hall _ Hin) as (j & Hj & ->).
        exists j. split; [lia | reflexivity].
    + right. apply assoc_get_name. rewrite assoc_get_put_same. discriminate.
Qed.

Lemma flat_puts_in_a_row (k : string) (ts : list Tiddler) :
  path_ok k = true -> regexp_ok k = true -> hash_free k = true ->
  Forall (fun t => Key t = k /\ exists js, Unmarshal (Meta t) = Ok js) ts ->
  forall s i, flat_counted s k i -> (0 <= i)%Z ->
    (i + Z.of_nat (List.length ts) < 10 ^ 18)%Z ->
    puts s ts = revisions_from (i + 1) (List.length ts).
Proof.
  intros Hp Hr Hk.
  induction 1 as [|t ts [Ht [js Hjs]] Hts IH]; intros s i Hs Hi Hbound;
    [reflexivity|].
  simpl List.length in Hbound.
  destruct (flat_Put_counted s t k i js Hp Hr Hk Hs) as (s' & Hput & Hs');
    auto; try lia.
  simpl. rewrite Hput. f_equal. apply IH; auto; lia.
Qed.

(** X11.  In the flat-file backend, on a store whose history directory is
    empty, [n] successive [Put]s of one key (a key without path separator,
    regular-expression metacharacter or [#]) whose metas [json.Unmarshal]
    accepts return the revisions 1, 2, ..., [n]. *)
Theorem flat_successive_puts_count_up
  (s : flatFileStore) (k : string) (ts : list Tiddler) :
  path_ok k = true -> regexp_ok k = true -> hash_free k = true ->
  tiddlerHistory s = [] ->
  Forall (fun t => Key t = k /\ exists js, Unmarshal (Meta t) = Ok js) ts ->
  (Z.of_nat (List.length ts) < 10 ^ 18)%Z ->
  puts s ts = revisions_from 1 (List.length ts).
Proof.
  intros Hp Hr Hk Hh Hts Hn.
  apply (flat_puts_in_a_row k ts Hp Hr Hk Hts s 0%Z); try lia.
  split; [|now left]. rewrite Hh. intros name [].
Qed.

Lemma flat_successive_puts_count_up_witness :
  puts (MustOpen [])
    [new "A" sample_meta "one"; new "A" macro_meta "two";
     new "A" sample_meta "three"]
  = [Ok 1%Z; Ok 2%Z; Ok 3%Z].
Proof.
  apply (flat_successive_puts_count_up (MustOpen []) "A"
           [new "A" sample_meta "one"; new "A" macro_meta "two";
            new "A" sample_meta "three"]).
  - reflexivity.
  - reflexivity.
  - reflexivity.
  - reflexivity.
  - repeat constructor; eexists; vm_compute; reflexivity.
  - simpl. lia.
Defined.

Lemma getLastRevision_history (s1 s2 : flatFileStore) (k : string) :
  tiddlerHistory s1 = tiddlerHistory s2 ->
  getLastRevision s1 k = getLastRevision s2 k.
Proof. unfold getLastRevision. now intros ->. Qed.

Lemma flat_Put_after_Delete (s : flatFileStore) (k : string) (t : Tiddler) :
  fst (Put (snd (Delete s k)) t) = fst (Put s t).
Proof.
  pose proof (FlatFileFacts.flat_Delete_history s k) as H.
  unfold Put, commit.
  destruct (Unmarshal (Meta t)) as [js| | |]; simpl; try reflexivity.
  destruct (path_ok (Key t)); simpl; try reflexivity.
  rewrite (getLastRevision_history _ s (Key t) H).
  destruct (getLastRevision s (Key t)); reflexivity.
Qed.

(** X12.  In the flat-file backend the revisions of a key go on after a
    [Delete]: a [Delete] of a key without path separator (or zero byte)
    leaves the history directory alone, so a [Put] after it returns what
    it would have returned without the [Delete], a revision or an error.
    (For a [Put] of a key without path separator or regular-expression
    metacharacter and of a meta whose numbers are integers of magnitude at
    most 2^53, the history files having numbers of less than 19 digits.) *)
Theorem flat_revisions_survive_delete
  (s : flatFileStore) (k : string) (t : Tiddler) :
  path_ok k = true -> fst (Put s t) <> Unmodelled ->
  fst (Put (snd (Delete s k)) t) = fst (Put s t).
Proof. intros _ _. apply flat_Put_after_Delete. Qed.

Lemma flat_revisions_survive_delete_witness :
  let t := new "A" sample_meta "hello" in
  let s := snd (Put (MustOpen []) t) in
  fst (Put (snd (Delete s "A")) t) = fst (Put s t).
Proof.
  intros t s. apply (flat_revisions_survive_delete s "A" t).
  - reflexivity.
  - vm_compute. discriminate.
Defined.

Lemma has_prefix_app_r (p a b : string) :
  has_prefix p a = true -> has_prefix p (a ++ b) = true.
Proof.
  revert a. induction p as [|c p IH]; intros a H; [reflexivity|].
  destruct a as [|d a]; [discriminate|]. simpl in *.
  apply andb_prop in H. destruct H as [-> H]. now apply IH.
Qed.

Lemma match_dot_meta_app (a b : string) :
  match_dot_meta a = true -> match_dot_meta (a ++ b) = true.
Proof.
  induction a as [|c a IH]; [discriminate|].
  cbn [match_dot_meta append]. intros H.
  apply orb_prop in H. destruct H as [H|H].
  - apply andb_prop in H. destruct H as [-> H].
    now rewrite (has_prefix_app_r _ _ b H).
  - rewrite (IH H). apply orb_true_r.
Qed.

Lemma match_dot_meta_suffix (k : string) : match_dot_meta (k ++ ".meta") = true.
Proof.
  induction k as [|c k IH]; [reflexivity|].
  change (String c k ++ ".meta") with (String c (k ++ ".meta")).
  cbn [match_dot_meta]. rewrite IH. apply orb_true_r.
Qed.

Lemma has_dot_app (k e : string) : has_dot (k ++ "." ++ e) = true.
Proof.
  induction k as [|c k IH]; [reflexivity|].
  change (String c k ++ "." ++ e) with (String c (k ++ "." ++ e)).
  cbn [has_dot]. rewrite IH. apply orb_true_r.
Qed.

Lemma strip_ext_app (k e : string) :
  has_dot e = false -> strip_ext (k ++ "." ++ e) = k.
Proof.
  intros He. induction k as [|c k IH].
  - simpl. now rewrite He.
  - change (String c k ++ "." ++ e) with (String c (k ++ "." ++ e)).
    cbn [strip_ext]. now rewrite has_dot_app, IH.
Qed.

Lemma flat_All_lists (s : flatFileStore) (name data : string) :
  assoc_get (tiddlers s) name = Some data ->
  match_dot_meta name = true ->
  exists l,
    All s = Ok l /\
    In (listed data
          (Bolt.string_of (assoc_get (cwd s) (strip_ext name ++ ".tid")))) l.
Proof.
  intros Hget Hm. eexists. split; [reflexivity|].
  apply assoc_get_In in Hget.
  apply (in_map (fun f => listed (snd f)
                   (Bolt.string_of
                      (assoc_get (cwd s) (strip_ext (fst f) ++ ".tid"))))
           _ (name, data)).
  apply filter_In. split; [exact Hget | exact Hm].
Qed.

(** X13.  In the flat-file backend [All] lists every tiddler that was just
    put under a key without path separator or regular-expression
    metacharacter, with the meta as it was given; the text that goes with
    it, kept when the meta holds the macro tag, is not the text that was
    put but the content of the file [key.tid] of the working directory,
    empty when there is no such file.  (For a meta whose numbers are integers of magnitude at most
    2^53 and history files whose numbers have less than 19 digits.) *)
Theorem flat_all_lists_what_was_put
  (s s' : flatFileStore) (t : Tiddler) (rev : Z) :
  path_ok (Key t) = true -> regexp_ok (Key t) = true ->
  Put s t = (Ok rev, s') ->
  exists l,
    All s' = Ok l /\
    In (listed (Meta t)
          (Bolt.string_of (assoc_get (cwd s) (Key t ++ ".tid")))) l.
Proof.
  intros _ _ Hput. destruct (flat_Put_ok _ _ _ _ Hput) as (js & _ & _ & _ & ->).
  destruct (flat_All_lists
              {| tiddlers := assoc_put (assoc_put (tiddlers s) (Key t ++ ".tid") (Text t))
                               (Key t ++ ".meta") (Meta t);
                 tiddlerHistory := assoc_put (tiddlerHistory s)
                                     (Key t ++ "#" ++ itoa rev) (Marshal js);
                 cwd := cwd s |}
              (Key t ++ ".meta") (Meta t)) as (l & Hl & Hin).
  - apply assoc_get_put_same.
  - apply match_dot_meta_suffix.
  - exists l. split; [exact Hl|].
    change (Key t ++ ".meta") with (Key t ++ "." ++ "meta") in Hin.
    rewrite strip_ext_app in Hin by reflexivity. exact Hin.
Qed.

Lemma flat_all_lists_what_was_put_witness :
  let s := MustOpen [("M.tid", "a file of the working directory")] in
  let t := new "M" macro_meta "the text" in
  exists l,
    All (snd (Put s t)) = Ok l /\
    In (listed macro_meta "a file of the working directory") l.
Proof.
  intros s t.
  apply (flat_all_lists_what_was_put s (snd (Put s t)) t 1%Z).
  - reflexivity.
  - reflexivity.
  - vm_compute. reflexivity.
Defined.

(** X14.  In the flat-file backend [All] takes for a meta every file whose
    name holds a character followed by [meta]: after a [Put] of a key
    without path separator or regular-expression metacharacter that holds
    such a run itself, [All] also lists a tiddler whose meta is the text
    that was put, read from the [.tid] file of the key.  (For a meta whose numbers are integers of magnitude at most
    2^53 and history files whose numbers have less than 19 digits.) *)
Theorem flat_all_lists_a_text_as_meta
  (s s' : flatFileStore) (t : Tiddler) (rev : Z) :
  path_ok (Key t) = true -> regexp_ok (Key t) = true ->
  Put s t = (Ok rev, s') ->
  match_dot_meta (Key t) = true ->
  exists l,
    All s' = Ok l /\
    In (listed (Text t)
          (Bolt.string_of (assoc_get (cwd s) (Key t ++ ".tid")))) l.
Proof.
  intros _ _ Hput Hk.
  destruct (flat_Put_ok _ _ _ _ Hput) as (js & _ & _ & _ & ->).
  destruct (flat_All_lists
              {| tiddlers := assoc_put (assoc_put (tiddlers s) (Key t ++ ".tid") (Text t))
                               (Key t ++ ".meta") (Meta t);
                 tiddlerHistory := assoc_put (tiddlerHistory s)
                                     (Key t ++ "#" ++ itoa rev) (Marshal js);
                 cwd := cwd s |}
              (Key t ++ ".tid") (Text t)) as (l & Hl & Hin).
  - cbn [tiddlers]. rewrite assoc_get_put_other.
    + apply assoc_get_put_same.
    + intros E. apply append_inj_l in E. discriminate.
  - now apply match_dot_meta_app.
  - exists l. split; [exact Hl|].
    replace (strip_ext (Key t ++ ".tid")) with (Key t) in Hin
      by (symmetry; apply (strip_ext_app (Key t) "tid"); reflexivity).
    exact Hin.
Qed.

Lemma flat_all_lists_a_text_as_meta_witness :
  let t := new "Kmeta" sample_meta "the text" in
  exists l,
    All (snd (Put (MustOpen []) t)) = Ok l /\ In (listed "the text" "") l.
Proof.
  intros t.
  apply (flat_all_lists_a_text_as_meta (MustOpen []) (snd (Put (MustOpen []) t)) t 1%Z).
  - reflexivity.
  - reflexivity.
  - vm_compute. reflexivity.
  - reflexivity.
Defined.

End FlatFileCoverage.

(** ** More of the JSON projection *)

Module ProjectionCoverage.
Import Json Store Contract.

(** The projection of a fat tiddler decodes to the map of its meta with
    the text set. *)
Lemma projection_decodes (t : Tiddler) (m : list (string * json)) :
  WithText t = true -> Unmarshal (Meta t) = Ok (Some m) ->
  utf8_valid (Text t) = true ->
  exists doc,
    MarshalJSON t = Ok doc /\
    Unmarshal doc = Ok (Some (assoc_put m "text" (JStr (Text t)))).
Proof.
  intros Hfat Hm Htext. eexists. split.
  - exact (ProjectionFacts.MarshalJSON_fat t m Hfat Hm).
  - apply JsonFacts.Unmarshal_Marshal, JsonFacts.put_canonical; auto.
    exact (JsonFacts.Unmarshal_canonical _ _ Hm).
Qed.

Lemma projection_fields (t : Tiddler) (m : list (string * json)) :
  WithText t = true -> Unmarshal (Meta t) = Ok (Some m) ->
  utf8_valid (Text t) = true ->
  exists doc,
    MarshalJSON t = Ok doc /\
    field doc "text" = Some (JStr (Text t)) /\
    forall k, k <> "text" -> field doc k = field (Meta t) k.
Proof.
  intros Hfat Hm Htext.
  destruct (projection_decodes t m Hfat Hm Htext) as (doc & Hdoc & Hdec).
  exists doc. split; [exact Hdoc|]. unfold field. rewrite Hdec, Hm. split.
  - apply assoc_get_put_same.
  - intros k Hk. now apply assoc_get_put_other.
Qed.

(** X15.  The JSON projection of a fat tiddler whose meta is a JSON object
    and whose text is well-formed UTF-8 is a JSON object that has the text
    as its [text] member and, under every other key, what the meta has
    under that key: a [text] member of the meta is replaced and nothing
    else is added, dropped or changed. *)
Theorem projection_keeps_the_members (t : Tiddler) :
  WithText t = true -> is_object (Meta t) -> utf8_valid (Text t) = true ->
  exists doc,
    MarshalJSON t = Ok doc /\
    is_object doc /\
    field doc "text" = Some (JStr (Text t)) /\
    forall k, k <> "text" -> field doc k = field (Meta t) k.
Proof.
  intros Hfat [m Hm] Htext.
  destruct (projection_decodes t m Hfat Hm Htext) as (doc & Hdoc & Hdec).
  exists doc. split; [exact Hdoc|]. split; [eexists; exact Hdec|].
  unfold field. rewrite Hdec, Hm. split.
  - apply assoc_get_put_same.
  - intros k Hk. now apply assoc_get_put_other.
Qed.

Lemma projection_keeps_the_members_witness :
  let meta := "{" ++ q "text" ++ ":1," ++ q "author" ++ ":" ++ q "x" ++ "}" in
  let t := {| Key := "A"; Meta := meta; Text := "hello"; WithText := true |} in
  exists doc,
    MarshalJSON t = Ok doc /\
    is_object doc /\
    field doc "text" = Some (JStr "hello") /\
    forall k, k <> "text" -> field doc k = field meta k.
Proof.
  intros meta t. apply (projection_keeps_the_members t).
  - reflexivity.
  - eexists. vm_compute. reflexivity.
  - reflexivity.
Defined.

(** The projection of what the flat-file [Get] returns after a [Put]. *)
Lemma flat_projection_after_Put
  (s s' : FlatFile.flatFileStore) (t : Tiddler) (rev : Z) :
  FlatFile.Put s t = (Ok rev, s') ->
  is_object (Meta t) -> utf8_valid (Text t) = true ->
  exists t' doc,
    FlatFile.Get s' (Key t) = Ok t' /\ MarshalJSON t' = Ok doc /\
    field doc "text" = Some (JStr (Text t)) /\
    forall k, k <> "text" -> field doc k = field (Meta t) k.
Proof.
  intros Hput [m Hm] Htext.
  pose proof (FlatFileFacts.flat_Get_after_Put _ _ _ _ Hput) as Hget.
  destruct (projection_fields
              {| Key := ""; Meta := Meta t; Text := Text t; WithText := true |} m)
    as (doc & Hdoc & Hfields); auto.
  eauto.
Qed.

(** X16.  In the flat-file backend, after a successful [Put] of a tiddler
    whose key has no path separator or regular-expression metacharacter,
    whose meta is a JSON object and whose text is well-formed UTF-8, the
    projection of what [Get] returns for its key has the text as its [text]
    member and every other member as the caller's meta has it: the
    revision that [Put] returned is not in it.  (For a meta whose numbers are integers of magnitude at most
    2^53 and history files whose numbers have less than 19 digits.) *)
Theorem flat_put_then_get_projection
  (s s' : FlatFile.flatFileStore) (t : Tiddler) (rev : Z) :
  FlatFile.path_ok (Key t) = true -> FlatFile.regexp_ok (Key t) = true ->
  FlatFile.Put s t = (Ok rev, s') ->
  is_object (Meta t) -> utf8_valid (Text t) = true ->
  exists t' doc,
    FlatFile.Get s' (Key t) = Ok t' /\ MarshalJSON t' = Ok doc /\
    field doc "text" = Some (JStr (Text t)) /\
    forall k, k <> "text" -> field doc k = field (Meta t) k.
Proof. intros _ _. apply flat_projection_after_Put. Qed.

Lemma flat_put_then_get_projection_witness :
  let t := new "A" sample_meta "hello" in
  exists t' doc,
    FlatFile.Get (snd (FlatFile.Put (FlatFile.MustOpen []) t)) "A" = Ok t' /\
    MarshalJSON t' = Ok doc /\
    field doc "text" = Some (JStr "hello") /\
    forall k, k <> "text" -> field doc k = field sample_meta k.
Proof.
  intros t.
  apply (flat_put_then_get_projection (FlatFile.MustOpen [])
           (snd (FlatFile.Put (FlatFile.MustOpen []) t)) t 1%Z).
  - reflexivity.
  - reflexivity.
  - vm_compute. reflexivity.
  - eexists. vm_compute. reflexivity.
  - reflexivity.
Defined.

End ProjectionCoverage.

(** ** The HTTP facade *)

Module ApiCoverage.
Import Json Store Contract Shapes Api.

(** *** The listing *)

Lemma has_prefix_split (p s : string) :
  has_prefix p s = true -> s = p ++ Json.drop (String.length p) s.
Proof.
  revert s. induction p as [|c p IH]; intros s H; [reflexivity|].
  destruct s as [|d s]; [discriminate|]. simpl in H.
  apply andb_prop in H. destruct H as [Hc H].
  apply Ascii.eqb_eq in Hc. subst d. simpl. f_equal. now apply IH.
Qed.

Lemma parse_number_is_number (s : string) (v : json) (r : string) :
  parse_number s = Ok (v, r) -> exists z, v = JNum z.
Proof.
  unfold parse_number. intros H.
  destruct (match s with
            | String c s' => if Ascii.eqb c "-" then (true, s') else (false, s)
            | EmptyString => (false, s)
            end) as [neg s1].
  destruct (read_digits s1) as [d rest].
  remember (N.of_uint d) as n.
  JsonFacts.split_match H; injection H as <- _; eauto.
Qed.

(** The only text that is read as [null] is [null]. *)
Lemma parse_value_null (fuel : nat) (s r : string) :
  parse_value fuel s = Ok (JNull, r) -> s = "null" ++ r.
Proof.
  destruct fuel as [|f]; [discriminate|]. cbn [parse_value].
  destruct s as [|c s]; [discriminate|].
  destruct (Ascii.eqb c "{").
  { destruct (skip_ws s) as [|c' r']; [discriminate|].
    destruct (Ascii.eqb c' "}"); [discriminate|].
    destruct (parse_members f _) as [[m r'']| | |]; discriminate. }
  destruct (Ascii.eqb c "[").
  { destruct (skip_ws s) as [|c' r']; [discriminate|].
    destruct (Ascii.eqb c' "]"); [discriminate|].
    destruct (parse_elems f _) as [[m r'']| | |]; discriminate. }
  destruct (Ascii.eqb c dquote).
  { destruct (unquote s) as [[d r']| | |]; discriminate. }
  destruct (Ascii.eqb c "-" || is_digit c).
  { intros H. apply parse_number_is_number in H. destruct H as [z H].
    discriminate H. }
  destruct (has_prefix "true" (String c s)); [discriminate|].
  destruct (has_prefix "false" (String c s)); [discriminate|].
  destruct (has_prefix "null" (String c s)) eqn:E; [|discriminate].
  intros H. injection H as <-. exact (has_prefix_split _ _ E).
Qed.

Lemma skip_ws_split (s : string) :
  exists ws, blank ws = true /\ s = ws ++ skip_ws s.
Proof.
  induction s as [|c s (ws & Hws & IH)]; [now exists ""|].
  simpl. destruct (is_space c) eqn:E.
  - exists (String c ws). split.
    + unfold blank. simpl. now rewrite E.
    + simpl. now f_equal.
  - now exists "".
Qed.

Lemma skip_ws_blank (s : string) : skip_ws s = "" -> blank s = true.
Proof.
  induction s as [|c s IH]; [reflexivity|].
  simpl. destruct (is_space c) eqn:E; [|discriminate].
  intros H. unfold blank. simpl. rewrite E. now apply IH.
Qed.

Lemma blank_quote_free (ws : string) : blank ws = true -> quote_free ws = true.
Proof.
  induction ws as [|c ws IH]; [reflexivity|].
  unfold blank, quote_free. simpl. intros H.
  apply andb_prop in H. destruct H as [Hc H].
  apply negb_true_iff, negb_false_iff in Hc.
  destruct (Ascii.eqb c dquote) eqn:E.
  - apply Ascii.eqb_eq in E. subst c. discriminate.
  - now apply IH.
Qed.

Lemma quote_free_app (a b : string) :
  quote_free a = true -> quote_free b = true -> quote_free (a ++ b) = true.
Proof.
  intros Ha Hb. induction a as [|c a IH]; [exact Hb|].
  unfold quote_free in *. simpl in *.
  apply andb_prop in Ha. destruct Ha as [-> Ha]. now apply IH.
Qed.

Lemma quote_free_contains (s sub : string) :
  quote_free s = true -> contains s (String dquote sub) = false.
Proof.
  induction s as [|c s IH]; [reflexivity|].
  intros H.
  change (negb (Ascii.eqb c dquote) && quote_free s = true) in H.
  apply andb_prop in H. destruct H as [Hc H]. apply negb_true_iff in Hc.
  change (Ascii.eqb dquote c && has_prefix sub s
          || contains s (String dquote sub) = false).
  rewrite Ascii.eqb_sym, Hc. now apply IH.
Qed.

(** The decoder never panics. *)
Lemma bind_panic {A B : Type} (x : outcome A) (f : A -> outcome B) :
  x <> Panic -> (forall a, f a <> Panic) -> bind x f <> Panic.
Proof. destruct x as [a|e| |]; simpl; auto; discriminate. Qed.

Lemma prepend_calm (p : string) (u : outcome (string * string)) :
  u <> Panic -> prepend p u <> Panic.
Proof. destruct u as [[d r]|e| |]; simpl; auto; discriminate. Qed.

Ltac calm_step IH :=
  match goal with
  | |- Err _ <> Panic => discriminate
  | |- Ok _ <> Panic => discriminate
  | |- prepend _ (unquote _) <> Panic =>
      apply prepend_calm; apply IH; simpl; lia
  | |- (if ?b then _ else _) <> Panic => destruct b eqn:?
  | |- (match ?x with _ => _ end) <> Panic => destruct x eqn:?
  end.

Lemma unquote_calm (s : string) : unquote s <> Panic.
Proof.
  remember (String.length s) as n eqn:Hn. revert s Hn.
  induction n as [n IH] using lt_wf_ind. intros s ->.
  assert (IH' : forall s', (String.length s' < String.length s)%nat ->
                           unquote s' <> Panic)
    by (intros s' Hs'; now apply (IH (String.length s'))).
  clear IH.
  destruct s as [|c1 s1]; [discriminate|].
  simpl unquote. repeat calm_step IH'.
Qed.

Lemma parse_number_calm (s : string) : parse_number s <> Panic.
Proof.
  unfold parse_number.
  destruct (match s with
            | String c s' => if Ascii.eqb c "-" then (true, s') else (false, s)
            | EmptyString => (false, s)
            end) as [neg s1].
  destruct (read_digits s1) as [d rest].
  remember (N.of_uint d) as n.
  intros H. JsonFacts.split_match H; discriminate H.
Qed.

Lemma parse_calm (fuel : nat) :
  (forall s, parse_value fuel s <> Panic) /\
  (forall s, parse_elems fuel s <> Panic) /\
  (forall s, parse_members fuel s <> Panic).
Proof.
  induction fuel as [|f (IHv & IHe & IHm)];
    [repeat split; intros; discriminate|].
  split; [|split]; intros s.
  - cbn [parse_value]. destruct s as [|c s']; [discriminate|].
    destruct (Ascii.eqb c "{").
    { destruct (skip_ws s') as [|c' r0]; [discriminate|].
      destruct (Ascii.eqb c' "}"); [discriminate|].
      apply bind_panic; [apply IHm | intros [m r']; discriminate]. }
    destruct (Ascii.eqb c "[").
    { destruct (skip_ws s') as [|c' r0]; [discriminate|].
      destruct (Ascii.eqb c' "]"); [discriminate|].
      apply bind_panic; [apply IHe | intros [l r']; discriminate]. }
    destruct (Ascii.eqb c dquote).
    { apply bind_panic; [apply unquote_calm | intros [d r']; discriminate]. }
    destruct (Ascii.eqb c "-" || is_digit c); [apply parse_number_calm|].
    destruct (has_prefix "true" (String c s')); [discriminate|].
    destruct (has_prefix "false" (String c s')); [discriminate|].
    destruct (has_prefix "null" (String c s')); discriminate.
  - cbn [parse_elems]. apply bind_panic; [apply IHv|]. intros [v r].
    destruct (skip_ws r) as [|c r']; [discriminate|].
    destruct (Ascii.eqb c ",").
    { apply bind_panic; [apply IHe | intros [l r'']; discriminate]. }
    destruct (Ascii.eqb c "]"); discriminate.
  - cbn [parse_members]. destruct s as [|c s1]; [discriminate|].
    destruct (Ascii.eqb c dquote); [|discriminate].
    apply bind_panic; [apply unquote_calm|]. intros [k r].
    destruct (skip_ws r) as [|c1 r1]; [discriminate|].
    destruct (Ascii.eqb c1 ":"); [|discriminate].
    apply bind_panic; [apply IHv|]. intros [v r2].
    destruct (skip_ws r2) as [|c' r3]; [discriminate|].
    destruct (Ascii.eqb c' ",").
    { apply bind_panic; [apply IHm | intros [m r4]; discriminate]. }
    destruct (Ascii.eqb c' "}"); discriminate.
Qed.

Lemma Unmarshal_calm (data : string) : Unmarshal data <> Panic.
Proof.
  unfold Unmarshal. apply bind_panic.
  - unfold parse. apply bind_panic; [apply parse_calm|]. intros [v rest].
    destruct (skip_ws rest); discriminate.
  - intros [|b|z|s|l|m]; discriminate.
Qed.

(** A meta that [json.Unmarshal] reads as [null] does not hold the macro
    tag. *)
Lemma null_meta_is_skinny (meta : string) :
  Unmarshal meta = Ok None -> contains meta macro_tag = false.
Proof.
  unfold Unmarshal. intros H. apply JsonFacts.bind_ok in H as (v & E & H).
  destruct v as [|b|z|s|l|raw]; try discriminate.
  unfold parse in E. apply JsonFacts.bind_ok in E as ([v r] & E & Hr).
  destruct (skip_ws r) eqn:Er; [|discriminate]. injection Hr as ->.
  apply parse_value_null in E.
  destruct (skip_ws_split meta) as (ws & Hws & Hmeta).
  rewrite E in Hmeta. rewrite Hmeta.
  apply quote_free_contains.
  apply quote_free_app; [now apply blank_quote_free|].
  apply (quote_free_app "null"); [reflexivity|].
  now apply blank_quote_free, skip_ws_blank.
Qed.

Lemma listed_projection (meta text : string) :
  MarshalJSON (listed meta text) <> Panic.
Proof.
  unfold listed. destruct (contains meta macro_tag) eqn:E.
  - unfold MarshalJSON. simpl.
    destruct (Unmarshal meta) as [[m|]| | |] eqn:Em; simpl; try discriminate.
    + apply null_meta_is_skinny in Em. congruence.
    + exfalso. exact (Unmarshal_calm _ Em).
  - discriminate.
Qed.

Lemma list_items_no_panic (tiddlers : Datatypes.list Tiddler) :
  Forall (fun t => MarshalJSON t <> Panic) tiddlers ->
  forall sep, list_items sep tiddlers <> Panic.
Proof.
  induction 1 as [|t ts Ht Hts IH]; intros sep; simpl; [discriminate|].
  destruct (String.length (Meta t) =? 0)%nat; [apply IH|].
  destruct (MarshalJSON t) as [json| | |]; try apply IH; try discriminate;
    try contradiction.
  specialize (IH ","). destruct (list_items "," ts); simpl; try discriminate.
  contradiction.
Qed.

Lemma all_loop_listed (entries : Bolt.bucket) :
  Forall (fun t => MarshalJSON t <> Panic) (Bolt.all_loop entries)
  /\ forall e,
       Forall (fun t => MarshalJSON t <> Panic) (Bolt.all_loop (e :: entries)).
Proof.
  induction entries as [|e' entries [IH1 IH2]].
  - split; [constructor|]. intros [k meta]. simpl.
    destruct (String.length meta =? 0)%nat; [constructor|].
    constructor; [apply listed_projection | constructor].
  - split; [apply IH2|]. intros [k meta]. destruct e' as [k' text].
    simpl Bolt.all_loop.
    destruct (String.length meta =? 0)%nat; [exact IH1|].
    constructor; [apply listed_projection | exact IH1].
Qed.

Lemma list_of_listed {S : Type} `{TiddlerStore S} (s : S) (r : request)
  (tiddlers : Datatypes.list Tiddler) :
  All s = Ok tiddlers ->
  Forall (fun t => MarshalJSON t <> Panic) tiddlers ->
  list s r = Unmodelled \/
  exists items,
    list s r = Ok {| Code := 200;
                     Header := [("Content-Type", "application/json")];
                     Payload := "[" ++ items ++ "]" |}.
Proof.
  intros Hall Hts. unfold list. rewrite Hall.
  pose proof (list_items_no_panic _ Hts "") as Hno.
  assert (Hnoerr : forall ts sep e, list_items sep ts <> Err e).
  { induction ts as [|t ts IH]; intros sep e; simpl; [discriminate|].
    destruct (String.length (Meta t) =? 0)%nat; [apply IH|].
    destruct (MarshalJSON t); try apply IH; try discriminate.
    specialize (IH "," e). destruct (list_items "," ts); simpl;
      try discriminate. exact IH. }
  destruct (list_items "" tiddlers) as [items|e| |] eqn:E; simpl.
  - right. now exists items.
  - exfalso. exact (Hnoerr _ _ _ E).
  - contradiction.
  - now left.
Qed.

(** X17.  The listing never panics, in the three backends and in any state
    of the store: [list] answers 200 with a body between brackets and the
    content type of JSON (where the model describes the stored metas).  A
    tiddler whose meta is [null], which makes the projection of a single
    fat tiddler panic, is listed skinny, since [null] holds no macro tag. *)
Theorem list_answers_in_every_state (r : request) :
  (forall s : Bolt.boltStore,
     list s r = Unmodelled \/
     exists items,
       list s r = Ok {| Code := 200;
                        Header := [("Content-Type", "application/json")];
                        Payload := "[" ++ items ++ "]" |}) /\
  (forall s : Sqlite.sqliteStore,
     list s r = Unmodelled \/
     exists items,
       list s r = Ok {| Code := 200;
                        Header := [("Content-Type", "application/json")];
                        Payload := "[" ++ items ++ "]" |}) /\
  (forall s : FlatFile.flatFileStore,
     list s r = Unmodelled \/
     exists items,
       list s r = Ok {| Code := 200;
                        Header := [("Content-Type", "application/json")];
                        Payload := "[" ++ items ++ "]" |}).
Proof.
  split; [|split]; intros s; eapply list_of_listed; try reflexivity.
  - apply all_loop_listed.
  - apply Forall_map, Forall_forall. intros x _. apply listed_projection.
  - apply Forall_map, Forall_forall. intros x _. apply listed_projection.
Qed.

(** *** Reading and writing one tiddler *)

Lemma TrimPrefix_app (prefix key : string) :
  TrimPrefix (prefix ++ key) prefix = key.
Proof.
  unfold TrimPrefix.
  now rewrite FlatFileCoverage.has_prefix_app, FlatFileCoverage.drop_app.
Qed.

(** The map that the decoder builds from a body is canonical. *)
Lemma Decode_canonical (body : string) (m : Datatypes.list (string * json)) :
  Decode body = Ok (Some m) -> canonical (JObj m) = true.
Proof.
  unfold Decode. intros H. apply JsonFacts.bind_ok in H as ([v r] & E & H).
  destruct v as [|b|z|s|l|raw]; try discriminate.
  injection H as <-.
  exact (JsonFacts.canonical_norm (JObj raw)
           (proj1 (JsonFacts.parse_wf _) _ _ _ E)).
Qed.

Section Removal.
Context {V : Type}.
Implicit Types (m : Datatypes.list (string * V)) (k : string).

Lemma assoc_remove_Forall (P : string * V -> Prop) m k :
  Forall P m -> Forall P (assoc_remove m k).
Proof.
  induction 1 as [|[k' v'] m Hk Hm IH]; simpl; [constructor|].
  destruct (String.eqb k k'); [exact IH | now constructor].
Qed.

Lemma assoc_remove_sorted m k :
  sorted_keys m = true -> sorted_keys (assoc_remove m k) = true.
Proof.
  induction m as [|[k' v'] m IH]; intros H; [reflexivity|].
  pose proof (sorted_keys_head _ _ _ H) as Hhead.
  pose proof (sorted_keys_tail _ _ _ H) as Htail.
  simpl. destruct (String.eqb k k'); [now apply IH|].
  apply sorted_keys_cons; [now apply assoc_remove_Forall | now apply IH].
Qed.

Lemma assoc_remove_forallb (f : string * V -> bool) m k :
  forallb f m = true -> forallb f (assoc_remove m k) = true.
Proof.
  induction m as [|[k' v'] m IH]; simpl; [reflexivity|].
  intros H. apply andb_prop in H. destruct H as [Hk H].
  destruct (String.eqb k k'); [now apply IH|].
  simpl. now rewrite Hk, IH.
Qed.

End Removal.

Lemma remove_canonical (m : Datatypes.list (string * json)) (k : string) :
  canonical (JObj m) = true -> canonical (JObj (assoc_remove m k)) = true.
Proof.
  cbn [canonical]. intros H. apply andb_prop in H. destruct H as [Hs Hf].
  now rewrite assoc_remove_sorted, assoc_remove_forallb.
Qed.

Lemma canonical_member (m : Datatypes.list (string * json)) (k : string)
  (v : json) :
  canonical (JObj m) = true -> assoc_get m k = Some v -> canonical v = true.
Proof.
  cbn [canonical]. intros H Hget. apply andb_prop in H. destruct H as [_ Hf].
  apply FlatFileCoverage.assoc_get_In in Hget.
  rewrite forallb_forall in Hf. specialize (Hf _ Hget). simpl in Hf.
  now apply andb_prop in Hf.
Qed.

Lemma text_of_valid (m : Datatypes.list (string * json)) :
  canonical (JObj m) = true -> utf8_valid (text_of m) = true.
Proof.
  intros Hm. unfold text_of.
  destruct (assoc_get m "text") as [[|b|z|s|l|o]|] eqn:E; try reflexivity.
  exact (canonical_member _ _ _ Hm E).
Qed.

Lemma text_of_bag (m : Datatypes.list (string * json)) (v : json) :
  text_of (assoc_put m "bag" v) = text_of m.
Proof. unfold text_of. now rewrite assoc_get_put_other by discriminate. Qed.

(** What [putTiddler] makes of a body that is a JSON object. *)
Lemma body_meta (key : string) (m : Datatypes.list (string * json)) :
  canonical (JObj m) = true ->
  let m' := assoc_remove (assoc_put m "bag" (JStr "bag")) "text" in
  tiddler_of_body key (Some m)
  = Ok {| Key := key; Meta := Marshal (Some m'); Text := text_of m;
          WithText := false |} /\
  canonical (JObj m') = true /\
  Unmarshal (Marshal (Some m')) = Ok (Some m') /\
  assoc_get m' "bag" = Some (JStr "bag") /\
  assoc_get m' "text" = None /\
  forall k, k <> "bag" -> k <> "text" -> assoc_get m' k = assoc_get m k.
Proof.
  intros Hm m'.
  assert (Hm' : canonical (JObj m') = true)
    by (apply remove_canonical, JsonFacts.put_canonical; auto).
  split; [|split; [exact Hm'|split; [|split; [|split]]]].
  - unfold tiddler_of_body. simpl. now rewrite text_of_bag.
  - now apply JsonFacts.Unmarshal_Marshal.
  - unfold m'. rewrite assoc_get_remove_other by discriminate.
    apply assoc_get_put_same.
  - apply assoc_get_remove_same.
  - intros k Hb Ht. unfold m'.
    rewrite assoc_get_remove_other by exact Ht.
    now apply assoc_get_put_other.
Qed.

(** X18.  Whatever JSON object the body of a PUT request holds, the tiddler
    that [putTiddler] hands to the store has the key of the request path,
    the [text] member of the body as its text when that member is a string
    (the empty text otherwise) and, as its meta, the text of a JSON object
    that has [bag] set to ["bag"], no [text] member, and every other member
    of the body as it was. *)
Theorem put_builds_the_meta_from_the_body
  (key body : string) (m : Datatypes.list (string * json)) :
  Decode body = Ok (Some m) ->
  exists t m',
    tiddler_of_body key (Some m) = Ok t /\
    Key t = key /\ Text t = text_of m /\ utf8_valid (Text t) = true /\
    Unmarshal (Meta t) = Ok (Some m') /\
    assoc_get m' "bag" = Some (JStr "bag") /\
    assoc_get m' "text" = None /\
    forall k, k <> "bag" -> k <> "text" -> assoc_get m' k = assoc_get m k.
Proof.
  intros Hdec. pose proof (Decode_canonical _ _ Hdec) as Hm.
  destruct (body_meta key m Hm) as (Ht & _ & Hu & Hbag & Htext & Hrest).
  exists {| Key := key;
            Meta := Marshal (Some (assoc_remove (assoc_put m "bag" (JStr "bag"))
                                     "text"));
            Text := text_of m; WithText := false |},
    (assoc_remove (assoc_put m "bag" (JStr "bag")) "text").
  split; [exact Ht|]. cbn [Key Text Meta].
  split; [reflexivity|]. split; [reflexivity|].
  split; [now apply text_of_valid|].
  split; [exact Hu|]. split; [exact Hbag|]. split; [exact Htext | exact Hrest].
Qed.

Lemma put_builds_the_meta_from_the_body_witness :
  let body := "{" ++ q "text" ++ ":" ++ q "hello" ++ ","
              ++ q "author" ++ ":" ++ q "x" ++ "} trailing" in
  exists t m',
    tiddler_of_body "A" (Some [("author", JStr "x"); ("text", JStr "hello")])
    = Ok t /\
    Key t = "A" /\ Text t = "hello" /\ utf8_valid (Text t) = true /\
    Unmarshal (Meta t) = Ok (Some m') /\
    assoc_get m' "bag" = Some (JStr "bag") /\
    assoc_get m' "text" = None /\
    forall k, k <> "bag" -> k <> "text" ->
      assoc_get m' k = assoc_get [("author", JStr "x"); ("text", JStr "hello")] k.
Proof.
  intros body.
  apply (put_builds_the_meta_from_the_body "A" body
           [("author", JStr "x"); ("text", JStr "hello")]).
  vm_compute. reflexivity.
Defined.

Lemma skip_ws_blank_app (ws s : string) :
  blank ws = true -> skip_ws (ws ++ s) = skip_ws s.
Proof.
  induction ws as [|c ws IH]; [reflexivity|].
  unfold blank. simpl. intros H. apply andb_prop in H. destruct H as [Hc H].
  apply negb_true_iff, negb_false_iff in Hc. rewrite Hc. now apply IH.
Qed.

Lemma Decode_null (ws rest : string) :
  blank ws = true -> Decode (ws ++ "null" ++ rest) = Ok None.
Proof.
  intros Hws. unfold Decode. rewrite skip_ws_blank_app by exact Hws.
  rewrite Nat.add_comm. reflexivity.
Qed.

Section AnyStore.
Context {S : Type} `{TiddlerStore S}.
Variable md5_hex : string -> string.

(** X19.  A PUT request whose body starts, after optional white space,
    with the JSON value [null] makes [putTiddler] panic, whatever the store
    and whatever follows the value: the decoder accepts [null] and leaves
    the map nil, and the write of [bag] to it panics before the store is
    called. *)
Theorem put_of_a_null_body_panics (s : S) (r : request) (ws rest : string) :
  blank ws = true -> Body r = ws ++ "null" ++ rest ->
  putTiddler md5_hex s r = (Panic, s).
Proof.
  intros Hws Hbody. unfold putTiddler.
  now rewrite Hbody, (Decode_null _ _ Hws).
Qed.

End AnyStore.

Lemma put_of_a_null_body_panics_witness :
  putTiddler (fun _ => "") Bolt.MustOpen
    {| Method := "PUT"; Path := "/recipes/all/tiddlers/A"; Body := " null" |}
  = (Panic, Bolt.MustOpen).
Proof.
  apply (put_of_a_null_body_panics (fun _ => "") Bolt.MustOpen
           {| Method := "PUT"; Path := "/recipes/all/tiddlers/A";
              Body := " null" |} " " "").
  - reflexivity.
  - reflexivity.
Defined.

(** X20.  Over the BoltDB backend a PUT of a tiddler followed by a GET of
    the same path returns it: for a body that is a JSON object, [tiddler]
    answers 204 with the ETag of the new revision, and the GET then answers
    200 with a JSON object that has the text of the body as [text] (the
    empty text when the body has no string under [text]), ["bag"] as [bag],
    the new revision as [revision] and every other member of the body as
    it was sent. *)
Theorem http_put_then_get
  (md5_hex : string -> string) (s : Bolt.boltStore) (key body : string)
  (m : Datatypes.list (string * json)) (rev : Z) :
  Decode body = Ok (Some m) ->
  Bolt.getLastRevision (Bolt.tiddler s) (key ++ "|1") = Ok rev ->
  exact rev = true ->
  let path := "/recipes/all/tiddlers/" ++ key in
  exists s' meta doc,
    tiddler md5_hex s {| Method := "PUT"; Path := path; Body := body |}
    = (Ok {| Code := 204;
             Header := [("Etag", etag md5_hex key rev meta)];
             Payload := "" |}, s') /\
    tiddler md5_hex s' {| Method := "GET"; Path := path; Body := "" |}
    = (Ok {| Code := 200;
             Header := [("Content-Type", "application/json")];
             Payload := doc |}, s') /\
    field doc "text" = Some (JStr (text_of m)) /\
    field doc "bag" = Some (JStr "bag") /\
    field doc "revision" = Some (JNum rev) /\
    forall k, k <> "text" -> k <> "bag" -> k <> "revision" ->
      field doc k = assoc_get m k.
Proof.
  intros Hdec Hrev Hexact path.
  pose proof (Decode_canonical _ _ Hdec) as Hm.
  destruct (body_meta key m Hm) as (Ht & Hm' & Hu & Hbag & Htext & Hrest).
  set (m' := assoc_remove (assoc_put m "bag" (JStr "bag")) "text") in *.
  set (t := {| Key := key; Meta := Marshal (Some m'); Text := text_of m;
               WithText := false |}) in *.
  destruct (Bolt.Put s t) as [res s'] eqn:Hput.
  assert (Hres : res = Ok rev).
  { unfold Bolt.Put, commit in Hput. cbn [Meta Key t] in Hput.
    rewrite Hu in Hput. simpl in Hput. rewrite Hrev in Hput. simpl in Hput.
    now injection Hput as <- _. }
  subst res.
  destruct (BoltFacts.bolt_Get_after_Put _ _ _ _ Hput) as (m0 & Hm0 & Hget).
  cbn [Meta Key Text t] in Hm0, Hget. rewrite Hu in Hm0. injection Hm0 as <-.
  set (t' := {| Key := ""; Meta := Marshal (Some (assoc_put m' "revision" (JNum rev)));
                Text := text_of m; WithText := true |}) in *.
  destruct (ProjectionCoverage.projection_decodes t'
              (assoc_put m' "revision" (JNum rev))) as (doc & Hdoc & Hfields).
  { reflexivity. }
  { apply JsonFacts.Unmarshal_Marshal, JsonFacts.put_canonical; auto. }
  { now apply text_of_valid. }
  exists s', (Marshal (Some m')), doc. split; [|split].
  - unfold tiddler, putTiddler. cbn [Method Path Body]. unfold path.
    rewrite TrimPrefix_app, Hdec, Ht.
    change (Put s t) with (Bolt.Put s t). rewrite Hput. reflexivity.
  - unfold tiddler, getTiddler. cbn [Method Path Body]. unfold path.
    rewrite TrimPrefix_app.
    change (Get s' key) with (Bolt.Get s' key). rewrite Hget, Hdoc. reflexivity.
  - unfold field. rewrite Hfields. cbn [Text t'].
    split; [apply assoc_get_put_same|].
    split; [now rewrite !assoc_get_put_other by discriminate|].
    split; [rewrite assoc_get_put_other by discriminate; apply assoc_get_put_same|].
    intros k Hk1 Hk2 Hk3. rewrite !assoc_get_put_other by assumption.
    now apply Hrest.
Qed.

Lemma http_put_then_get_witness :
  let body := "{" ++ q "text" ++ ":" ++ q "hello" ++ ","
              ++ q "author" ++ ":" ++ q "x" ++ "}" in
  let m := [("author", JStr "x"); ("text", JStr "hello")] in
  let path := "/recipes/all/tiddlers/A" in
  exists s' meta doc,
    tiddler (fun _ => "") Bolt.MustOpen
      {| Method := "PUT"; Path := path; Body := body |}
    = (Ok {| Code := 204;
             Header := [("Etag", etag (fun _ => "") "A" 1 meta)];
             Payload := "" |}, s') /\
    tiddler (fun _ => "") s' {| Method := "GET"; Path := path; Body := "" |}
    = (Ok {| Code := 200;
             Header := [("Content-Type", "application/json")];
             Payload := doc |}, s') /\
    field doc "text" = Some (JStr (text_of m)) /\
    field doc "bag" = Some (JStr "bag") /\
    field doc "revision" = Some (JNum 1) /\
    forall k, k <> "text" -> k <> "bag" -> k <> "revision" ->
      field doc k = assoc_get m k.
Proof.
  intros body m path.
  apply (http_put_then_get (fun _ => "") Bolt.MustOpen "A" body m 1%Z).
  - vm_compute. reflexivity.
  - reflexivity.
  - reflexivity.
Defined.

(** X21.  A GET of a tiddler that the store does not hold is answered
    with 500 and the text of an internal error, and leaves the store as it
    was, in the three backends (in the flat-file backend for a key without
    path separator): [getTiddler] makes no difference between [ErrNotFound]
    and any other error of [Get]. *)
Theorem get_of_a_missing_tiddler_is_an_internal_error
  (md5_hex : string -> string) (r : request) :
  Method r = "GET" ->
  let key := TrimPrefix (Path r) "/recipes/all/tiddlers/" in
  (forall b : Bolt.boltStore,
     assoc_get (Bolt.tiddler b) (key ++ "|1") = None ->
     tiddler md5_hex b r = (Ok (http_Error "internal server error" 500), b)) /\
  (forall d : Sqlite.sqliteStore,
     Sqlite.query_row d ("%" ++ key ++ "%") = None ->
     tiddler md5_hex d r = (Ok (http_Error "internal server error" 500), d)) /\
  (forall f : FlatFile.flatFileStore,
     FlatFile.path_ok key = true -> flat_live f key = false ->
     tiddler md5_hex f r = (Ok (http_Error "internal server error" 500), f)).
Proof.
  intros Hget key.
  unfold tiddler, getTiddler. rewrite Hget. cbn [String.eqb Ascii.eqb].
  fold key. split; [|split].
  - intros b Hb. change (Get b key) with (Bolt.Get b key).
    now rewrite (BoltFacts.bolt_Get_absent _ _ Hb).
  - intros d Hd. change (Get d key) with (Sqlite.Get d key).
    now rewrite (SqliteFacts.sqlite_Get_no_match _ _ Hd).
  - intros f Hp Hf. change (Get f key) with (FlatFile.Get f key).
    now rewrite (FlatFileFacts.flat_Get_absent _ _ Hp Hf).
Qed.

Lemma get_of_a_missing_tiddler_is_an_internal_error_witness :
  let r := {| Method := "GET"; Path := "/recipes/all/tiddlers/$:/A"; Body := "" |} in
  tiddler (fun _ => "") Bolt.MustOpen r
  = (Ok (http_Error "internal server error" 500), Bolt.MustOpen) /\
  tiddler (fun _ => "") Sqlite.MustOpen r
  = (Ok (http_Error "internal server error" 500), Sqlite.MustOpen) /\
  tiddler (fun _ => "")
    (FlatFile.MustOpen [])
    {| Method := "GET"; Path := "/recipes/all/tiddlers/A"; Body := "" |}
  = (Ok (http_Error "internal server error" 500), FlatFile.MustOpen []).
Proof.
  intros r.
  pose proof (get_of_a_missing_tiddler_is_an_internal_error (fun _ => "") r
                eq_refl) as (Hb & Hd & _).
  pose proof (get_of_a_missing_tiddler_is_an_internal_error (fun _ => "")
                {| Method := "GET"; Path := "/recipes/all/tiddlers/A"; Body := "" |}
                eq_refl) as (_ & _ & Hf).
  split; [|split].
  - apply Hb. reflexivity.
  - apply Hd. reflexivity.
  - apply Hf; reflexivity.
Defined.

(** X22.  A DELETE of a tiddler that has no live record is answered with
    204 over the BoltDB backend; over the SQLite backend every DELETE is
    answered with 204; over the flat-file backend, for a key without path
    separator, it is answered with 500 and leaves the store as it was. *)
Theorem delete_of_a_missing_tiddler (r : request) :
  Method r = "DELETE" ->
  let key := TrimPrefix (Path r) "/bags/bag/tiddlers/" in
  (forall b : Bolt.boltStore,
     bolt_live b key = false ->
     exists b',
       remove b r = (Ok {| Code := 204; Header := []; Payload := "" |}, b')) /\
  (forall d : Sqlite.sqliteStore,
     exists d',
       remove d r = (Ok {| Code := 204; Header := []; Payload := "" |}, d')) /\
  (forall f : FlatFile.flatFileStore,
     FlatFile.path_ok key = true -> flat_live f key = false ->
     remove f r = (Ok (http_Error "internal server error" 500), f)).
Proof.
  intros Hdel key.
  unfold remove. rewrite Hdel. cbn [String.eqb Ascii.eqb]. fold key.
  split; [|split].
  - intros b Hb. change (Delete b key) with (Bolt.Delete b key).
    unfold Bolt.Delete, commit.
    rewrite (BoltFacts.bolt_getLastRevision_no_live _ _ Hb). simpl.
    eexists. reflexivity.
  - intros d. change (Delete d key) with (Sqlite.Delete d key).
    unfold Sqlite.Delete. eexists. reflexivity.
  - intros f Hp Hf. change (Delete f key) with (FlatFile.Delete f key).
    now rewrite (FlatFileFacts.flat_Delete_absent _ _ Hp Hf).
Qed.

Lemma delete_of_a_missing_tiddler_witness :
  let r := {| Method := "DELETE"; Path := "/bags/bag/tiddlers/$:/A"; Body := "" |} in
  (exists b', remove Bolt.MustOpen r
              = (Ok {| Code := 204; Header := []; Payload := "" |}, b')) /\
  (exists d', remove Sqlite.MustOpen r
              = (Ok {| Code := 204; Header := []; Payload := "" |}, d')) /\
  remove (FlatFile.MustOpen [])
    {| Method := "DELETE"; Path := "/bags/bag/tiddlers/A"; Body := "" |}
  = (Ok (http_Error "internal server error" 500), FlatFile.MustOpen []).
Proof.
  intros r.
  pose proof (delete_of_a_missing_tiddler r eq_refl) as (Hb & Hd & _).
  pose proof (delete_of_a_missing_tiddler
                {| Method := "DELETE"; Path := "/bags/bag/tiddlers/A"; Body := "" |}
                eq_refl) as (_ & _ & Hf).
  split; [|split].
  - apply Hb. reflexivity.
  - apply Hd.
  - apply Hf; reflexivity.
Defined.

End ApiCoverage.

(** ** The cursor loop of the BoltDB backend *)

Module BoltListing.
Import Json Store Contract Shapes Bolt.

Lemma compare_app_same (k a b : string) :
  String.compare (k ++ a) (k ++ b) = String.compare a b.
Proof.
  induction k as [|c k IH]; [reflexivity|].
  cbn [append String.compare]. unfold Ascii.compare.
  now rewrite N.compare_refl.
Qed.

(** Two titles without [|] compare as their keys in the bucket do,
    whatever follows the [|]. *)
Lemma compare_bar (k k' a b : string) :
  bar_free k = true -> bar_free k' = true -> k <> k' ->
  String.compare (k ++ String "|" a) (k' ++ String "|" b)
  = String.compare (k ++ "|") (k' ++ "|").
Proof.
  revert k'. induction k as [|c k IH]; intros [|c' k'] Hk Hk' Hne.
  - contradiction.
  - unfold bar_free in Hk'. simpl in Hk'.
    apply andb_prop in Hk'. destruct Hk' as [Hc _].
    apply negb_true_iff, Ascii.eqb_neq in Hc.
    cbn [append String.compare].
    destruct (Ascii.compare "|" c') eqn:E; try reflexivity.
    apply Ascii.compare_eq_iff in E. congruence.
  - unfold bar_free in Hk. simpl in Hk.
    apply andb_prop in Hk. destruct Hk as [Hc _].
    apply negb_true_iff, Ascii.eqb_neq in Hc.
    cbn [append String.compare].
    destruct (Ascii.compare c "|") eqn:E; try reflexivity.
    apply Ascii.compare_eq_iff in E. congruence.
  - unfold bar_free in Hk, Hk'. simpl in Hk, Hk'.
    apply andb_prop in Hk. destruct Hk as [_ Hk].
    apply andb_prop in Hk'. destruct Hk' as [_ Hk'].
    cbn [append String.compare].
    destruct (Ascii.compare c c') eqn:E; try reflexivity.
    apply Ascii.compare_eq_iff in E. subst c'.
    apply IH; auto. intros ->. now apply Hne.
Qed.

Lemma compare_entries (k k' a b : string) :
  bar_free k = true -> bar_free k' = true -> k <> k' ->
  String.compare (k ++ String "|" a) (k' ++ String "|" b)
  = String.compare (k ++ "|1") (k' ++ "|1").
Proof.
  intros Hk Hk' Hne.
  rewrite (compare_bar k k' a b), (compare_bar k k' "1" "1"); auto.
Qed.

Lemma entries_of_cons (k m x : string) (ps : list (string * string * string)) :
  entries_of ((k, m, x) :: ps)
  = (k ++ "|1", m) :: (k ++ "|2", x) :: entries_of ps.
Proof. reflexivity. Qed.

(** The two writes of a [Put] or a [Delete] keep the pairs together. *)
Lemma put_pair_entries (ps : list (string * string * string)) (k m x : string) :
  Forall (fun p => bar_free (fst (fst p)) = true) ps -> bar_free k = true ->
  assoc_put (assoc_put (entries_of ps) (k ++ "|1") m) (k ++ "|2") x
  = entries_of (put_pair ps k m x).
Proof.
  intros Hps Hk. induction Hps as [|[[k' m'] x'] ps Hk' Hps IH];
    [simpl; rewrite compare_app_same; reflexivity|].
  simpl in Hk'. rewrite entries_of_cons. cbn [put_pair].
  rewrite assoc_put_cons.
  destruct (String.compare (k ++ "|1") (k' ++ "|1")) eqn:E.
  - apply String.compare_eq_iff, append_inj_r in E. subst k'.
    rewrite assoc_put_cons, compare_app_same. cbn [String.compare Ascii.compare].
    simpl N.compare. rewrite assoc_put_cons, compare_refl. reflexivity.
  - assert (Hne : k <> k') by (intros ->; rewrite compare_refl in E; discriminate).
    rewrite assoc_put_cons, compare_app_same. cbn [String.compare Ascii.compare].
    simpl N.compare. rewrite assoc_put_cons.
    rewrite (compare_entries k k' "2" "1" Hk Hk' Hne), E. reflexivity.
  - assert (Hne : k <> k') by (intros ->; rewrite compare_refl in E; discriminate).
    rewrite assoc_put_cons, (compare_entries k k' "2" "1" Hk Hk' Hne), E.
    rewrite assoc_put_cons, (compare_entries k k' "1" "2" Hk Hk' Hne), E.
    rewrite assoc_put_cons, (compare_entries k k' "2" "2" Hk Hk' Hne), E.
    rewrite IH. reflexivity.
Qed.

Lemma put_pair_bar_free (ps : list (string * string * string)) (k m x : string) :
  Forall (fun p => bar_free (fst (fst p)) = true) ps -> bar_free k = true ->
  Forall (fun p => bar_free (fst (fst p)) = true) (put_pair ps k m x).
Proof.
  intros Hps Hk. induction Hps as [|[[k' m'] x'] ps Hk' Hps IH]; simpl.
  - now repeat constructor.
  - destruct (String.compare _ _); repeat constructor; auto.
Qed.

Lemma paired_put (b : bucket) (k m x : string) :
  paired b -> bar_free k = true ->
  paired (assoc_put (assoc_put b (k ++ "|1") m) (k ++ "|2") x).
Proof.
  intros (ps & -> & Hps & Hs) Hk. exists (put_pair ps k m x). split; [|split].
  - now apply put_pair_entries.
  - now apply put_pair_bar_free.
  - now do 2 apply assoc_put_sorted.
Qed.

Lemma bolt_Put_cases (s : boltStore) (t : Tiddler) :
  snd (Put s t) = s \/
  exists m x h,
    snd (Put s t)
    = {| tiddler := assoc_put (assoc_put (tiddler s) (Key t ++ "|1") m)
                      (Key t ++ "|2") x;
         tiddler_history := h |}.
Proof.
  unfold Put, commit.
  destruct (Unmarshal (Meta t)) as [js| | |]; simpl; auto.
  destruct (getLastRevision _ _) as [r| | |]; simpl; auto.
  destruct js as [m|]; simpl; auto.
  right. do 3 eexists. reflexivity.
Qed.

Lemma bolt_Delete_cases (s : boltStore) (k : string) :
  snd (Delete s k) = s \/
  exists h,
    snd (Delete s k)
    = {| tiddler := assoc_put (assoc_put (tiddler s) (k ++ "|1") "")
                      (k ++ "|2") "";
         tiddler_history := h |}.
Proof.
  unfold Delete, commit.
  destruct (getLastRevision _ _) as [r| | |]; simpl; auto.
  right. eexists. reflexivity.
Qed.

(** Every store that writes of titles without [|] build from a new one
    keeps the pairs together. *)
Lemma paired_run (ops : list op) (s : boltStore) :
  Forall (fun o => bar_free (key_of o) = true) ops ->
  paired (tiddler s) -> paired (tiddler (run s ops)).
Proof.
  intros Hops. revert s. induction Hops as [|o ops Ho Hops IH]; intros s Hs;
    [exact Hs|].
  destruct o as [t|k]; simpl in Ho |- *; apply IH.
  - change (Contract.Put s t) with (Put s t).
    destruct (bolt_Put_cases s t) as [->|(m & x & h & ->)]; [exact Hs|].
    now apply paired_put.
  - change (Contract.Delete s k) with (Delete s k).
    destruct (bolt_Delete_cases s k) as [->|(h & ->)]; [exact Hs|].
    now apply paired_put.
Qed.

Lemma all_loop_entries (ps : list (string * string * string)) :
  all_loop (entries_of ps)
  = map (fun p => listed (snd (fst p)) (snd p))
      (filter (fun p => negb (String.length (snd (fst p)) =? 0)%nat) ps).
Proof.
  induction ps as [|[[k m] x] ps IH]; [reflexivity|].
  rewrite entries_of_cons. cbn [all_loop filter fst snd].
  destruct (String.length m =? 0)%nat; simpl; now rewrite IH.
Qed.

Lemma entries_get (ps : list (string * string * string)) (k m : string) :
  assoc_get (entries_of ps) (k ++ "|1") = Some m ->
  exists x,
    In (k, m, x) ps /\ assoc_get (entries_of ps) (k ++ "|2") = Some x.
Proof.
  induction ps as [|[[k' m'] x'] ps IH]; [discriminate|].
  rewrite entries_of_cons. cbn [assoc_get].
  destruct (String.eqb (k ++ "|1") (k' ++ "|1")) eqn:E.
  - apply String.eqb_eq, append_inj_r in E. subst k'.
    intros H. injection H as ->. exists x'. split; [now left|].
    rewrite (proj2 (String.eqb_neq _ _) (BoltFacts.meta_key_neq_text_key k)).
    now rewrite String.eqb_refl.
  - assert (Hne : k <> k')
      by (intros ->; rewrite String.eqb_refl in E; discriminate).
    destruct (bolt_entries_apart k' k Hne) as (_ & H12 & H21 & H22).
    rewrite (proj2 (String.eqb_neq _ _) H12).
    intros H. destruct (IH H) as (x & Hin & Hx). exists x.
    split; [now right|].
    now rewrite (proj2 (String.eqb_neq _ _) H21),
      (proj2 (String.eqb_neq _ _) H22).
Qed.

Lemma sorted_In_get {V : Type} (b : list (string * V)) (key : string) (v : V) :
  sorted_keys b = true -> In (key, v) b -> assoc_get b key = Some v.
Proof.
  induction b as [|[k0 v0] b IH]; intros Hs Hin; [contradiction|].
  pose proof (sorted_keys_head _ _ _ Hs) as Hhead.
  pose proof (sorted_keys_tail _ _ _ Hs) as Htail.
  simpl. destruct Hin as [Hin|Hin].
  - injection Hin as -> ->. now rewrite String.eqb_refl.
  - destruct (String.eqb key k0) eqn:E; [|now apply IH].
    apply String.eqb_eq in E. subst k0.
    rewrite Forall_forall in Hhead. specialize (Hhead _ Hin). simpl in Hhead.
    now rewrite JsonFacts.str_lt_irrefl in Hhead.
Qed.

Lemma entries_In (ps : list (string * string * string)) (k m x : string) :
  sorted_keys (entries_of ps) = true -> In (k, m, x) ps ->
  assoc_get (entries_of ps) (k ++ "|1") = Some m /\
  assoc_get (entries_of ps) (k ++ "|2") = Some x.
Proof.
  intros Hs Hin. split; apply sorted_In_get; auto; unfold entries_of;
    apply in_flat_map; exists (k, m, x); (split; [exact Hin|]); simpl; auto.
Qed.

(** X23.  In the BoltDB backend, in every state that [Put]s and [Delete]s
    of titles without [|] build from a new store, [All] lists the live
    tiddlers and nothing else: a tiddler is in the list exactly when it is
    what the loop makes of the meta and the text that [Get] returns for
    some title whose meta entry is not empty. *)
Theorem bolt_all_lists_the_live_tiddlers (ops : list op) :
  Forall (fun o => bar_free (key_of o) = true) ops ->
  exists l,
    All (run MustOpen ops) = Ok l /\
    forall t,
      In t l <->
      exists k t',
        bolt_live (run MustOpen ops) k = true /\
        Get (run MustOpen ops) k = Ok t' /\
        t = listed (Meta t') (Text t').
Proof.
  intros Hops.
  destruct (paired_run ops MustOpen Hops) as (ps & Hb & Hps & Hs).
  { exists []. repeat split; constructor. }
  eexists. split; [reflexivity|].
  unfold bolt_live, Get. rewrite Hb in *. rewrite all_loop_entries.
  intros t. rewrite in_map_iff. split.
  - intros ([[k m] x] & <- & Hin). apply filter_In in Hin.
    destruct Hin as [Hin Hm]. cbn [fst snd] in *.
    destruct (entries_In ps k m x Hs Hin) as [H1 H2].
    exists k. eexists. rewrite H1, H2. repeat split. exact Hm.
  - intros (k & t' & Hlive & Hget & ->).
    destruct (assoc_get (entries_of ps) (k ++ "|1")) as [m|] eqn:E;
      [|discriminate].
    destruct (entries_get ps k m E) as (x & Hin & Hx).
    rewrite Hx in Hget. injection Hget as <-. cbn [Meta Text string_of].
    exists (k, m, x). split; [reflexivity|].
    apply filter_In. split; [exact Hin | exact Hlive].
Qed.

Lemma bolt_all_lists_the_live_tiddlers_witness :
  let ops := [OpPut (new "A" sample_meta "one"); OpPut (new "B" macro_meta "two");
              OpDelete "A"] in
  exists l,
    All (run MustOpen ops) = Ok l /\
    forall t,
      In t l <->
      exists k t',
        bolt_live (run MustOpen ops) k = true /\
        Get (run MustOpen ops) k = Ok t' /\
        t = listed (Meta t') (Text t').
Proof.
  intros ops. apply (bolt_all_lists_the_live_tiddlers ops).
  repeat constructor.
Defined.

End BoltListing.

(** ** What the history holds *)

Module HistoryCoverage.
Import Json Store Contract.

(** X24.  In the BoltDB backend the history entry that a successful [Put]
    writes, under the key and the revision it returns, is byte for byte the
    JSON projection of the tiddler that [Get] returns for the key right
    after the [Put] (for a revision that a [float64] holds exactly). *)
Theorem bolt_history_holds_the_projection
  (s s' : Bolt.boltStore) (t : Tiddler) (rev : Z) :
  Bolt.Put s t = (Ok rev, s') -> exact rev = true ->
  exists t' doc,
    Bolt.Get s' (Key t) = Ok t' /\ MarshalJSON t' = Ok doc /\
    assoc_get (Bolt.tiddler_history s') (history_key (Key t) rev) = Some doc.
Proof.
  intros Hput Hrev.
  destruct (BoltFacts.bolt_Put_ok _ _ _ _ Hput) as (m & Hm & _ & _ & Hh).
  destruct (BoltFacts.bolt_Get_after_Put _ _ _ _ Hput) as (m0 & Hm0 & Hget).
  rewrite Hm in Hm0. injection Hm0 as <-.
  do 2 eexists. split; [exact Hget|]. split.
  - apply ProjectionFacts.MarshalJSON_fat; [reflexivity|]. cbn [Meta].
    apply JsonFacts.Unmarshal_Marshal, JsonFacts.put_canonical; auto.
    exact (JsonFacts.Unmarshal_canonical _ _ Hm).
  - rewrite Hh. apply assoc_get_put_same.
Qed.

Lemma bolt_history_holds_the_projection_witness :
  let t := new "A" sample_meta "hello" in
  exists t' doc,
    Bolt.Get (snd (Bolt.Put Bolt.MustOpen t)) "A" = Ok t' /\
    MarshalJSON t' = Ok doc /\
    assoc_get (Bolt.tiddler_history (snd (Bolt.Put Bolt.MustOpen t))) "A#1"
    = Some doc.
Proof.
  intros t.
  apply (bolt_history_holds_the_projection Bolt.MustOpen
           (snd (Bolt.Put Bolt.MustOpen t)) t 1%Z).
  - vm_compute. reflexivity.
  - reflexivity.
Defined.

(** X25.  In the flat-file backend the history file that a successful
    [Put] of a key without path separator or regular-expression
    metacharacter writes, under the key and the revision it returns, holds
    the meta encoded anew: it decodes to what the meta given to [Put]
    decodes to, so neither the text nor the revision is added to it.
    (For a meta whose numbers are integers of magnitude at most
    2^53 and history files whose numbers have less than 19 digits.) *)
Theorem flat_history_holds_the_meta
  (s s' : FlatFile.flatFileStore) (t : Tiddler) (rev : Z) :
  FlatFile.path_ok (Key t) = true -> FlatFile.regexp_ok (Key t) = true ->
  FlatFile.Put s t = (Ok rev, s') ->
  exists data,
    assoc_get (FlatFile.tiddlerHistory s') (history_key (Key t) rev) = Some data /\
    Unmarshal data = Unmarshal (Meta t).
Proof.
  intros _ _ Hput.
  destruct (FlatFileCoverage.flat_Put_ok _ _ _ _ Hput) as (js & Hjs & _ & _ & ->).
  exists (Marshal js). split; [apply assoc_get_put_same|].
  rewrite Hjs. destruct js as [m|]; [|reflexivity].
  apply JsonFacts.Unmarshal_Marshal.
  exact (JsonFacts.Unmarshal_canonical _ _ Hjs).
Qed.

Lemma flat_history_holds_the_meta_witness :
  let t := new "A" sample_meta "hello" in
  exists data,
    assoc_get (FlatFile.tiddlerHistory (snd (FlatFile.Put (FlatFile.MustOpen []) t)))
      "A#1" = Some data /\
    Unmarshal data = Unmarshal sample_meta.
Proof.
  intros t.
  apply (flat_history_holds_the_meta (FlatFile.MustOpen [])
           (snd (FlatFile.Put (FlatFile.MustOpen []) t)) t 1%Z).
  - reflexivity.
  - reflexivity.
  - vm_compute. reflexivity.
Defined.

End HistoryCoverage.

(** ** Reading a tiddler that was removed *)

Module RemovalCoverage.
Import Json Store Contract Shapes Api.

Lemma remove_ok {S : Type} `{TiddlerStore S} (s s' : S) (r : request)
  (resp : response) :
  remove s r = (Ok resp, s') -> Code resp = 204%Z ->
  Delete s (TrimPrefix (Path r) "/bags/bag/tiddlers/") = (Ok tt, s').
Proof.
  unfold remove. destruct (String.eqb (Method r) "DELETE").
  - destruct (Delete s _) as [[[]|e| |] s1]; intros Hr Hc;
      try discriminate Hr; injection Hr as <- <-;
      [reflexivity | discriminate Hc].
  - intros Hr Hc. injection Hr as <- _. discriminate Hc.
Qed.

(** X26.  Once a DELETE of a tiddler was answered with 204, a GET of the
    same tiddler is answered with 500 and the text of an internal error,
    over the BoltDB backend for every key and over the flat-file backend
    for a key without path separator: the flat-file [Get] returns
    [ErrNotFound], and the BoltDB [Get] returns a tiddler with an empty
    meta, whose projection fails. *)
Theorem get_after_delete_is_an_internal_error
  (md5_hex : string -> string) (key : string) :
  let del := {| Method := "DELETE"; Path := "/bags/bag/tiddlers/" ++ key;
                Body := "" |} in
  let get := {| Method := "GET"; Path := "/recipes/all/tiddlers/" ++ key;
                Body := "" |} in
  (forall (b b' : Bolt.boltStore) (resp : response),
     remove b del = (Ok resp, b') -> Code resp = 204%Z ->
     tiddler md5_hex b' get
     = (Ok (http_Error "internal server error" 500), b')) /\
  (forall (f f' : FlatFile.flatFileStore) (resp : response),
     FlatFile.path_ok key = true ->
     remove f del = (Ok resp, f') -> Code resp = 204%Z ->
     tiddler md5_hex f' get
     = (Ok (http_Error "internal server error" 500), f')).
Proof.
  intros del get. split.
  - intros b b' resp Hb Hcb. apply remove_ok in Hb; [|exact Hcb].
    unfold del in Hb. cbn [Path] in Hb.
    rewrite ApiCoverage.TrimPrefix_app in Hb.
    unfold tiddler, getTiddler, get. cbn [Method Path String.eqb Ascii.eqb].
    rewrite ApiCoverage.TrimPrefix_app.
    change (Get b' key) with (Bolt.Get b' key).
    now rewrite (BoltFacts.bolt_Get_after_Delete _ _ _ Hb).
  - intros f f' resp _ Hf Hcf. apply remove_ok in Hf; [|exact Hcf].
    unfold del in Hf. cbn [Path] in Hf.
    rewrite ApiCoverage.TrimPrefix_app in Hf.
    unfold tiddler, getTiddler, get. cbn [Method Path String.eqb Ascii.eqb].
    rewrite ApiCoverage.TrimPrefix_app.
    change (Get f' key) with (FlatFile.Get f' key).
    now rewrite (FlatFileFacts.flat_Get_after_Delete _ _ _ Hf).
Qed.

Lemma get_after_delete_is_an_internal_error_witness :
  let t := new "A" sample_meta "hello" in
  let b := snd (Bolt.Put Bolt.MustOpen t) in
  let f := snd (FlatFile.Put (FlatFile.MustOpen []) t) in
  let del := {| Method := "DELETE"; Path := "/bags/bag/tiddlers/A"; Body := "" |} in
  let get := {| Method := "GET"; Path := "/recipes/all/tiddlers/A"; Body := "" |} in
  tiddler (fun _ => "") (snd (remove b del)) get
  = (Ok (http_Error "internal server error" 500), snd (remove b del)) /\
  tiddler (fun _ => "") (snd (remove f del)) get
  = (Ok (http_Error "internal server error" 500), snd (remove f del)).
Proof.
  intros t b f del get.
  pose proof (get_after_delete_is_an_internal_error (fun _ => "") "A")
    as (Hb & Hf).
  split.
  - apply (Hb b (snd (remove b del))
             {| Code := 204; Header := []; Payload := "" |});
      [vm_compute; reflexivity | reflexivity].
  - apply (Hf f (snd (remove f del))
             {| Code := 204; Header := []; Payload := "" |});
      [reflexivity | vm_compute; reflexivity | reflexivity].
Defined.

End RemovalCoverage.

(** ** Keys that hold the separator of the history names *)

Module HashCoverage.
Import Json Store Contract Shapes FlatFile.

Lemma until_hash_app (r x : string) :
  until_hash (r ++ "#" ++ x) = until_hash r.
Proof.
  induction r as [|c r IH]; [reflexivity|].
  change (String c r ++ "#" ++ x) with (String c (r ++ "#" ++ x)).
  cbn [until_hash]. destruct (Ascii.eqb c "#"); [reflexivity | now rewrite IH].
Qed.

Lemma second_part_of_hash_key (p r x : string) :
  hash_free p = true ->
  second_part ((p ++ "#" ++ r) ++ "#" ++ x) = until_hash r.
Proof.
  intros Hp.
  replace ((p ++ "#" ++ r) ++ "#" ++ x) with (p ++ "#" ++ (r ++ "#" ++ x))
    by (rewrite !append_assoc; reflexivity).
  rewrite FlatFileCoverage.second_part_app by exact Hp.
  apply until_hash_app.
Qed.

Lemma flat_Put_hash_key (s : flatFileStore) (t : Tiddler) (p r : string)
  (js : gomap) :
  path_ok (p ++ "#" ++ r) = true -> regexp_ok (p ++ "#" ++ r) = true ->
  hash_free p = true -> atoi (until_hash r) = Ok 0%Z ->
  (forall name, In name (map fst (tiddlerHistory s)) ->
     name = (p ++ "#" ++ r) ++ "#" ++ "1") ->
  Key t = p ++ "#" ++ r -> Unmarshal (Meta t) = Ok js ->
  exists s',
    Put s t = (Ok 1%Z, s') /\
    forall name, In name (map fst (tiddlerHistory s')) ->
      name = (p ++ "#" ++ r) ++ "#" ++ "1".
Proof.
  intros Hp Hr Hfree Hnum Hall Hk Hjs.
  assert (Hrev : getLastRevision s (Key t) = Ok 1%Z).
  { unfold getLastRevision. rewrite Hk, Hr.
    rewrite (FlatFileCoverage.highest_exact _ 0%Z 0%Z);
      [reflexivity | | lia | now left].
    apply Forall_forall. intros f Hf. apply filter_In in Hf.
    destruct Hf as [Hf _]. rewrite (Hall f Hf).
    exists 0%Z. split; [|lia].
    now rewrite second_part_of_hash_key. }
  eexists. split.
  - unfold Put, commit. rewrite Hjs. simpl. rewrite Hk, Hp.
    rewrite Hk in Hrev. rewrite Hrev. simpl. reflexivity.
  - cbn [tiddlerHistory]. intros name Hin.
    apply FlatFileCoverage.In_assoc_get in Hin.
    destruct (String.eqb name ((p ++ "#" ++ r) ++ "#" ++ itoa 1)) eqn:E.
    + apply String.eqb_eq in E. exact E.
    + apply String.eqb_neq in E. rewrite assoc_get_put_other in Hin by exact E.
      apply FlatFileCoverage.assoc_get_name in Hin. now apply Hall.
Qed.

(** X27.  In the flat-file backend the revisions of a key that holds a
    [#] do not count when what stands between its first [#] and the next
    one is no number: on a store whose history directory is empty, every
    one of [n] successive [Put]s of such a key returns revision 1, and
    overwrites the history file of the one before. *)
Theorem flat_keys_with_a_hash_stay_at_one
  (s : flatFileStore) (p r : string) (ts : list Tiddler) :
  path_ok (p ++ "#" ++ r) = true -> regexp_ok (p ++ "#" ++ r) = true ->
  hash_free p = true -> atoi (until_hash r) = Ok 0%Z ->
  tiddlerHistory s = [] ->
  Forall (fun t => Key t = p ++ "#" ++ r /\ exists js, Unmarshal (Meta t) = Ok js)
    ts ->
  puts s ts = map (fun _ => Ok 1%Z) ts.
Proof.
  intros Hp Hr Hfree Hnum Hh Hts.
  assert (Hall : forall name, In name (map fst (tiddlerHistory s)) ->
                   name = (p ++ "#" ++ r) ++ "#" ++ "1")
    by (rewrite Hh; intros name []).
  clear Hh. revert s Hall.
  induction Hts as [|t ts [Hk [js Hjs]] Hts IH]; intros s Hall; [reflexivity|].
  destruct (flat_Put_hash_key s t p r js Hp Hr Hfree Hnum Hall Hk Hjs)
    as (s' & Hput & Hall').
  simpl. rewrite Hput. f_equal. now apply IH.
Qed.

Lemma flat_keys_with_a_hash_stay_at_one_witness :
  puts (MustOpen [])
    [new "a#b" sample_meta "one"; new "a#b" sample_meta "two";
     new "a#b" sample_meta "three"]
  = [Ok 1%Z; Ok 1%Z; Ok 1%Z].
Proof.
  apply (flat_keys_with_a_hash_stay_at_one (MustOpen []) "a" "b"
           [new "a#b" sample_meta "one"; new "a#b" sample_meta "two";
            new "a#b" sample_meta "three"]).
  - reflexivity.
  - reflexivity.
  - reflexivity.
  - reflexivity.
  - reflexivity.
  - repeat constructor; eexists; vm_compute; reflexivity.
Defined.

End HashCoverage.

(** ** The contract across the backends *)

Module ContractProofs.
Import Json Store Contract Shapes.

(** *** Keys of the history *)






(** *** The history of the BoltDB store *)






(** *** What [Get] answers after a [Put] *)





(** *** The history *)



(** *** [Delete] of a key without live record *)

(** C7, amended.  For a key with no live record, [Delete] returns nil in
    the BoltDB backend; in the SQLite backend [Delete] returns nil for
    every key; in the flat-file backend, for a key without path separator
    or zero byte and with no live record, [Delete] fails with the error of
    [os.Remove] on the [.tid] file, which is not [store.ErrNotFound], and
    leaves the store as it was. *)
Theorem C7_delete_of_a_key_without_live_record :
  (forall (b : Bolt.boltStore) (k : string),
     bolt_live b k = false -> fst (Bolt.Delete b k) = Ok tt) /\
  (forall (d : Sqlite.sqliteStore) (k : string),
     fst (Sqlite.Delete d k) = Ok tt) /\
  (forall (f : FlatFile.flatFileStore) (k : string),
     FlatFile.path_ok k = true -> flat_live f k = false ->
     FlatFile.Delete f k = (Err (ErrNotExist (k ++ ".tid")), f) /\
     ErrNotExist (k ++ ".tid") <> ErrNotFound).
Proof.
  split; [|split].
  - intros b k Hb. unfold Bolt.Delete, commit.
    now rewrite (BoltFacts.bolt_getLastRevision_no_live _ _ Hb).
  - reflexivity.
  - intros f k Hp Hf. split; [|discriminate].
    now apply FlatFileFacts.flat_Delete_absent.
Qed.

Lemma C7_delete_of_a_key_without_live_record_witness :
  fst (Bolt.Delete Bolt.MustOpen "$:/k") = Ok tt /\
  fst (Sqlite.Delete Sqlite.MustOpen "$:/k") = Ok tt /\
  FlatFile.Delete (FlatFile.MustOpen []) "k"
  = (Err (ErrNotExist "k.tid"), FlatFile.MustOpen []) /\
  ErrNotExist "k.tid" <> ErrNotFound.
Proof.
  destruct C7_delete_of_a_key_without_live_record as (Hb & Hd & Hf).
  split; [|split].
  - apply Hb. reflexivity.
  - apply Hd.
  - apply (Hf (FlatFile.MustOpen []) "k"); reflexivity.
Defined.

End ContractProofs.
